(** * The expression evaluator of Calculator.py

    A shallow embedding of [Calculator.evaluate_expression] and
    [Calculator.evaluate_simple_expression] (src/Calculator.py, lines 119-231)
    together with the pieces of the Python runtime they rely on:
    [str] values as lists of Unicode code points, the [re] patterns as a
    small backtracking matcher, [float] as IEEE-754 binary64
    ([SpecFloat], precision 53, emax 1024), and the decimal conversions
    [float(str)], [repr(float)], ['{:.8e}'] and ['{:.8f}'].

    Modelling conventions
    - a [while] loop takes a [fuel] bound on its iterations and yields
      [Timeout] when the bound is exhausted; a Python exception is a
      [Raise] result;
    - [\d] is read as the ASCII digits [0-9]; Python's [\d] and [float]
      also take the decimal digits of the other scripts, so the model
      follows the program on the texts of [typed] characters (those of
      the buttons and of an ASCII keyboard);
    - the power operator [**] of two floats is the C library's [pow]
      seen through CPython; it is a parameter of the development;
    - the timestamp of a history item and the diagnostic [print] of the
      last handler are not modelled: an outcome of the model is what the
      program returns when that [print] returns. *)

From Stdlib Require Import ZArith NArith PArith List Bool Lia Ascii String.
From Stdlib Require Import Floats.SpecFloat.
Import ListNotations.

Local Open Scope N_scope.

(* ================================================================== *)
(** * Python strings *)

(** A character is a Unicode code point, a [str] a list of them, so that
    [len] counts code points as Python does. *)
Definition char := N.
Definition str := list char.

Module Utf8.
(** Source-level literals are written as Rocq strings (bytes, UTF-8)
    and decoded to code points. *)
Definition cont (b : N) : N := N.land b 63.

Fixpoint decode_bytes (bs : list N) : str :=
  match bs with
  | [] => []
  | b :: rest =>
      if b <? 128 then b :: decode_bytes rest
      else if b <? 224 then
        match rest with
        | b1 :: rest' =>
            (N.land b 31 * 64 + cont b1) :: decode_bytes rest'
        | _ => [b]
        end
      else if b <? 240 then
        match rest with
        | b1 :: b2 :: rest' =>
            (N.land b 15 * 4096 + cont b1 * 64 + cont b2) :: decode_bytes rest'
        | _ => [b]
        end
      else
        match rest with
        | b1 :: b2 :: b3 :: rest' =>
            (N.land b 7 * 262144 + cont b1 * 4096 + cont b2 * 64 + cont b3)
              :: decode_bytes rest'
        | _ => [b]
        end
  end.

Fixpoint bytes_of (s : string) : list N :=
  match s with
  | EmptyString => []
  | String a s' => N_of_ascii a :: bytes_of s'
  end.

Definition decode (s : string) : str := decode_bytes (bytes_of s).
End Utf8.

Notation "'u' s" := (Utf8.decode s%string) (at level 5, s at level 0, only parsing).

Definition chr_eqb (a b : char) : bool := N.eqb a b.

Fixpoint str_eqb (a b : str) : bool :=
  match a, b with
  | [], [] => true
  | x :: a', y :: b' => chr_eqb x y && str_eqb a' b'
  | _, _ => false
  end.

(** [len(s)] *)
Definition len (s : str) : nat := List.length s.

(** [s.count(c)] for a one-character [c] *)
Fixpoint count (c : char) (s : str) : nat :=
  match s with
  | [] => 0%nat
  | x :: s' => if chr_eqb x c then S (count c s') else count c s'
  end.

(** [p] is a prefix of [s]; on success the rest of [s] *)
Fixpoint strip_prefix (p s : str) : option str :=
  match p, s with
  | [], _ => Some s
  | x :: p', y :: s' => if chr_eqb x y then strip_prefix p' s' else None
  | _ :: _, [] => None
  end.

(** [p in s] (substring test) *)
Fixpoint contains (p s : str) : bool :=
  match strip_prefix p s with
  | Some _ => true
  | None => match s with
            | [] => false
            | _ :: s' => contains p s'
            end
  end.

(** [s.replace(c, t)] for a one-character [c] *)
Fixpoint replace (c : char) (t : str) (s : str) : str :=
  match s with
  | [] => []
  | x :: s' => if chr_eqb x c then t ++ replace c t s' else x :: replace c t s'
  end.

(** [s.rstrip(c)] for a one-character [c] *)
Fixpoint rstrip (c : char) (s : str) : str :=
  match s with
  | [] => []
  | x :: s' =>
      match rstrip c s' with
      | [] => if chr_eqb x c then [] else [x]
      | t => x :: t
      end
  end.

(** The characters the program names. *)
Module Ch.
Definition lparen : char := 40.   (* ( *)
Definition rparen : char := 41.   (* ) *)
Definition star : char := 42.     (* * *)
Definition plus : char := 43.     (* + *)
Definition minus : char := 45.    (* - *)
Definition dot : char := 46.      (* . *)
Definition slash : char := 47.    (* / *)
Definition zero : char := 48.     (* 0 *)
Definition percent : char := 37.  (* % *)
Definition caret : char := 94.    (* ^ *)
Definition times : char := 215.   (* U+00D7 *)
Definition divide : char := 247.  (* U+00F7 *)
Definition pi : char := 960.      (* U+03C0 *)
Definition sqrt : char := 8730.   (* U+221A *)
End Ch.

(* ================================================================== *)
(** * Regular expressions

    The fragment of [re] the program uses: characters, character classes, sequence,
    ordered alternation (so [r?] is [Alt r Eps]), greedy repetition of a
    class, and capturing groups.  Matching backtracks like [re] does:
    alternatives are tried in order, a repetition gives characters back
    from the longest run down. *)

Inductive regex : Type :=
| Eps
| Chr (c : char)
| Cls (p : char -> bool)
| Cat (r1 r2 : regex)
| Alt (r1 r2 : regex)
| Many (p : char -> bool)
| Grp (r : regex).

Definition Many1 (p : char -> bool) : regex := Cat (Cls p) (Many p).
Definition Opt (r : regex) : regex := Alt r Eps.

Section Matcher.
Variable A : Type.

(** Greedy [p*] followed by the continuation [k]. *)
Fixpoint many (p : char -> bool) (s : str) (k : str -> option A) : option A :=
  match s with
  | c :: s' =>
      if p c then
        match many p s' k with
        | Some a => Some a
        | None => k s
        end
      else k s
  | [] => k s
  end.

(** [rx_match r s caps k]: match [r] at the start of [s], then hand the
    rest of the string and the groups captured so far to [k]. *)
Fixpoint rx_match (r : regex) (s : str) (caps : list str)
         (k : str -> list str -> option A) : option A :=
  match r with
  | Eps => k s caps
  | Chr c =>
      match s with
      | x :: s' => if chr_eqb x c then k s' caps else None
      | [] => None
      end
  | Cls p =>
      match s with
      | c :: s' => if p c then k s' caps else None
      | [] => None
      end
  | Cat r1 r2 =>
      rx_match r1 s caps (fun s' caps' => rx_match r2 s' caps' k)
  | Alt r1 r2 =>
      match rx_match r1 s caps k with
      | Some a => Some a
      | None => rx_match r2 s caps k
      end
  | Many p => many p s (fun s' => k s' caps)
  | Grp r1 =>
      rx_match r1 s caps
        (fun s' caps' =>
           k s' (caps' ++ [firstn (List.length s - List.length s') s]))
  end.
End Matcher.

Arguments many {A} p s k.
Arguments rx_match {A} r s caps k.

(** A match anchored at the start of [s]: the text after the match and
    the captured groups. *)
Definition rx_at (r : regex) (s : str) : option (str * list str) :=
  rx_match r s [] (fun rest caps => Some (rest, caps)).

(** [m.group(i)], groups counted from 1 *)
Definition group (caps : list str) (i : nat) : str := nth (i - 1) caps [].

(** [re.search(r, s)] as a truth value *)
Fixpoint re_search (r : regex) (s : str) : bool :=
  match rx_at r s with
  | Some _ => true
  | None => match s with
            | [] => false
            | _ :: s' => re_search r s'
            end
  end.

(** [re.findall(r, s)] for a pattern with one group: the group of every
    match, left to right, matches not overlapping.  [skip] counts the
    characters of the current match still to step over. *)
Fixpoint findall_go (r : regex) (skip : nat) (s : str) : list str :=
  match s with
  | [] => []
  | _ :: s' =>
      match skip with
      | S n => findall_go r n s'
      | O =>
          match rx_at r s with
          | Some (rest, caps) =>
              group caps 1 :: findall_go r (List.length s' - List.length rest) s'
          | None => findall_go r 0 s'
          end
      end
  end.

Definition re_findall (r : regex) (s : str) : list str := findall_go r 0 s.

(* ================================================================== *)
(** * Results of Python computations *)

(** The exceptions the evaluator can meet.  A [ValueError] carries its
    message, which the handler of [evaluate_expression] inspects. *)
Inductive exn : Type :=
| ValueError (msg : str)
| ZeroDivisionError
| TypeError
| OverflowError.

(** A computation returns, raises, or is cut off by the iteration bound
    of a [while] loop. *)
Inductive Res (A : Type) : Type :=
| Ok (a : A)
| Raise (e : exn)
| Timeout.

Arguments Ok {A} a.
Arguments Raise {A} e.
Arguments Timeout {A}.

Definition bind {A B : Type} (m : Res A) (f : A -> Res B) : Res B :=
  match m with
  | Ok a => f a
  | Raise e => Raise e
  | Timeout => Timeout
  end.

Notation "x <- m ;; k" := (bind m (fun x => k))
  (at level 61, m at next level, right associativity).

(** [re.sub(r, repl, s)] with a function [repl] of the match: every match,
    left to right and not overlapping, is replaced by what [repl] returns;
    an exception raised by [repl] ends the substitution. *)
Fixpoint sub_go (r : regex) (repl : list str -> Res str) (skip : nat) (s : str)
  : Res str :=
  match s with
  | [] => Ok []
  | c :: s' =>
      match skip with
      | S n => sub_go r repl n s'
      | O =>
          match rx_at r s with
          | Some (rest, caps) =>
              t <- repl caps ;;
              w <- sub_go r repl (List.length s' - List.length rest) s' ;;
              Ok (t ++ w)
          | None =>
              w <- sub_go r repl 0 s' ;;
              Ok (c :: w)
          end
      end
  end.

Definition re_sub (r : regex) (repl : list str -> Res str) (s : str) : Res str :=
  sub_go r repl 0 s.

(** [while cond(s): s = body(s)], cut off after [fuel] iterations. *)
Fixpoint while (fuel : nat) (cond : str -> bool) (body : str -> Res str) (s : str)
  : Res str :=
  if cond s then
    match fuel with
    | O => Timeout
    | S fuel' =>
        match body s with
        | Ok s' => while fuel' cond body s'
        | Raise e => Raise e
        | Timeout => Timeout
        end
    end
  else Ok s.

(* ================================================================== *)
(** * Python floats: IEEE-754 binary64 *)

Module Float.
Local Open Scope Z_scope.

Definition prec : Z := 53.
Definition emax : Z := 1024.

Definition float := spec_float.

Definition add : float -> float -> float := SFadd prec emax.
Definition sub : float -> float -> float := SFsub prec emax.
Definition mul : float -> float -> float := SFmul prec emax.
Definition div : float -> float -> float := SFdiv prec emax.
Definition abs : float -> float := SFabs.
Definition ltb : float -> float -> bool := SFltb.
Definition leb : float -> float -> bool := SFleb.
Definition eqb : float -> float -> bool := SFeqb.

Definition zero : float := S754_zero false.

Definition is_nan (x : float) : bool :=
  match x with S754_nan => true | _ => false end.

(** Identity of representations, used to test that a decimal reads
    back as the same float. *)
Definition same (x y : float) : bool :=
  match x, y with
  | S754_zero a, S754_zero b => Bool.eqb a b
  | S754_infinity a, S754_infinity b => Bool.eqb a b
  | S754_nan, S754_nan => true
  | S754_finite a m e, S754_finite b n f =>
      Bool.eqb a b && Pos.eqb m n && Z.eqb e f
  | _, _ => false
  end.

(** [a / b] rounded to the nearest integer, ties to even
    ([0 <= a], [0 < b]). *)
Definition div_half_even (a b : Z) : Z :=
  let q := a / b in
  let r := a mod b in
  match 2 * r ?= b with
  | Lt => q
  | Gt => q + 1
  | Eq => if Z.even q then q else q + 1
  end.

(** [p / (q * 2 ^ e)] as a fraction. *)
Definition scale2 (p q e : Z) : Z * Z :=
  match e with
  | Zneg _ => (p * 2 ^ (- e), q)
  | _ => (p, q * 2 ^ e)
  end.

Definition emin : Z := 3 - emax - prec.

(** The float nearest to [p / q], ties to even (the correctly rounded
    conversion): the exponent [e] that leaves a 53-bit mantissa, not
    below [emin]; the mantissa [p / (q * 2 ^ e)] rounded to an integer;
    a mantissa rounded up to [2 ^ 53] moves to the next exponent; an
    exponent above [emax - prec] is an infinity. *)
Definition of_ratio (p q : positive) : float :=
  let e0 := Z.log2 (Zpos p) - Z.log2 (Zpos q) - prec in
  let '(a0, b0) := scale2 (Zpos p) (Zpos q) e0 in
  let e1 := if 2 ^ prec * b0 <=? a0 then e0 + 1 else e0 in
  let e := Z.max e1 emin in
  let '(a, b) := scale2 (Zpos p) (Zpos q) e in
  let m := div_half_even a b in
  let '(m', e') := if m =? 2 ^ prec then (2 ^ (prec - 1), e + 1) else (m, e) in
  match m' with
  | Zpos mp =>
      if e' <=? emax - prec then S754_finite false mp e'
      else S754_infinity false
  | _ => S754_zero false
  end.

(** The float of a natural number. *)
Definition of_N (n : N) : float :=
  match n with
  | N0 => zero
  | Npos p => of_ratio p 1
  end.

(** The exact value of a finite float as a fraction [num / den]. *)
Definition num (m : positive) (e : Z) : Z :=
  match e with Zpos _ => Zpos m * 2 ^ e | _ => Zpos m end.
Definition den (e : Z) : Z :=
  match e with Zneg _ => 2 ^ (- e) | _ => 1 end.

(** [x.is_integer()] *)
Definition is_integer (x : float) : bool :=
  match x with
  | S754_zero _ => true
  | S754_finite _ m e => Z.eqb (num m e mod den e) 0
  | _ => false
  end.

(** [int(x)] of a finite float: truncation towards zero. *)
Definition to_int (x : float) : Z :=
  match x with
  | S754_finite s m e =>
      let q := num m e / den e in if s then - q else q
  | _ => 0
  end.

(** [math.sqrt(x)]: the IEEE square root; a result that is NaN for an
    argument that is not raises the domain error. *)
Definition domain_error : str := u"math domain error".

Definition math_sqrt (x : float) : Res float :=
  let r := SFsqrt prec emax x in
  if is_nan r && negb (is_nan x) then Raise (ValueError domain_error)
  else Ok r.

(** [a / b] of two floats. *)
Definition truediv (a b : float) : Res float :=
  if eqb b zero then Raise ZeroDivisionError else Ok (div a b).
End Float.

(* ================================================================== *)
(** * Decimal conversions *)

Module Decimal.
Local Open Scope Z_scope.
Import Float.

Definition is_digit (c : char) : bool := ((48 <=? c) && (c <=? 57))%N.
Definition digit_val (c : char) : Z := Z.of_N c - 48.
Definition digit_chr (d : Z) : char := Z.to_N (48 + d).

(** The digits of [n >= 0], most significant first, no leading zero
    ([str(n)] for a non-negative [int]). *)
Fixpoint digits_go (fuel : nat) (n : Z) (acc : str) : str :=
  match fuel with
  | O => digit_chr (n mod 10) :: acc
  | S fuel' =>
      if n <? 10 then digit_chr (n mod 10) :: acc
      else digits_go fuel' (n / 10) (digit_chr (n mod 10) :: acc)
  end.

Definition digits_of (n : Z) : str := digits_go (Z.to_nat (Z.log2 n)) n [].

(** The last [w] digits of [n], zero padded. *)
Fixpoint digits_fixed (w : nat) (n : Z) : str :=
  match w with
  | O => []
  | S w' => digits_fixed w' (n / 10) ++ [digit_chr (n mod 10)]
  end.

(** [str(n)] for an [int] *)
Definition int_str (n : Z) : str :=
  if n <? 0 then Ch.minus :: digits_of (- n) else digits_of n.

(** Reading of a text of the shape [digits [. digits]]: the number
    written without its point, and how many digits follow the point. *)
Fixpoint read_decimal (s : str) (after_dot : bool) (m : Z) (k : Z) : Z * Z :=
  match s with
  | [] => (m, k)
  | c :: s' =>
      if is_digit c then
        read_decimal s' after_dot (10 * m + digit_val c)
                     (if after_dot then k + 1 else k)
      else read_decimal s' true m k
  end.

(** The float nearest to [d * 10 ^ x], for [0 <= d]. *)
Definition of_decimal (d x : Z) : float :=
  match d with
  | Zpos p =>
      match x with
      | Zneg _ => of_ratio p (Z.to_pos (10 ^ (- x)))
      | _ => of_ratio (Z.to_pos (Zpos p * 10 ^ x)) 1
      end
  | _ => zero
  end.

(** [float(text)] for a text of the shape [digits [. digits]], the only
    shape the program converts: the nearest float to the decimal. *)
Definition float_of_literal (text : str) : float :=
  let '(m, k) := read_decimal text false 0 0 in of_decimal m (- k).

(** The decimal exponent [E] of [a / b > 0]: [10^E <= a/b < 10^(E+1)]. *)
Fixpoint scale_up (fuel : nat) (a b : Z) (k : Z) : Z :=
  match fuel with
  | O => k
  | S fuel' => if b <=? a then k else scale_up fuel' (10 * a) b (k + 1)
  end.

Definition dec_exp (a b : Z) : Z :=
  if b <=? a then Z.of_nat (List.length (digits_of (a / b))) - 1
  else - scale_up (S (Z.to_nat (Z.log2 b))) a b 0.

(** [a / b] over [10 ^ x], as a fraction. *)
Definition scaled (a b x : Z) : Z * Z :=
  match x with
  | Zpos _ => (a, b * 10 ^ x)
  | _ => (a * 10 ^ (- x), b)
  end.

(** ** [repr(float)]: the shortest decimal that reads back *)

(** Among the decimals with [n] significant digits the two around the
    value are tried; one that reads back as the float is kept, the
    nearer one when both do. *)
Definition candidate (m : positive) (e : Z) (n : Z) : option (Z * Z) :=
  let a := num m e in
  let b := den e in
  let x := dec_exp a b - n + 1 in
  let '(p, q) := scaled a b x in
  let lo := p / q in
  let r := p mod q in
  let ok d := same (of_decimal d x) (S754_finite false m e) in
  if r =? 0 then (if ok lo then Some (lo, x) else None)
  else
    match ok lo, ok (lo + 1) with
    | true, true => Some (div_half_even p q, x)
    | true, false => Some (lo, x)
    | false, true => Some (lo + 1, x)
    | false, false => None
    end.

Fixpoint shortest_go (fuel : nat) (m : positive) (e : Z) (n : Z) : Z * Z :=
  match fuel with
  | O =>
      let x := dec_exp (num m e) (den e) - n + 1 in
      let '(p, q) := scaled (num m e) (den e) x in
      (div_half_even p q, x)
  | S fuel' =>
      match candidate m e n with
      | Some dx => dx
      | None => shortest_go fuel' m e (n + 1)
      end
  end.

(** Trailing zeros of the digits move into the exponent. *)
Fixpoint strip_zeros (fuel : nat) (d x : Z) : Z * Z :=
  match fuel with
  | O => (d, x)
  | S fuel' =>
      if (d mod 10 =? 0) && (0 <? d) then strip_zeros fuel' (d / 10) (x + 1)
      else (d, x)
  end.

(** The digits of the shortest decimal and the position of its point
    ([0.d1d2... * 10 ^ decpt]). *)
Definition shortest (m : positive) (e : Z) : str * Z :=
  let '(d, x) := shortest_go 16 m e 1 in
  let '(d', x') := strip_zeros 17 d x in
  let ds := digits_of d' in
  (ds, Z.of_nat (List.length ds) + x').

Definition zeros (n : Z) : str := repeat Ch.zero (Z.to_nat n).

(** The exponent suffix [e+XX] / [e-XX], at least two digits. *)
Definition exp_suffix (e : Z) : str :=
  let ds := digits_of (Z.abs e) in
  u"e" ++ [if e <? 0 then Ch.minus else Ch.plus]
    ++ (if (List.length ds <? 2)%nat then Ch.zero :: ds else ds).

Definition repr_finite (m : positive) (e : Z) : str :=
  let '(ds, decpt) := shortest m e in
  let n := Z.of_nat (List.length ds) in
  if (decpt <=? -4) || (16 <? decpt) then
    match ds with
    | [] => []
    | d :: [] => [d] ++ exp_suffix (decpt - 1)
    | d :: tl => [d] ++ [Ch.dot] ++ tl ++ exp_suffix (decpt - 1)
    end
  else if decpt <=? 0 then u"0." ++ zeros (- decpt) ++ ds
  else if n <=? decpt then ds ++ zeros (decpt - n) ++ u".0"
  else firstn (Z.to_nat decpt) ds ++ [Ch.dot] ++ skipn (Z.to_nat decpt) ds.

Definition sign_str (s : bool) : str := if s then [Ch.minus] else [].

(** [str(x)] (which is [repr(x)]) for a float *)
Definition float_str (x : float) : str :=
  match x with
  | S754_zero s => sign_str s ++ u"0.0"
  | S754_infinity s => sign_str s ++ u"inf"
  | S754_nan => u"nan"
  | S754_finite s m e => sign_str s ++ repr_finite m e
  end.

(** ** ['{:.8e}'.format(x)] *)
Definition format_e8 (x : float) : str :=
  match x with
  | S754_zero s => sign_str s ++ u"0.00000000e+00"
  | S754_infinity s => sign_str s ++ u"inf"
  | S754_nan => u"nan"
  | S754_finite s m e =>
      let ex := dec_exp (num m e) (den e) in
      let '(p, q) := scaled (num m e) (den e) (ex - 8) in
      let d := div_half_even p q in
      let '(d', ex') := if d =? 10 ^ 9 then (10 ^ 8, ex + 1) else (d, ex) in
      sign_str s ++ digits_fixed 1 (d' / 10 ^ 8) ++ [Ch.dot]
               ++ digits_fixed 8 d' ++ exp_suffix ex'
  end.

(** ** ['{:.8f}'.format(x)] *)
Definition format_f8 (x : float) : str :=
  match x with
  | S754_zero s => sign_str s ++ u"0.00000000"
  | S754_infinity s => sign_str s ++ u"inf"
  | S754_nan => u"nan"
  | S754_finite s m e =>
      let n := div_half_even (num m e * 10 ^ 8) (den e) in
      sign_str s ++ digits_of (n / 10 ^ 8) ++ [Ch.dot] ++ digits_fixed 8 n
  end.
End Decimal.

(* ================================================================== *)
(** * The patterns of the program *)

Module Pat.
Import Decimal.

Infix "@@" := Cat (at level 60, right associativity).

Definition digit : char -> bool := is_digit.
Definition isnt (c : char) : char -> bool := fun x => negb (chr_eqb x c).

(** [\s]: the characters Python's [re] counts as white space in a [str]. *)
Definition space (c : char) : bool :=
  ((9 <=? c) && (c <=? 13)) || ((28 <=? c) && (c <=? 32))
  || (c =? 133) || (c =? 160) || (c =? 5760)
  || ((8192 <=? c) && (c <=? 8202))
  || (c =? 8232) || (c =? 8233) || (c =? 8239) || (c =? 8287) || (c =? 12288).

(** The pattern "\d+\.?\d*" *)
Definition number : regex := Many1 digit @@ Opt (Chr Ch.dot) @@ Many digit.

(** The pattern "\d+\.\d+\." (line 126) *)
Definition two_points : regex :=
  Many1 digit @@ Chr Ch.dot @@ Many1 digit @@ Chr Ch.dot.

(** The pattern "√\(([^)]+)\)" (line 134) *)
Definition sqrt_group : regex :=
  Chr Ch.sqrt @@ Chr Ch.lparen @@ Grp (Many1 (isnt Ch.rparen)) @@ Chr Ch.rparen.

(** The pattern "√(N)" of line 138, with N the pattern [number] *)
Definition sqrt_number : regex := Chr Ch.sqrt @@ Grp number.

(** The pattern "\(([^()]+)\)" (line 144) *)
Definition paren : regex :=
  Chr Ch.lparen
  @@ Grp (Many1 (fun c => isnt Ch.lparen c && isnt Ch.rparen c))
  @@ Chr Ch.rparen.

(** The pattern "√(\d+(?:\.\d+)?)" (line 182) *)
Definition sqrt_call : regex :=
  Chr Ch.sqrt @@ Grp (Many1 digit @@ Opt (Chr Ch.dot @@ Many1 digit)).

(** The pattern "(N)\s*\*\*\s*(N)" of line 186, with N the pattern [number] *)
Definition power : regex :=
  Grp number @@ Many space @@ Chr Ch.star @@ Chr Ch.star @@ Many space
  @@ Grp number.

(** The pattern "(\d+\.?\d*%?|[\+\-\×\÷\*\/])" (line 191) *)
Definition operator (c : char) : bool :=
  chr_eqb c Ch.plus || chr_eqb c Ch.minus || chr_eqb c Ch.times
  || chr_eqb c Ch.divide || chr_eqb c Ch.star || chr_eqb c Ch.slash.

Definition token : regex :=
  Grp (Alt (number @@ Opt (Chr Ch.percent)) (Cls operator)).
End Pat.

(* ================================================================== *)
(** * The evaluator *)

(** [math.pi] *)
Definition math_pi : Float.float := S754_finite false 7074237752028440 (-51).

(** What [evaluate_simple_expression] returns: [None] or a float. *)
Definition value := option Float.float.

(** [str(v)] *)
Definition value_str (v : value) : str :=
  match v with
  | None => u"None"
  | Some x => Decimal.float_str x
  end.

(** [float(v)] *)
Definition value_float (v : value) : Res Float.float :=
  match v with
  | None => Raise TypeError
  | Some x => Ok x
  end.

Record HistoryItem : Type := { expression : str; result : str }.

Section Evaluator.
(** [x ** y] for two floats: CPython's [float.__pow__] over the C
    library's [pow], which may raise. *)
Variable float_pow : Float.float -> Float.float -> Res Float.float.

Import Decimal.

(** The state of the token loop (lines 195-196). *)
Record state : Type := { current_value : value; last_operator : option str }.

Definition op_is (o : option str) (t : str) : bool :=
  match o with
  | Some x => str_eqb x t
  | None => false
  end.

(** An arithmetic operator applied to [current_value]; [None] is not a
    number. *)
Definition arith (f : Float.float -> Float.float -> Res Float.float)
           (cv : value) (y : Float.float) : Res value :=
  match cv with
  | None => Raise TypeError
  | Some x => r <- f x y ;; Ok (Some r)
  end.

Definition pure2 (f : Float.float -> Float.float -> Float.float)
  : Float.float -> Float.float -> Res Float.float := fun x y => Ok (f x y).

(** One turn of the loop over the tokens (lines 198-229). *)
Definition step (st : state) (token : str) : Res state :=
  let cv := current_value st in
  let op := last_operator st in
  let set v := Ok {| current_value := v; last_operator := op |} in
  if contains token (u"+-×÷*/") then
    Ok {| current_value := cv; last_operator := Some token |}
  else if contains (u"%") token then
    let num :=
      Float.div (float_of_literal (replace Ch.percent [] token))
                (Float.of_N 100) in
    if op_is op (u"+") then
      v <- arith (pure2 (fun x y => Float.add x (Float.mul x y))) cv num ;; set v
    else if op_is op (u"-") then
      v <- arith (pure2 (fun x y => Float.sub x (Float.mul x y))) cv num ;; set v
    else if op_is op (u"×") || op_is op (u"*") then
      v <- arith (pure2 Float.mul) cv num ;; set v
    else if op_is op (u"÷") || op_is op (u"/") then
      v <- arith Float.truediv cv num ;; set v
    else set (Some num)
  else
    let num := float_of_literal token in
    match cv with
    | None => set (Some num)
    | Some _ =>
        if op_is op (u"+") then
          v <- arith (pure2 Float.add) cv num ;; set v
        else if op_is op (u"-") then
          v <- arith (pure2 Float.sub) cv num ;; set v
        else if op_is op (u"×") || op_is op (u"*") then
          v <- arith (pure2 Float.mul) cv num ;; set v
        else if op_is op (u"÷") || op_is op (u"/") then
          v <- arith Float.truediv cv num ;; set v
        else set cv
    end.

Fixpoint reduce (st : state) (tokens : list str) : Res state :=
  match tokens with
  | [] => Ok st
  | t :: rest => st' <- step st t ;; reduce st' rest
  end.

(** Lines 178-179: the display symbols become operators. *)
Definition replace_symbols (expr : str) : str :=
  replace Ch.caret (u"**")
    (replace Ch.pi (float_str math_pi)
       (replace Ch.divide (u"/") (replace Ch.times (u"*") expr))).

(** Lines 186-188: one substitution pass of the exponent loop. *)
Definition power_pass (expr : str) : Res str :=
  re_sub Pat.power
    (fun m =>
       r <- float_pow (float_of_literal (group m 1))
                      (float_of_literal (group m 2)) ;;
       Ok (float_str r))
    expr.

(** Lines 178-188: the text handed to the tokenizer. *)
Definition rewrite_simple (fuel : nat) (expr : str) : Res str :=
  let expr := replace_symbols expr in
  expr <- re_sub Pat.sqrt_call
            (fun m => Ok (u"math.sqrt(" ++ group m 1 ++ u")")) expr ;;
  while fuel (contains (u"**")) power_pass expr.

Definition initial : state := {| current_value := None; last_operator := None |}.

Definition evaluate_simple_expression (fuel : nat) (expr : str) : Res value :=
  expr <- rewrite_simple fuel expr ;;
  let tokens := re_findall Pat.token expr in
  st <- reduce initial tokens ;;
  Ok (current_value st).

(** Lines 134-140: one turn of the square-root loop. *)
Definition sqrt_pass (fuel : nat) (expr : str) : Res str :=
  expr <- re_sub Pat.sqrt_group
            (fun m =>
               v <- evaluate_simple_expression fuel (group m 1) ;;
               x <- value_float v ;;
               r <- Float.math_sqrt x ;;
               Ok (float_str r))
            expr ;;
  re_sub Pat.sqrt_number
    (fun m =>
       r <- Float.math_sqrt (float_of_literal (group m 1)) ;;
       Ok (float_str r))
    expr.

(** Lines 144-146: one turn of the parenthesis loop. *)
Definition paren_pass (fuel : nat) (expr : str) : Res str :=
  re_sub Pat.paren
    (fun m =>
       v <- evaluate_simple_expression fuel (group m 1) ;;
       Ok (value_str v))
    expr.

(** Lines 152-160: the display form of the result. *)
Definition hundred_million : Float.float := float_of_literal (u"100000000").
Definition ten_thousandth : Float.float := float_of_literal (u"0.0001").

Definition scientific (x : Float.float) : bool :=
  Float.leb hundred_million (Float.abs x)
  || (Float.ltb Float.zero (Float.abs x)
      && Float.ltb (Float.abs x) ten_thousandth
      && negb (Float.eqb x Float.zero)).

Definition format_float (x : Float.float) : str :=
  if scientific x then format_e8 x
  else if Float.is_integer x then int_str (Float.to_int x)
  else
    let formatted := rstrip Ch.dot (rstrip Ch.zero (format_f8 x)) in
    match formatted with
    | [] => u"0"
    | _ => formatted
    end.

Definition format_result (v : value) : Res str :=
  match v with
  | None => Raise TypeError
  | Some x => Ok (format_float x)
  end.

(** Lines 133-160: the body of the [try] once the input is accepted. *)
Definition evaluate_body (fuel : nat) (expr : str) : Res str :=
  expr <- while fuel (contains (u"√")) (sqrt_pass fuel) expr ;;
  expr <- while fuel (contains (u"(")) (paren_pass fuel) expr ;;
  v <- evaluate_simple_expression fuel expr ;;
  format_result v.

(** Lines 165-173: the handlers. *)
Definition handler (e : exn) : str :=
  match e with
  | ValueError msg =>
      if contains (u"math domain error") msg then u"Invalid sqrt input"
      else u"Error"
  | ZeroDivisionError => u"Cannot divide by 0"
  | _ => u"Error"
  end.

(** [evaluate_expression]: the outcome and the history list after the
    call; [None] when a loop is cut off. *)
Definition evaluate_expression (fuel : nat) (history_list : list HistoryItem)
           (expr : str) : option (str * list HistoryItem) :=
  if (100 <? len expr)%nat then Some (u"Input too long", history_list)
  else if negb (count Ch.lparen expr =? count Ch.rparen expr)%nat then
    Some (u"Unbalanced parentheses", history_list)
  else if re_search Pat.two_points expr then
    Some (u"Invalid number", history_list)
  else
    let original_expr := expr in
    match evaluate_body fuel expr with
    | Ok formatted =>
        Some (formatted,
              {| expression := original_expr; result := formatted |}
                :: history_list)
    | Raise e => Some (handler e, history_list)
    | Timeout => None
    end.

(** The outcome alone. *)
Definition evaluate (fuel : nat) (expr : str) : option str :=
  option_map fst (evaluate_expression fuel [] expr).

(** [expr] evaluates to the outcome [r]. *)
Definition returns (expr r : str) : Prop :=
  exists fuel, evaluate fuel expr = Some r.

(** The evaluation of [expr] does not end. *)
Definition diverges (expr : str) : Prop :=
  forall fuel, evaluate fuel expr = None.
End Evaluator.

(** A property of the evaluator whatever the power function is. *)
Definition for_every_pow
  (P : (Float.float -> Float.float -> Res Float.float) -> Prop) : Prop :=
  forall float_pow, P float_pow.

(* ================================================================== *)
(** * Reference readings of the token loop *)

Module Tokens.
Import Float Decimal.

Definition operators : str := u"+-×÷*/".

(** A token that is a number, with or without a percent sign: it is not
    a piece of the operator string. *)
Definition is_number (t : str) : bool := negb (contains t operators).

(** A number token without a percent sign. *)
Definition is_plain (t : str) : bool :=
  is_number t && negb (contains (u"%") t).

(** One of the six operator tokens. *)
Definition is_operator (o : str) : bool :=
  existsb (str_eqb o) [u"+"; u"-"; u"×"; u"÷"; u"*"; u"/"].

(** What the loop does with a number [y] when the accumulator is [x]
    and the pending operator is [o]. *)
Definition binop (o : str) (x y : float) : Res float :=
  if str_eqb o (u"+") then Ok (add x y)
  else if str_eqb o (u"-") then Ok (sub x y)
  else if str_eqb o (u"×") || str_eqb o (u"*") then Ok (mul x y)
  else truediv x y.

(** The fraction a percent token stands for. *)
Definition fraction (t : str) : float :=
  div (float_of_literal (replace Ch.percent [] t)) (of_N 100).

(** The reading of [t0 o1 t1 o2 t2 ...] from the left:
    [((t0 o1 t1) o2 t2) ...]. *)
Fixpoint left_to_right (acc : float) (rest : list (str * str)) : Res float :=
  match rest with
  | [] => Ok acc
  | (o, t) :: rest' =>
      v <- binop o acc (float_of_literal t) ;; left_to_right v rest'
  end.

Definition chain (rest : list (str * str)) : list str :=
  flat_map (fun ot => [fst ot; snd ot]) rest.

Definition with_value (st : state) (v : float) : state :=
  {| current_value := Some v; last_operator := last_operator st |}.
End Tokens.

(* ================================================================== *)
(** * The rewrite loops *)

(** [r1] is [r2] unless it was cut off. *)
Definition upto {A : Type} (r1 r2 : Res A) : Prop := r1 = Timeout \/ r1 = r2.

(** The three [while] loops: the exponents (line 185), the square roots
    (line 133) and the parentheses (line 143). *)
Inductive loop : Type := Exponent | Root | Paren.

(** The character a loop is there to remove. *)
Definition marker (l : loop) : char :=
  match l with
  | Exponent => Ch.star
  | Root => Ch.sqrt
  | Paren => Ch.lparen
  end.

Definition loop_cond (l : loop) : str -> bool :=
  match l with
  | Exponent => contains (u"**")
  | Root => contains (u"√")
  | Paren => contains (u"(")
  end.

Definition loop_body (float_pow : Float.float -> Float.float -> Res Float.float)
           (fuel : nat) (l : loop) : str -> Res str :=
  match l with
  | Exponent => power_pass float_pow
  | Root => sqrt_pass float_pow fuel
  | Paren => paren_pass float_pow fuel
  end.

(** The loop [l] run for at most [n] turns. *)
Definition run_loop (float_pow : Float.float -> Float.float -> Res Float.float)
           (fuel : nat) (l : loop) (n : nat) (expr : str) : Res str :=
  while n (loop_cond l) (loop_body float_pow fuel l) expr.

(** The least number of occurrences of [c] in a text matched by [r]. *)
Fixpoint min_count (c : char) (r : regex) : nat :=
  match r with
  | Eps => 0
  | Chr x => if chr_eqb x c then 1 else 0
  | Cls _ => 0
  | Cat r1 r2 => min_count c r1 + min_count c r2
  | Alt r1 r2 => Nat.min (min_count c r1) (min_count c r2)
  | Many _ => 0
  | Grp r1 => min_count c r1
  end.

(** The characters of the texts substituted for a match: those of a
    float's [str] and of "None". *)
Definition plain (c : char) : bool :=
  Decimal.is_digit c || existsb (chr_eqb c) (u".e+-infaNo").

(** The evaluation of [expr] ends with no power function. *)
Definition never_ends (expr : str) : Prop :=
  for_every_pow (fun float_pow => diverges float_pow expr).

(** The input passes the three checks of lines 122-127. *)
Definition accepted (expr : str) : bool :=
  negb (100 <? len expr)%nat
  && (count Ch.lparen expr =? count Ch.rparen expr)%nat
  && negb (re_search Pat.two_points expr).

(** A text of the shape [digits [. digits]], with at least one digit
    before the point: what the pattern "\d+\.?\d*" matches in full. *)
Fixpoint skip_digits (s : str) : str :=
  match s with
  | c :: s' => if Decimal.is_digit c then skip_digits s' else s
  | [] => []
  end.

Definition is_literal (t : str) : bool :=
  match t with
  | c :: t' =>
      Decimal.is_digit c
      && match skip_digits t' with
         | [] => true
         | d :: fraction => chr_eqb d Ch.dot && forallb Decimal.is_digit fraction
         end
  | [] => false
  end.

(** A text that cannot go on a number: it is empty or starts with a
    character that is neither a digit nor a point. *)
Definition ends_number (rest : str) : Prop :=
  match rest with
  | [] => True
  | c :: _ => Decimal.is_digit c = false /\ chr_eqb c Ch.dot = false
  end.

(** The divisor a number token stands for. *)
Definition divisor (t : str) : Float.float :=
  if contains (u"%") t then Tokens.fraction t else Decimal.float_of_literal t.

(** The token [t] met in the state [st] is a division by zero: the
    accumulator is set, the pending operator is a division sign, [t] is a
    number token and its divisor is zero. *)
Definition divides_by_zero (st : state) (t : str) : bool :=
  match current_value st with Some _ => true | None => false end
  && (op_is (last_operator st) (u"÷") || op_is (last_operator st) (u"/"))
  && Tokens.is_number t
  && Float.eqb (divisor t) Float.zero.

(** The characters of a literal. *)
Definition literal_char (c : char) : bool :=
  Decimal.is_digit c || chr_eqb c Ch.dot.

(** The number a text of digits writes, read after the number [m]. *)
Definition decimal_value (s : str) (m : Z) : Z :=
  fold_left (fun m c => (10 * m + Decimal.digit_val c)%Z) s m.


(* ================================================================== *)
(** * The text of the display

    The part of the [Calculator] object that the editing functions read
    and write (lines 80-98): the text, the shown result, the cursor, the
    selection, the scroll position of the display, the flag of a
    selection with the mouse, and the history panel.  The window, the
    fonts, the rectangles and the scrollbar flags are not modelled. *)

Section Text.
Local Open Scope Z_scope.

(** Lines 11-20, and the height of [display_rect] (line 76). *)
Definition WIDTH : Z := 400.
Definition MAX_CHARS_PER_LINE : Z := 22.
Definition LINE_HEIGHT : Z := 40.
Definition ANIMATION_SPEED : Z := 15.
Definition display_rect_height : Z := 100.

(** The position a slice bound [i] stands for in [s]: a bound below zero
    counts from the end, a bound out of range is clamped. *)
Definition slice_index (s : str) (i : Z) : nat :=
  if i <? 0 then Z.to_nat (Z.max 0 (Z.of_nat (len s) + i))
  else Nat.min (Z.to_nat i) (len s).

(** [s[:i]], [s[i:]] and [s[i:j]] *)
Definition slice_to (s : str) (i : Z) : str := firstn (slice_index s i) s.
Definition slice_from (s : str) (i : Z) : str := skipn (slice_index s i) s.
Definition slice (s : str) (i j : Z) : str :=
  firstn (slice_index s j - slice_index s i) (skipn (slice_index s i) s).

(** [range(start, stop, step)]: a step of zero raises [ValueError]. *)
Definition range (start stop step : Z) : Res (list Z) :=
  if step =? 0 then Raise (ValueError (u"range() arg 3 must not be zero"))
  else
    let n := if 0 <? step then (stop - start + step - 1) / step
             else (start - stop - step - 1) / (- step) in
    Ok (map (fun k => start + Z.of_nat k * step) (seq 0 (Z.to_nat n))).

(** Line 234: the text cut into lines of [max_chars] characters; a text
    that gives no line gives one empty line. *)
Definition wrap_text (text : str) (max_chars : Z) : Res (list str) :=
  starts <- range 0 (Z.of_nat (len text)) max_chars ;;
  let lines := map (fun i => slice text i (i + max_chars)) starts in
  Ok (match lines with
      | [] => [ [] ]
      | _ :: _ => lines
      end).

Record calculator : Type := {
  current_input : str;
  result_preview : str;
  cursor_pos : Z;
  select_start : option Z;
  select_end : option Z;
  scroll_offset : Z;
  mouse_selecting : bool;
  history_list : list HistoryItem;
  history_view_offset : Z;
  showing_history : bool;
  history_animation : Z
}.

(** Lines 80-98: the state [__init__] sets. *)
Definition init : calculator :=
  {| current_input := [];
     result_preview := [];
     cursor_pos := 0;
     select_start := None;
     select_end := None;
     scroll_offset := 0;
     mouse_selecting := false;
     history_list := [];
     history_view_offset := WIDTH;
     showing_history := false;
     history_animation := 0 |}.

(** Assignments to one attribute. *)
Definition set_current_input (v : str) (c : calculator) : calculator :=
  {| current_input := v;
     result_preview := result_preview c;
     cursor_pos := cursor_pos c;
     select_start := select_start c;
     select_end := select_end c;
     scroll_offset := scroll_offset c;
     mouse_selecting := mouse_selecting c;
     history_list := history_list c;
     history_view_offset := history_view_offset c;
     showing_history := showing_history c;
     history_animation := history_animation c |}.

Definition set_result_preview (v : str) (c : calculator) : calculator :=
  {| current_input := current_input c;
     result_preview := v;
     cursor_pos := cursor_pos c;
     select_start := select_start c;
     select_end := select_end c;
     scroll_offset := scroll_offset c;
     mouse_selecting := mouse_selecting c;
     history_list := history_list c;
     history_view_offset := history_view_offset c;
     showing_history := showing_history c;
     history_animation := history_animation c |}.

Definition set_cursor_pos (v : Z) (c : calculator) : calculator :=
  {| current_input := current_input c;
     result_preview := result_preview c;
     cursor_pos := v;
     select_start := select_start c;
     select_end := select_end c;
     scroll_offset := scroll_offset c;
     mouse_selecting := mouse_selecting c;
     history_list := history_list c;
     history_view_offset := history_view_offset c;
     showing_history := showing_history c;
     history_animation := history_animation c |}.

Definition set_select_start (v : option Z) (c : calculator) : calculator :=
  {| current_input := current_input c;
     result_preview := result_preview c;
     cursor_pos := cursor_pos c;
     select_start := v;
     select_end := select_end c;
     scroll_offset := scroll_offset c;
     mouse_selecting := mouse_selecting c;
     history_list := history_list c;
     history_view_offset := history_view_offset c;
     showing_history := showing_history c;
     history_animation := history_animation c |}.

Definition set_select_end (v : option Z) (c : calculator) : calculator :=
  {| current_input := current_input c;
     result_preview := result_preview c;
     cursor_pos := cursor_pos c;
     select_start := select_start c;
     select_end := v;
     scroll_offset := scroll_offset c;
     mouse_selecting := mouse_selecting c;
     history_list := history_list c;
     history_view_offset := history_view_offset c;
     showing_history := showing_history c;
     history_animation := history_animation c |}.

Definition set_scroll_offset (v : Z) (c : calculator) : calculator :=
  {| current_input := current_input c;
     result_preview := result_preview c;
     cursor_pos := cursor_pos c;
     select_start := select_start c;
     select_end := select_end c;
     scroll_offset := v;
     mouse_selecting := mouse_selecting c;
     history_list := history_list c;
     history_view_offset := history_view_offset c;
     showing_history := showing_history c;
     history_animation := history_animation c |}.

Definition set_mouse_selecting (v : bool) (c : calculator) : calculator :=
  {| current_input := current_input c;
     result_preview := result_preview c;
     cursor_pos := cursor_pos c;
     select_start := select_start c;
     select_end := select_end c;
     scroll_offset := scroll_offset c;
     mouse_selecting := v;
     history_list := history_list c;
     history_view_offset := history_view_offset c;
     showing_history := showing_history c;
     history_animation := history_animation c |}.

Definition set_history_list (v : list HistoryItem) (c : calculator) : calculator :=
  {| current_input := current_input c;
     result_preview := result_preview c;
     cursor_pos := cursor_pos c;
     select_start := select_start c;
     select_end := select_end c;
     scroll_offset := scroll_offset c;
     mouse_selecting := mouse_selecting c;
     history_list := v;
     history_view_offset := history_view_offset c;
     showing_history := showing_history c;
     history_animation := history_animation c |}.

Definition set_history_view_offset (v : Z) (c : calculator) : calculator :=
  {| current_input := current_input c;
     result_preview := result_preview c;
     cursor_pos := cursor_pos c;
     select_start := select_start c;
     select_end := select_end c;
     scroll_offset := scroll_offset c;
     mouse_selecting := mouse_selecting c;
     history_list := history_list c;
     history_view_offset := v;
     showing_history := showing_history c;
     history_animation := history_animation c |}.

Definition set_showing_history (v : bool) (c : calculator) : calculator :=
  {| current_input := current_input c;
     result_preview := result_preview c;
     cursor_pos := cursor_pos c;
     select_start := select_start c;
     select_end := select_end c;
     scroll_offset := scroll_offset c;
     mouse_selecting := mouse_selecting c;
     history_list := history_list c;
     history_view_offset := history_view_offset c;
     showing_history := v;
     history_animation := history_animation c |}.

Definition set_history_animation (v : Z) (c : calculator) : calculator :=
  {| current_input := current_input c;
     result_preview := result_preview c;
     cursor_pos := cursor_pos c;
     select_start := select_start c;
     select_end := select_end c;
     scroll_offset := scroll_offset c;
     mouse_selecting := mouse_selecting c;
     history_list := history_list c;
     history_view_offset := history_view_offset c;
     showing_history := showing_history c;
     history_animation := v |}.

(** [self.select_start = self.select_end = None] *)
Definition clear_selection (c : calculator) : calculator :=
  set_select_end None (set_select_start None c).

(** Lines 236-239. *)
Definition get_selected_range (c : calculator) : option Z * option Z :=
  match select_start c, select_end c with
  | Some a, Some b => (Some (Z.min a b), Some (Z.max a b))
  | _, _ => (None, None)
  end.

(** Lines 251-258; the argument [lines] is not read. *)
Definition update_scroll_to_cursor (c : calculator) (lines : list str) : calculator :=
  let line_idx := cursor_pos c / MAX_CHARS_PER_LINE in
  let visible_lines := display_rect_height / LINE_HEIGHT in
  if line_idx <? scroll_offset c then set_scroll_offset line_idx c
  else if scroll_offset c + visible_lines <=? line_idx then
    set_scroll_offset (Z.max 0 (line_idx - visible_lines + 1)) c
  else c.

(** Lines 554-558. *)
Definition show_history (c : calculator) : calculator := set_history_animation 1 c.
Definition hide_history (c : calculator) : calculator := set_history_animation (-1) c.

(** Lines 560-570: one frame of the sliding history panel. *)
Definition update_history_animation (c : calculator) : calculator :=
  if history_animation c =? 1 then
    let c := set_history_view_offset (Z.max 0 (history_view_offset c - ANIMATION_SPEED)) c in
    if history_view_offset c =? 0 then
      set_showing_history true (set_history_animation 0 c)
    else c
  else if history_animation c =? -1 then
    let c := set_history_view_offset (Z.min WIDTH (history_view_offset c + ANIMATION_SPEED)) c in
    if history_view_offset c =? WIDTH then
      set_showing_history false (set_history_animation 0 c)
    else c
  else c.

(** [update_history_animation] run for [n] frames. *)
Fixpoint frames (n : nat) (c : calculator) : calculator :=
  match n with
  | O => c
  | S n' => frames n' (update_history_animation c)
  end.
End Text.

(** The keys [handle_input_event] tells apart, and every other key. *)
Inductive key : Type :=
| K_b | K_c | K_v | K_BACKSPACE | K_RETURN | K_LEFT | K_RIGHT | K_other.

Definition key_eqb (a b : key) : bool :=
  match a, b with
  | K_b, K_b | K_c, K_c | K_v, K_v | K_BACKSPACE, K_BACKSPACE
  | K_RETURN, K_RETURN | K_LEFT, K_LEFT | K_RIGHT, K_RIGHT
  | K_other, K_other => true
  | _, _ => false
  end.

(** A [KEYDOWN] event: its key, and its [unicode] attribute when it has
    one. *)
Record keydown : Type := { event_key : key; event_unicode : option str }.

(** What [pygame.key.get_mods()] shows of the modifier keys. *)
Record mods : Type := { KMOD_CTRL : bool; KMOD_SHIFT : bool; KMOD_META : bool }.

Section Interface.
Local Open Scope Z_scope.

Variable float_pow : Float.float -> Float.float -> Res Float.float.

(** The Unicode property behind [str.isprintable]. *)
Variable printable : char -> bool.

(** [s.isprintable()]: every character is printable; true of the empty
    text. *)
Definition isprintable (s : str) : bool := forallb printable s.

(** The call of [evaluate_expression] on the text of the display. *)
Definition evaluate_input (fuel : nat) (c : calculator) : Res (str * calculator) :=
  match evaluate_expression float_pow fuel (history_list c) (current_input c) with
  | Some (result, history) => Ok (result, set_history_list history c)
  | None => Timeout
  end.

(** Lines 457-493. *)
Definition handle_button_click (fuel : nat) (c : calculator) (label : str)
  : Res calculator :=
  if str_eqb label (u"AC") then
    Ok (set_cursor_pos 0 (set_result_preview [] (set_current_input [] c)))
  else if str_eqb label (u"CE") then
    if 0 <? cursor_pos c then
      let c := set_current_input
                 (slice_to (current_input c) (cursor_pos c - 1)
                  ++ slice_from (current_input c) (cursor_pos c)) c in
      Ok (set_cursor_pos (cursor_pos c - 1) c)
    else Ok c
  else if str_eqb label (u"=") then
    match current_input c with
    | [] => Ok c
    | _ :: _ =>
        r <- evaluate_input fuel c ;;
        let '(result, c) := r in
        let c := set_result_preview result c in
        Ok (set_cursor_pos (Z.of_nat (len (current_input c))) c)
    end
  else if str_eqb label (u"√") then
    match get_selected_range c with
    | (Some sel_start, Some sel_end) =>
        let c' := set_current_input
                    (slice_to (current_input c) sel_start ++ u"√("
                     ++ slice (current_input c) sel_start sel_end ++ u")"
                     ++ slice_from (current_input c) sel_end) c in
        let c' := set_cursor_pos
                    (sel_start + Z.of_nat (len (u"√(")) + (sel_end - sel_start) + 1) c' in
        Ok (clear_selection c')
    | _ =>
        let c' := set_current_input
                    (slice_to (current_input c) (cursor_pos c) ++ u"√()"
                     ++ slice_from (current_input c) (cursor_pos c)) c in
        let c' := set_cursor_pos (cursor_pos c' + 2) c' in
        Ok (clear_selection c')
    end
  else
    match get_selected_range c with
    | (Some sel_start, Some sel_end) =>
        let c' := set_current_input
                    (slice_to (current_input c) sel_start ++ label
                     ++ slice_from (current_input c) sel_end) c in
        let c' := set_cursor_pos (sel_start + Z.of_nat (len label)) c' in
        Ok (clear_selection c')
    | _ =>
        let c' := set_current_input
                    (slice_to (current_input c) (cursor_pos c) ++ label
                     ++ slice_from (current_input c) (cursor_pos c)) c in
        let c' := set_cursor_pos (cursor_pos c' + Z.of_nat (len label)) c' in
        Ok (clear_selection c')
    end.

(** Lines 260-339: [handle_input_event] on a [KEYDOWN] event, with the
    modifier keys [m] and the clipboard text [clipboard]; the result is
    the calculator and the clipboard after the event.  The clipboard is
    the text that the [clipboard] module holds: a failure of
    [clipboard.copy] or [clipboard.paste], like one of the [print] of
    line 172, is not modelled, so a result [Ok] is what the program does
    when these calls return. *)
Definition handle_keydown (fuel : nat) (m : mods) (clipboard : str)
           (c : calculator) (event : keydown) : Res (calculator * str) :=
  lines <- wrap_text (current_input c) MAX_CHARS_PER_LINE ;;
  lines <- match result_preview c with
           | [] => Ok lines
           | _ :: _ =>
               more <- wrap_text (u"= " ++ result_preview c) MAX_CHARS_PER_LINE ;;
               Ok (lines ++ more)
           end ;;
  if (showing_history c || negb (history_animation c =? 0))
     && key_eqb (event_key event) K_b then
    Ok (hide_history c, clipboard)
  else
    r <-
      (if key_eqb (event_key event) K_c && KMOD_CTRL m then
         match get_selected_range c with
         | (Some sel_start, Some sel_end) =>
             if negb (sel_start =? sel_end) then
               Ok (c, slice (current_input c) sel_start sel_end)
             else Ok (c, clipboard)
         | _ => Ok (c, clipboard)
         end
       else if key_eqb (event_key event) K_v && KMOD_CTRL m then
         let pasted := clipboard in
         let c' :=
           match get_selected_range c with
           | (Some sel_start, Some sel_end) =>
               let c' := set_current_input
                           (slice_to (current_input c) sel_start ++ pasted
                            ++ slice_from (current_input c) sel_end) c in
               set_cursor_pos (sel_start + Z.of_nat (len pasted)) c'
           | _ =>
               let c' := set_current_input
                           (slice_to (current_input c) (cursor_pos c) ++ pasted
                            ++ slice_from (current_input c) (cursor_pos c)) c in
               set_cursor_pos (cursor_pos c' + Z.of_nat (len pasted)) c'
           end in
         Ok (clear_selection c', clipboard)
       else if key_eqb (event_key event) K_BACKSPACE then
         match get_selected_range c with
         | (Some sel_start, Some sel_end) =>
             if negb (sel_start =? sel_end) then
               let c' := set_current_input
                           (slice_to (current_input c) sel_start
                            ++ slice_from (current_input c) sel_end) c in
               Ok (clear_selection (set_cursor_pos sel_start c'), clipboard)
             else if 0 <? cursor_pos c then
               let c' := set_current_input
                           (slice_to (current_input c) (cursor_pos c - 1)
                            ++ slice_from (current_input c) (cursor_pos c)) c in
               Ok (set_cursor_pos (cursor_pos c' - 1) c', clipboard)
             else Ok (c, clipboard)
         | _ =>
             if 0 <? cursor_pos c then
               let c' := set_current_input
                           (slice_to (current_input c) (cursor_pos c - 1)
                            ++ slice_from (current_input c) (cursor_pos c)) c in
               Ok (set_cursor_pos (cursor_pos c' - 1) c', clipboard)
             else Ok (c, clipboard)
         end
       else if key_eqb (event_key event) K_RETURN
               || match event_unicode event with
                  | Some t => str_eqb t (u"=")
                  | None => false
                  end then
         match current_input c with
         | [] => Ok (c, clipboard)
         | _ :: _ =>
             r <- evaluate_input fuel c ;;
             let '(result, c') := r in
             let c' := set_result_preview result c' in
             let c' := set_cursor_pos (Z.of_nat (len (current_input c'))) c' in
             let c' := clear_selection c' in
             Ok (set_scroll_offset
                   (Z.max 0 (Z.of_nat (List.length lines)
                             - display_rect_height / LINE_HEIGHT + 1)) c',
                 clipboard)
         end
       else if match event_unicode event with
               | Some t => isprintable t
               | None => false
               end then
         match event_unicode event with
         | Some t =>
             if negb (KMOD_CTRL m || KMOD_META m) then
               let c' :=
                 match get_selected_range c with
                 | (Some sel_start, Some sel_end) =>
                     if negb (sel_start =? sel_end) then
                       let c' := set_current_input
                                   (slice_to (current_input c) sel_start ++ t
                                    ++ slice_from (current_input c) sel_end) c in
                       set_cursor_pos (sel_start + 1) c'
                     else
                       let c' := set_current_input
                                   (slice_to (current_input c) (cursor_pos c) ++ t
                                    ++ slice_from (current_input c) (cursor_pos c)) c in
                       set_cursor_pos (cursor_pos c' + 1) c'
                 | _ =>
                     let c' := set_current_input
                                 (slice_to (current_input c) (cursor_pos c) ++ t
                                  ++ slice_from (current_input c) (cursor_pos c)) c in
                     set_cursor_pos (cursor_pos c' + 1) c'
                 end in
               Ok (clear_selection c', clipboard)
             else Ok (c, clipboard)
         | None => Ok (c, clipboard)
         end
       else if key_eqb (event_key event) K_LEFT then
         if KMOD_SHIFT m then
           let c' := match select_start c with
                     | None => set_select_start (Some (cursor_pos c)) c
                     | Some _ => c
                     end in
           let c' := set_cursor_pos (Z.max 0 (cursor_pos c' - 1)) c' in
           Ok (set_select_end (Some (cursor_pos c')) c', clipboard)
         else
           Ok (clear_selection (set_cursor_pos (Z.max 0 (cursor_pos c - 1)) c),
               clipboard)
       else if key_eqb (event_key event) K_RIGHT then
         if KMOD_SHIFT m then
           let c' := match select_start c with
                     | None => set_select_start (Some (cursor_pos c)) c
                     | Some _ => c
                     end in
           let c' := set_cursor_pos
                       (Z.min (Z.of_nat (len (current_input c'))) (cursor_pos c' + 1)) c' in
           Ok (set_select_end (Some (cursor_pos c')) c', clipboard)
         else
           Ok (clear_selection
                 (set_cursor_pos
                    (Z.min (Z.of_nat (len (current_input c))) (cursor_pos c + 1)) c),
               clipboard)
       else Ok (c, clipboard)) ;;
    let '(c', clipboard') := r in
    Ok (update_scroll_to_cursor c' lines, clipboard').
End Interface.

(** The left and the top of [display_rect] (line 76). *)
Definition display_rect_x : Z := 10.
Definition display_rect_y : Z := 60.

(** [l[i]] for a list: an index below zero counts from the end; [None]
    stands for the [IndexError] of an index out of range. *)
Definition item {A : Type} (l : list A) (i : Z) : option A :=
  if (i <? 0)%Z then
    if (- i <=? Z.of_nat (List.length l))%Z then
      nth_error l (Z.to_nat (Z.of_nat (List.length l) + i))
    else None
  else nth_error l (Z.to_nat i).

(** [s[i]] for an index in the text: a text of one character. *)
Definition char_at (s : str) (i : nat) : str := firstn 1 (skipn i s).

Section Mouse.
Local Open Scope Z_scope.

(** [self.fonts["large"].size(text)[0]]: the width of a text on the
    screen. *)
Variable text_width : str -> Z.

(** Lines 503-508 and 520-525: the loop over the characters of the
    line under the pointer, from the character [i] on, [todo] characters
    being left. *)
Fixpoint char_index (text_line : str) (rel_x : Z) (i todo : nat) (char_idx : Z) : Z :=
  match todo with
  | O => char_idx
  | S todo' =>
      let char_x := text_width (slice_to text_line (Z.of_nat i)) in
      if rel_x <? char_x + text_width (char_at text_line i) / 2 then char_idx
      else char_index text_line rel_x (S i) todo' (Z.of_nat i + 1)
  end.

(** Lines 496-508 and 513-525: the position in the text of the point
    [pos] of the display; [None] when [lines[line_idx]] raises. *)
Definition pointed (c : calculator) (pos : Z * Z) : Res (option Z) :=
  let rel_x := fst pos - display_rect_x - 10 in
  let rel_y := snd pos - display_rect_y - 5 in
  let line_idx := scroll_offset c + rel_y / LINE_HEIGHT in
  lines <- wrap_text (current_input c) MAX_CHARS_PER_LINE ;;
  let char_idx :=
    if line_idx <? Z.of_nat (List.length lines) then
      match item lines line_idx with
      | Some text_line =>
          Some (char_index text_line rel_x 0 (List.length text_line) 0)
      | None => None
      end
    else Some 0 in
  match char_idx with
  | Some char_idx =>
      Ok (Some (Z.min (Z.of_nat (len (current_input c)))
                      (line_idx * MAX_CHARS_PER_LINE + char_idx)))
  | None => Ok None
  end.

(** Lines 495-511. *)
Definition handle_mouse_click (c : calculator) (pos : Z * Z)
  : Res (option calculator) :=
  p <- pointed c pos ;;
  match p with
  | Some p =>
      let c := set_cursor_pos p c in
      let c := set_select_end (Some (cursor_pos c))
                 (set_select_start (Some (cursor_pos c)) c) in
      Ok (Some (set_mouse_selecting true c))
  | None => Ok None
  end.

(** Lines 512-527. *)
Definition handle_mouse_selection (c : calculator) (pos : Z * Z)
  : Res (option calculator) :=
  p <- pointed c pos ;;
  match p with
  | Some p =>
      let c := set_cursor_pos p c in
      Ok (Some (set_select_end (Some (cursor_pos c)) c))
  | None => Ok None
  end.
End Mouse.

(** The cursor is in the text. *)
Definition cursor_in_text (c : calculator) : Prop :=
  (0 <= cursor_pos c <= Z.of_nat (len (current_input c)))%Z.

(** The bounds of the selection, when there are any, are in the text. *)
Definition selection_in_text (c : calculator) : Prop :=
  match select_start c with
  | Some a => (0 <= a <= Z.of_nat (len (current_input c)))%Z
  | None => True
  end
  /\ match select_end c with
     | Some b => (0 <= b <= Z.of_nat (len (current_input c)))%Z
     | None => True
     end.

(** There is no selection. *)
Definition no_selection (c : calculator) : Prop :=
  select_start c = None \/ select_end c = None.

(** The outcomes of [evaluate_expression] that are not numbers. *)
Definition messages : list str :=
  [u"Input too long"; u"Unbalanced parentheses"; u"Invalid number";
   u"Invalid sqrt input"; u"Cannot divide by 0"; u"Error"].

(** The text holds digits, a point, digits and a point in a row: what
    the pattern of line 126 looks for. *)
Definition two_points_in (expr : str) : Prop :=
  exists pre d1 d2 post,
    expr = pre ++ d1 ++ Ch.dot :: d2 ++ Ch.dot :: post
    /\ d1 <> [] /\ d2 <> []
    /\ forallb Decimal.is_digit d1 = true /\ forallb Decimal.is_digit d2 = true.

(** A character that starts neither a number nor a rewrite: no digit and
    none of the characters of "π√()^*×". *)
Definition numberless (c : char) : bool :=
  negb (Decimal.is_digit c) && negb (existsb (chr_eqb c) (u"π√()^*×")).

(** The characters a display form can start with: a digit, the minus
    sign, and the first letters of "inf" and "nan". *)
Definition heads (c : char) : bool :=
  Decimal.is_digit c || existsb (chr_eqb c) (u"-in").

(** The characters of the calculator's buttons and of an ASCII keyboard.
    Python's [\d] and [float] take the decimal digits of every script;
    on a text of these characters the digits are those of "0123456789",
    as [Decimal.is_digit] has them. *)
Definition typed (c : char) : bool :=
  (c <? 128) || existsb (chr_eqb c) (u"×÷π√").


(** [b] is the buffer of the loop [while cond(s): s = body(s)] after [k]
    turns from [s]: the condition held before each turn and each turn
    returned. *)
Fixpoint turns (cond : str -> bool) (body : str -> Res str) (k : nat) (s b : str)
  : Prop :=
  match k with
  | O => b = s
  | S k' =>
      cond s = true
      /\ exists s', body s = Ok s' /\ turns cond body k' s' b
  end.

(** The same for the loop [l] of the evaluator. *)
Definition after_turns (float_pow : Float.float -> Float.float -> Res Float.float)
           (fuel : nat) (l : loop) (k : nat) (expr b : str) : Prop :=
  turns (loop_cond l) (loop_body float_pow fuel l) k expr b.

(** A turn of the loop [l] leaves the buffer [b] as it is, with the
    marker of the loop still in it. *)
Definition stalls (float_pow : Float.float -> Float.float -> Res Float.float)
           (fuel : nat) (l : loop) (b : str) : Prop :=
  loop_cond l b = true /\ loop_body float_pow fuel l b = Ok b.

(** The buffer on which [evaluate_expression] enters the loop [l] for
    the input [expr]: the input itself for the root loop (line 133), what
    the root loop leaves for the parenthesis loop (line 143), and for the
    exponent loop of the last call of [evaluate_simple_expression]
    (line 149) what the two loops leave, after the replacements of lines
    178-182. *)
Definition loop_start (float_pow : Float.float -> Float.float -> Res Float.float)
           (fuel : nat) (l : loop) (expr : str) : Res str :=
  match l with
  | Root => Ok expr
  | Paren => while fuel (contains (u"√")) (sqrt_pass float_pow fuel) expr
  | Exponent =>
      expr <- while fuel (contains (u"√")) (sqrt_pass float_pow fuel) expr ;;
      expr <- while fuel (contains (u"(")) (paren_pass float_pow fuel) expr ;;
      re_sub Pat.sqrt_call
        (fun m => Ok (u"math.sqrt(" ++ group m 1 ++ u")"))
        (replace_symbols expr)
  end.
(* ================================================================== *)
(** * More fuel never changes a result *)

Lemma upto_refl {A : Type} (r : Res A) : upto r r.
Proof. now right. Qed.

Lemma upto_bind {A B : Type} (m1 m2 : Res A) (f1 f2 : A -> Res B) :
  upto m1 m2 -> (forall a, upto (f1 a) (f2 a)) -> upto (bind m1 f1) (bind m2 f2).
Proof.
  intros [-> | ->] Hf.
  - now left.
  - destruct m2 as [a | e | ]; simpl; [apply Hf | now right | now right].
Qed.

Lemma sub_go_upto (r : regex) (repl1 repl2 : list str -> Res str) :
  (forall caps, upto (repl1 caps) (repl2 caps)) ->
  forall s skip, upto (sub_go r repl1 skip s) (sub_go r repl2 skip s).
Proof.
  intros Hrepl s.
  induction s as [ | c s IH]; intros skip; simpl.
  - apply upto_refl.
  - destruct skip as [ | n]; [ | apply IH].
    destruct (rx_at r (c :: s)) as [[rest caps] | ].
    + apply upto_bind; [apply Hrepl | intros t].
      apply upto_bind; [apply IH | intros w; apply upto_refl].
    + apply upto_bind; [apply IH | intros w; apply upto_refl].
Qed.

Lemma while_upto (cond : str -> bool) (body1 body2 : str -> Res str) :
  (forall s, upto (body1 s) (body2 s)) ->
  forall n1 n2 s, (n1 <= n2)%nat ->
    upto (while n1 cond body1 s) (while n2 cond body2 s).
Proof.
  intros Hbody n1.
  induction n1 as [ | n1 IH]; intros n2 s Hle; simpl.
  - destruct (cond s) eqn:Hc.
    + now left.
    + destruct n2; simpl; rewrite Hc; apply upto_refl.
  - destruct n2 as [ | n2]; [lia | simpl].
    destruct (cond s); [ | apply upto_refl].
    destruct (Hbody s) as [-> | ->]; [now left | ].
    destruct (body2 s) as [s' | e | ]; [ | now right | now right].
    apply IH; lia.
Qed.

Section FuelMonotone.
Variable float_pow : Float.float -> Float.float -> Res Float.float.

Lemma rewrite_simple_upto (n1 n2 : nat) (expr : str) :
  (n1 <= n2)%nat ->
  upto (rewrite_simple float_pow n1 expr) (rewrite_simple float_pow n2 expr).
Proof.
  intros Hle. unfold rewrite_simple.
  apply upto_bind; [apply upto_refl | intros e].
  apply while_upto; [intros; apply upto_refl | exact Hle].
Qed.

Lemma evaluate_simple_upto (n1 n2 : nat) (expr : str) :
  (n1 <= n2)%nat ->
  upto (evaluate_simple_expression float_pow n1 expr)
       (evaluate_simple_expression float_pow n2 expr).
Proof.
  intros Hle. unfold evaluate_simple_expression.
  apply upto_bind; [now apply rewrite_simple_upto | intros; apply upto_refl].
Qed.

Lemma sqrt_pass_upto (n1 n2 : nat) (expr : str) :
  (n1 <= n2)%nat ->
  upto (sqrt_pass float_pow n1 expr) (sqrt_pass float_pow n2 expr).
Proof.
  intros Hle. unfold sqrt_pass.
  apply upto_bind; [ | intros; apply upto_refl].
  apply sub_go_upto. intros caps.
  apply upto_bind; [now apply evaluate_simple_upto | intros; apply upto_refl].
Qed.

Lemma paren_pass_upto (n1 n2 : nat) (expr : str) :
  (n1 <= n2)%nat ->
  upto (paren_pass float_pow n1 expr) (paren_pass float_pow n2 expr).
Proof.
  intros Hle. unfold paren_pass.
  apply sub_go_upto. intros caps.
  apply upto_bind; [now apply evaluate_simple_upto | intros; apply upto_refl].
Qed.

Lemma evaluate_body_upto (n1 n2 : nat) (expr : str) :
  (n1 <= n2)%nat ->
  upto (evaluate_body float_pow n1 expr) (evaluate_body float_pow n2 expr).
Proof.
  intros Hle. unfold evaluate_body.
  apply upto_bind.
  { apply while_upto; [intros; now apply sqrt_pass_upto | exact Hle]. }
  intros e1. apply upto_bind.
  { apply while_upto; [intros; now apply paren_pass_upto | exact Hle]. }
  intros e2. apply upto_bind; [now apply evaluate_simple_upto | ].
  intros; apply upto_refl.
Qed.

Lemma evaluate_more_fuel (n1 n2 : nat) (expr r : str) :
  (n1 <= n2)%nat ->
  evaluate float_pow n1 expr = Some r -> evaluate float_pow n2 expr = Some r.
Proof.
  intros Hle. unfold evaluate, evaluate_expression.
  destruct (100 <? len expr)%nat; [trivial | ].
  destruct (negb _); [trivial | ].
  destruct (re_search _ _); [trivial | ].
  destruct (evaluate_body_upto n1 n2 expr Hle) as [-> | ->]; [discriminate | trivial].
Qed.

(** An expression has at most one outcome. *)
Lemma returns_functional (expr r1 r2 : str) :
  returns float_pow expr r1 -> returns float_pow expr r2 -> r1 = r2.
Proof.
  intros [n1 H1] [n2 H2].
  apply (evaluate_more_fuel n1 (Nat.max n1 n2)) in H1; [ | lia].
  apply (evaluate_more_fuel n2 (Nat.max n1 n2)) in H2; [ | lia].
  congruence.
Qed.

Lemma diverges_no_outcome (expr r : str) :
  diverges float_pow expr -> ~ returns float_pow expr r.
Proof. intros Hd [n Hn]. rewrite Hd in Hn. discriminate. Qed.
End FuelMonotone.

(* ================================================================== *)
(** * The token loop *)

Lemma str_eqb_eq (a b : str) : str_eqb a b = true -> a = b.
Proof.
  revert b. induction a as [ | x a IH]; intros [ | y b]; simpl; try discriminate.
  - reflexivity.
  - intros H. apply andb_prop in H. destruct H as [Hx Hab].
    apply N.eqb_eq in Hx. now rewrite Hx, (IH b Hab).
Qed.

Lemma strip_prefix_In (p s rest : str) (c : char) :
  strip_prefix p s = Some rest -> In c p -> In c s.
Proof.
  revert s. induction p as [ | x p IH]; intros s Hs Hin; [destruct Hin | ].
  destruct s as [ | y s]; simpl in Hs; [discriminate | ].
  destruct (chr_eqb x y) eqn:E; [ | discriminate].
  apply N.eqb_eq in E. destruct Hin as [-> | Hin].
  - left. now symmetry.
  - right. now apply IH.
Qed.

(** The characters of a substring are characters of the string. *)
Lemma contains_In (p s : str) (c : char) :
  contains p s = true -> In c p -> In c s.
Proof.
  induction s as [ | y s IH]; simpl; intros H Hin.
  - destruct (strip_prefix p []) eqn:E; [ | discriminate].
    now apply (strip_prefix_In _ _ _ c E).
  - destruct (strip_prefix p (y :: s)) eqn:E.
    + now apply (strip_prefix_In _ _ _ c E).
    + right. now apply IH.
Qed.

Lemma contains_char_In (c : char) (s : str) : contains [c] s = true -> In c s.
Proof. intros H. apply (contains_In _ _ c H). now left. Qed.

(** A token with a percent sign is a number token. *)
Lemma percent_is_number (t : str) :
  contains (u"%") t = true -> Tokens.is_number t = true.
Proof.
  intros H. unfold Tokens.is_number.
  destruct (contains t Tokens.operators) eqn:E; [ | reflexivity].
  exfalso. apply contains_char_In in H.
  pose proof (contains_In _ _ _ E H) as Hin.
  vm_compute in Hin. intuition discriminate.
Qed.

Lemma operator_cases (o : str) :
  Tokens.is_operator o = true ->
  o = u"+" \/ o = u"-" \/ o = u"×" \/ o = u"÷" \/ o = u"*" \/ o = u"/".
Proof.
  unfold Tokens.is_operator. simpl. intros H.
  repeat (apply orb_prop in H; destruct H as [H | H];
          [apply str_eqb_eq in H; tauto | ]).
  discriminate.
Qed.

Section TokenLoop.
Import Float Decimal Tokens.

(** An operator token only replaces the pending operator. *)
Lemma step_operator (st : state) (o : str) :
  is_operator o = true ->
  step st o = Ok {| current_value := current_value st; last_operator := Some o |}.
Proof.
  intros H. destruct (operator_cases _ H) as [-> | [-> | [-> | [-> | [-> | ->]]]]];
    reflexivity.
Qed.

(** A plain number on an unset accumulator sets it, whatever operator is
    pending. *)
Lemma step_first_number (o : option str) (t : str) :
  is_plain t = true ->
  step {| current_value := None; last_operator := o |} t
  = Ok {| current_value := Some (float_of_literal t); last_operator := o |}.
Proof.
  unfold is_plain, is_number. intros H.
  apply andb_prop in H. destruct H as [H1 H2].
  apply negb_true_iff in H1. apply negb_true_iff in H2.
  unfold operators in H1.
  cbv beta iota zeta delta [step current_value last_operator].
  rewrite H1, H2. reflexivity.
Qed.

(** A plain number on a set accumulator applies the pending operator. *)
Lemma step_number (x : float) (o t : str) :
  is_operator o = true -> is_plain t = true ->
  step {| current_value := Some x; last_operator := Some o |} t
  = v <- binop o x (float_of_literal t) ;;
    Ok {| current_value := Some v; last_operator := Some o |}.
Proof.
  unfold is_plain, is_number. intros Ho H.
  apply andb_prop in H. destruct H as [H1 H2].
  apply negb_true_iff in H1. apply negb_true_iff in H2.
  unfold operators in H1.
  cbv beta iota zeta delta [step current_value last_operator].
  rewrite H1, H2.
  destruct (operator_cases _ Ho) as [-> | [-> | [-> | [-> | [-> | ->]]]]];
    unfold binop, truediv; simpl;
    try reflexivity;
    destruct (eqb (float_of_literal t) zero); reflexivity.
Qed.

(** A percent token on a set accumulator: the rule depends on the
    pending operator. *)
Lemma step_percent (x : float) (o t : str) :
  contains (u"%") t = true ->
  step {| current_value := Some x; last_operator := Some o |} t
  = if str_eqb o (u"+") then
      Ok (with_value {| current_value := None; last_operator := Some o |}
            (add x (mul x (fraction t))))
    else if str_eqb o (u"-") then
      Ok (with_value {| current_value := None; last_operator := Some o |}
            (sub x (mul x (fraction t))))
    else if str_eqb o (u"×") || str_eqb o (u"*") then
      Ok (with_value {| current_value := None; last_operator := Some o |}
            (mul x (fraction t)))
    else if str_eqb o (u"÷") || str_eqb o (u"/") then
      v <- truediv x (fraction t) ;;
      Ok (with_value {| current_value := None; last_operator := Some o |} v)
    else
      Ok (with_value {| current_value := None; last_operator := Some o |}
            (fraction t)).
Proof.
  intros H. pose proof (percent_is_number _ H) as Hn.
  unfold is_number in Hn. apply negb_true_iff in Hn. unfold operators in Hn.
  cbv beta iota zeta delta [step current_value last_operator with_value fraction op_is].
  rewrite Hn, H.
  destruct (str_eqb o (u"+")); [reflexivity | ].
  destruct (str_eqb o (u"-")); [reflexivity | ].
  destruct (str_eqb o (u"×") || str_eqb o (u"*")); [reflexivity | ].
  destruct (str_eqb o (u"÷") || str_eqb o (u"/")); [ | reflexivity].
  simpl. destruct (truediv _ _); reflexivity.
Qed.

(** A chain of operators and plain numbers after a set accumulator is
    read from the left. *)
Lemma reduce_chain (rest : list (str * str)) :
  Forall (fun ot => is_operator (fst ot) = true /\ is_plain (snd ot) = true) rest ->
  forall (x : float) (o : option str),
    (st <- reduce {| current_value := Some x; last_operator := o |} (chain rest) ;;
     Ok (current_value st))
    = (v <- left_to_right x rest ;; Ok (Some v)).
Proof.
  induction 1 as [ | [o' t] rest [Ho Ht] _ IH]; intros x o; [reflexivity | ].
  simpl in Ho, Ht. simpl chain. simpl reduce.
  rewrite (step_operator _ _ Ho). simpl.
  rewrite (step_number x _ _ Ho Ht).
  destruct (binop o' x (float_of_literal t)) as [v | e | ]; simpl;
    [apply IH | reflexivity | reflexivity].
Qed.
End TokenLoop.

(* ================================================================== *)
(** * Outcomes of particular expressions *)

Ltac evaluates := exists 1%nat; vm_compute; reflexivity.

Ltac other_outcome H :=
  let H' := fresh in
  let E := fresh in
  intros H'; pose proof (returns_functional _ _ _ _ H H') as E;
  vm_compute in E; discriminate E.

(** C1. The square root of a parenthesised "-4": the token loop drops the
    leading minus of the argument, the argument evaluates to 4, and the
    outcome is the text "2" and not "Invalid sqrt input"; an argument that
    does evaluate to a negative number, as in "√(3-5)", gives
    "Invalid sqrt input". *)
Theorem sqrt_of_minus_four_is_two :
  forall float_pow,
    returns float_pow (u"√(-4)") (u"2")
    /\ ~ returns float_pow (u"√(-4)") (u"Invalid sqrt input")
    /\ returns float_pow (u"√(3-5)") (u"Invalid sqrt input").
Proof.
  intros float_pow.
  assert (H : returns float_pow (u"√(-4)") (u"2")) by evaluates.
  split; [exact H | split; [other_outcome H | evaluates]].
Qed.

(** C2. The nested root "√(√(16))": the group of the first pattern stops
    at the first closing parenthesis and so holds the text "√(16", which
    the simple evaluator reads as 16; the outcome is "4" and not "2". *)
Theorem nested_root_of_sixteen_is_four :
  forall float_pow,
    rx_at Pat.sqrt_group (u"√(√(16))") = Some (u")", [u"√(16"])
    /\ returns float_pow (u"√(√(16))") (u"4")
    /\ ~ returns float_pow (u"√(√(16))") (u"2").
Proof.
  intros float_pow.
  assert (H : returns float_pow (u"√(√(16))") (u"4")) by evaluates.
  split; [vm_compute; reflexivity | split; [exact H | other_outcome H]].
Qed.

(** C5. The operators are applied from the left with no precedence:
    "2+3×4" gives "20" (not "14"), "10÷2×5" gives "25", and the token
    loop reads every chain [t0 o1 t1 o2 t2 ...] of plain numbers and
    operators as [((t0 o1 t1) o2 t2) ...]. *)
Theorem operators_apply_left_to_right :
  forall float_pow,
    returns float_pow (u"2+3×4") (u"20")
    /\ ~ returns float_pow (u"2+3×4") (u"14")
    /\ returns float_pow (u"10÷2×5") (u"25")
    /\ (forall (t0 : str) (rest : list (str * str)),
          Tokens.is_plain t0 = true ->
          Forall (fun ot => Tokens.is_operator (fst ot) = true
                            /\ Tokens.is_plain (snd ot) = true) rest ->
          (st <- reduce initial (t0 :: Tokens.chain rest) ;;
           Ok (current_value st))
          = (v <- Tokens.left_to_right (Decimal.float_of_literal t0) rest ;;
             Ok (Some v))).
Proof.
  intros float_pow.
  assert (H : returns float_pow (u"2+3×4") (u"20")) by evaluates.
  split; [exact H | split; [other_outcome H | split; [evaluates | ]]].
  intros t0 rest Ht0 Hrest.
  simpl reduce. unfold initial. rewrite (step_first_number None t0 Ht0). simpl bind.
  now apply reduce_chain.
Qed.

Lemma operators_apply_left_to_right_witness :
  for_every_pow (fun float_pow =>
    (st <- reduce initial [u"2"; u"+"; u"3"; u"×"; u"4"] ;; Ok (current_value st))
    = Ok (Some (Float.of_N 20))).
Proof.
  intros float_pow.
  destruct (operators_apply_left_to_right float_pow) as (_ & _ & _ & H).
  refine (eq_trans (H (u"2") [(u"+", u"3"); (u"×", u"4")] _ _) _).
  - vm_compute; reflexivity.
  - repeat constructor.
  - vm_compute; reflexivity.
Defined.

(** C6. A percent token is read in the context of the pending operator:
    after "+" the accumulator [x] becomes [x + x * f] for the fraction [f]
    of the token (its number over 100), after "-" it becomes [x - x * f],
    after "×" or "*" it becomes [x * f] and after "÷" or "/" it becomes
    [x / f]; "200+10%" gives "220" and "200×10%" gives "20". *)
Theorem percent_follows_pending_operator :
  forall float_pow,
    (forall (x : Float.float) (t : str),
        contains (u"%") t = true ->
        let f := Tokens.fraction t in
        let after o v :=
          step {| current_value := Some x; last_operator := Some o |} t
          = (r <- v ;;
             Ok {| current_value := Some r; last_operator := Some o |}) in
        after (u"+") (Ok (Float.add x (Float.mul x f)))
        /\ after (u"-") (Ok (Float.sub x (Float.mul x f)))
        /\ after (u"×") (Ok (Float.mul x f))
        /\ after (u"*") (Ok (Float.mul x f))
        /\ after (u"÷") (Float.truediv x f)
        /\ after (u"/") (Float.truediv x f))
    /\ returns float_pow (u"200+10%") (u"220")
    /\ returns float_pow (u"200×10%") (u"20").
Proof.
  intros float_pow. split; [ | split; evaluates].
  intros x t Ht f after. unfold after, f.
  repeat split; rewrite (step_percent x _ t Ht); reflexivity.
Qed.

Lemma percent_follows_pending_operator_witness :
  for_every_pow (fun float_pow =>
    step {| current_value := Some (Float.of_N 200); last_operator := Some (u"+") |}
         (u"10%")
    = Ok {| current_value := Some (Float.of_N 220); last_operator := Some (u"+") |}).
Proof.
  intros float_pow.
  destruct (percent_follows_pending_operator float_pow) as (H & _).
  destruct (H (Float.of_N 200) (u"10%") eq_refl) as (Hplus & _).
  refine (eq_trans Hplus _). vm_compute; reflexivity.
Defined.

(** C10. A plain number met while the accumulator is unset becomes the
    accumulator and the pending operator is not applied, so an operator
    before the first number is lost: "-5" gives "5" and "-5+3" gives "8". *)
Theorem leading_operator_is_dropped :
  forall float_pow,
    (forall (o t : str),
        Tokens.is_operator o = true -> Tokens.is_plain t = true ->
        reduce initial [o; t]
        = Ok {| current_value := Some (Decimal.float_of_literal t);
                last_operator := Some o |})
    /\ returns float_pow (u"-5") (u"5")
    /\ returns float_pow (u"-5+3") (u"8").
Proof.
  intros float_pow. split; [ | split; evaluates].
  intros o t Ho Ht. simpl reduce.
  rewrite (step_operator _ _ Ho). simpl bind.
  rewrite (step_first_number _ _ Ht). reflexivity.
Qed.

Lemma leading_operator_is_dropped_witness :
  for_every_pow (fun float_pow =>
    reduce initial [u"-"; u"5"]
    = Ok {| current_value := Some (Float.of_N 5);
            last_operator := Some (u"-") |}).
Proof.
  intros float_pow.
  destruct (leading_operator_is_dropped float_pow) as (H & _).
  refine (eq_trans (H (u"-") (u"5") _ _) _); vm_compute; reflexivity.
Defined.

(* ================================================================== *)
(** * What a match consumes *)

Lemma count_app (c : char) (a b : str) : count c (a ++ b) = (count c a + count c b)%nat.
Proof.
  induction a as [ | x a IH]; simpl; [reflexivity | ].
  destruct (chr_eqb x c); simpl; now rewrite IH.
Qed.

Section Consumed.
Variable A : Type.
Variable c : char.

Lemma many_consumes (p : char -> bool) (s : str) (k : str -> option A) (a : A) :
  many p s k = Some a -> exists mt rest, s = mt ++ rest /\ k rest = Some a.
Proof.
  revert a. induction s as [ | x s IH]; intros a; simpl.
  - intros H. now exists [], [].
  - destruct (p x).
    + destruct (many p s k) as [a' | ] eqn:E.
      * intros H. injection H as <-.
        destruct (IH a' eq_refl) as (mt & rest & -> & Hk).
        now exists (x :: mt), rest.
      * intros H. now exists [], (x :: s).
    + intros H. now exists [], (x :: s).
Qed.

(** A successful match splits the text into the matched part, which holds
    at least [min_count c r] occurrences of [c], and the rest, on which the
    continuation succeeded. *)
Lemma rx_match_consumes (r : regex) :
  forall (s : str) (caps : list str) (k : str -> list str -> option A) (a : A),
    rx_match r s caps k = Some a ->
    exists mt rest caps',
      s = mt ++ rest /\ (min_count c r <= count c mt)%nat /\ k rest caps' = Some a.
Proof.
  induction r as [ | x | p | r1 IH1 r2 IH2 | r1 IH1 r2 IH2 | p | r1 IH1];
    intros s caps k a; simpl.
  - intros H. exists [], s, caps. repeat split; [simpl; lia | exact H].
  - destruct s as [ | y s]; [discriminate | ].
    destruct (chr_eqb y x) eqn:E; [ | discriminate].
    intros H. exists [y], s, caps. repeat split; [ | exact H].
    apply N.eqb_eq in E. subst y. simpl.
    destruct (chr_eqb x c); simpl; lia.
  - destruct s as [ | y s]; [discriminate | ].
    destruct (p y); [ | discriminate].
    intros H. exists [y], s, caps. repeat split; [lia | exact H].
  - intros H.
    destruct (IH1 _ _ _ _ H) as (mt1 & rest1 & caps1 & -> & Hc1 & H1).
    destruct (IH2 _ _ _ _ H1) as (mt2 & rest2 & caps2 & -> & Hc2 & H2).
    exists (mt1 ++ mt2), rest2, caps2.
    repeat split; [now rewrite app_assoc | rewrite count_app; lia | exact H2].
  - destruct (rx_match r1 s caps k) as [a' | ] eqn:E.
    + intros H. injection H as <-.
      destruct (IH1 _ _ _ _ E) as (mt & rest & caps' & -> & Hc & Hk).
      exists mt, rest, caps'. repeat split; [lia | exact Hk].
    + intros H.
      destruct (IH2 _ _ _ _ H) as (mt & rest & caps' & -> & Hc & Hk).
      exists mt, rest, caps'. repeat split; [lia | exact Hk].
  - intros H. destruct (many_consumes _ _ _ _ H) as (mt & rest & -> & Hk).
    exists mt, rest, caps. repeat split; [lia | exact Hk].
  - intros H.
    destruct (IH1 _ _ _ _ H) as (mt & rest & caps' & -> & Hc & Hk).
    eexists mt, rest, _. repeat split; [exact Hc | exact Hk].
Qed.
End Consumed.

Lemma rx_at_consumes (c : char) (r : regex) (s rest : str) (caps : list str) :
  rx_at r s = Some (rest, caps) ->
  exists mt, s = mt ++ rest /\ (min_count c r <= count c mt)%nat.
Proof.
  unfold rx_at. intros H.
  destruct (rx_match_consumes _ c r _ _ _ _ H) as (mt & rest' & caps' & -> & Hc & Hk).
  injection Hk as <- _. now exists mt.
Qed.

(* ================================================================== *)
(** * A substitution pass removes markers or changes nothing *)

Lemma count_plain (c : char) (t : str) :
  plain c = false -> forallb plain t = true -> count c t = 0%nat.
Proof.
  intros Hc. induction t as [ | x t IH]; simpl; [reflexivity | ].
  intros H. apply andb_prop in H. destruct H as [Hx Ht].
  destruct (chr_eqb x c) eqn:E; [ | now apply IH].
  apply N.eqb_eq in E. subst x. congruence.
Qed.

Section Pass.
Variable c : char.
Variable r : regex.
Variable repl : list str -> Res str.
Hypothesis repl_clean : forall caps t, repl caps = Ok t -> count c t = 0%nat.
Hypothesis match_marked : (1 <= min_count c r)%nat.

Lemma sub_go_count (s : str) :
  forall (skip : nat) (out : str),
    sub_go r repl skip s = Ok out ->
    (count c out <= count c (skipn skip s))%nat
    /\ (skip = 0%nat -> out = s \/ (count c out < count c s)%nat).
Proof.
  induction s as [ | x s IH]; intros skip out; simpl sub_go.
  - intros H. injection H as <-. destruct skip; simpl; split; auto.
  - destruct skip as [ | n].
    + destruct (rx_at r (x :: s)) as [[rest caps] | ] eqn:E.
      * destruct (repl caps) as [t | | ] eqn:Et; simpl; try discriminate.
        destruct (sub_go r repl (List.length s - List.length rest) s) as [w | | ] eqn:Ew;
          simpl; try discriminate.
        intros H. injection H as <-.
        destruct (rx_at_consumes c _ _ _ _ E) as (mt & Hs & Hc).
        destruct mt as [ | y mt]; [simpl in Hc; lia | ].
        simpl in Hs. injection Hs as <- ->.
        destruct (IH _ _ Ew) as [Hle _].
        rewrite List.length_app in Hle.
        replace (List.length mt + List.length rest - List.length rest)%nat with (List.length mt) in Hle by lia.
        rewrite skipn_app, skipn_all, Nat.sub_diag in Hle. simpl in Hle.
        pose proof (count_app c (x :: mt) rest) as Hsplit.
        pose proof (repl_clean _ _ Et) as Ht.
        rewrite count_app, Ht.
        split; [ | intros _; right]; simpl in *; lia.
      * destruct (sub_go r repl 0 s) as [w | | ] eqn:Ew; simpl; try discriminate.
        intros H. injection H as <-.
        destruct (IH _ _ Ew) as [Hle Hz]. simpl in Hle.
        split.
        -- simpl. destruct (chr_eqb x c); lia.
        -- intros _. destruct (Hz eq_refl) as [-> | Hlt]; [now left | right].
           simpl. destruct (chr_eqb x c); lia.
    + intros H. destruct (IH _ _ H) as [Hle _].
      split; [exact Hle | discriminate].
Qed.

Lemma re_sub_count (s out : str) :
  re_sub r repl s = Ok out -> out = s \/ (count c out < count c s)%nat.
Proof. intros H. now apply (sub_go_count s 0 out H). Qed.
End Pass.

(* ================================================================== *)
(** * The texts substituted for a match *)

Section Plain.
Import Decimal.
Local Open Scope Z_scope.

Lemma digit_chr_digit (n : Z) : is_digit (digit_chr (n mod 10)) = true.
Proof.
  unfold is_digit, digit_chr.
  pose proof (Z.mod_pos_bound n 10 ltac:(lia)) as H.
  apply andb_true_intro. split; apply N.leb_le; lia.
Qed.

Lemma digits_go_digits (fuel : nat) :
  forall (n : Z) (acc : str),
    forallb is_digit acc = true -> forallb is_digit (digits_go fuel n acc) = true.
Proof.
  induction fuel as [ | fuel IH]; intros n acc Hacc; simpl.
  - now rewrite digit_chr_digit.
  - destruct (n <? 10).
    + simpl. now rewrite digit_chr_digit.
    + apply IH. simpl. now rewrite digit_chr_digit.
Qed.

Lemma digits_of_digits (n : Z) : forallb is_digit (digits_of n) = true.
Proof. now apply digits_go_digits. Qed.

Lemma digits_fixed_digits (w : nat) :
  forall n : Z, forallb is_digit (digits_fixed w n) = true.
Proof.
  induction w as [ | w IH]; intros n; simpl; [reflexivity | ].
  rewrite forallb_app, IH. simpl. now rewrite digit_chr_digit.
Qed.

Lemma digits_plain (s : str) : forallb is_digit s = true -> forallb plain s = true.
Proof.
  induction s as [ | x s IH]; simpl; [reflexivity | ].
  intros H. apply andb_prop in H. destruct H as [Hx Hs].
  unfold plain at 1. now rewrite Hx, IH.
Qed.

Lemma forallb_firstn (p : char -> bool) (n : nat) (s : str) :
  forallb p s = true -> forallb p (firstn n s) = true.
Proof.
  revert n. induction s as [ | x s IH]; intros [ | n]; simpl; auto.
  intros H. apply andb_prop in H. destruct H as [-> Hs]. now apply IH.
Qed.

Lemma forallb_skipn (p : char -> bool) (n : nat) (s : str) :
  forallb p s = true -> forallb p (skipn n s) = true.
Proof.
  revert n. induction s as [ | x s IH]; intros [ | n]; simpl; auto.
  intros H. apply andb_prop in H. destruct H as [_ Hs]. now apply IH.
Qed.

Lemma zeros_plain (n : Z) : forallb plain (zeros n) = true.
Proof.
  unfold zeros. induction (Z.to_nat n) as [ | k IH]; simpl; [reflexivity | exact IH].
Qed.

Lemma exp_suffix_plain (e : Z) : forallb plain (exp_suffix e) = true.
Proof.
  unfold exp_suffix.
  pose proof (digits_plain _ (digits_of_digits (Z.abs e))) as Hd.
  rewrite !forallb_app.
  destruct (e <? 0); destruct (List.length (digits_of (Z.abs e)) <? 2)%nat;
    simpl; now rewrite Hd.
Qed.

Lemma repr_finite_plain (m : positive) (e : Z) :
  forallb plain (repr_finite m e) = true.
Proof.
  unfold repr_finite, shortest.
  destruct (shortest_go 16 m e 1) as [d x].
  destruct (strip_zeros 17 d x) as [d' x'].
  pose proof (digits_plain _ (digits_of_digits d')) as Hd.
  set (decpt := Z.of_nat (List.length (digits_of d')) + x').
  destruct ((decpt <=? -4) || (16 <? decpt)).
  - destruct (digits_of d') as [ | c [ | c' tl]]; [reflexivity | | ].
    + simpl in Hd |- *. apply andb_prop in Hd. destruct Hd as [-> _].
      exact (exp_suffix_plain _).
    + simpl in Hd. apply andb_prop in Hd. destruct Hd as [Hc Hd].
      apply andb_prop in Hd. destruct Hd as [Hc' Htl].
      simpl. rewrite Hc, Hc', forallb_app, Htl. exact (exp_suffix_plain _).
  - destruct (decpt <=? 0).
    { rewrite !forallb_app, zeros_plain, Hd. reflexivity. }
    destruct (Z.of_nat (List.length (digits_of d')) <=? decpt).
    { rewrite !forallb_app, zeros_plain, Hd. reflexivity. }
    rewrite !forallb_app, forallb_firstn, forallb_skipn by exact Hd.
    reflexivity.
Qed.

Lemma float_str_plain (x : Float.float) : forallb plain (float_str x) = true.
Proof.
  destruct x as [s | s | | s m e]; simpl.
  - destruct s; reflexivity.
  - destruct s; reflexivity.
  - reflexivity.
  - rewrite forallb_app, repr_finite_plain. destruct s; reflexivity.
Qed.

Lemma value_str_plain (v : value) : forallb plain (value_str v) = true.
Proof. destruct v as [x | ]; [apply float_str_plain | reflexivity]. Qed.
End Plain.

(* ================================================================== *)
(** * The rewrite loops *)

Section Loops.
Variable float_pow : Float.float -> Float.float -> Res Float.float.

Lemma power_pass_progress (expr out : str) :
  power_pass float_pow expr = Ok out ->
  out = expr \/ (count Ch.star out < count Ch.star expr)%nat.
Proof.
  apply re_sub_count.
  - intros caps t.
    destruct (float_pow _ _) as [r | | ]; simpl; try discriminate.
    intros H. injection H as <-.
    apply count_plain; [reflexivity | apply float_str_plain].
  - vm_compute. lia.
Qed.

Lemma sqrt_pass_progress (fuel : nat) (expr out : str) :
  sqrt_pass float_pow fuel expr = Ok out ->
  out = expr \/ (count Ch.sqrt out < count Ch.sqrt expr)%nat.
Proof.
  unfold sqrt_pass.
  destruct (re_sub Pat.sqrt_group _ expr) as [mid | | ] eqn:E1; simpl; try discriminate.
  intros E2.
  assert (H1 : mid = expr \/ (count Ch.sqrt mid < count Ch.sqrt expr)%nat).
  { revert E1. apply re_sub_count; [ | vm_compute; lia].
    intros caps t.
    destruct (evaluate_simple_expression _ _ _) as [v | | ]; simpl; try discriminate.
    destruct (value_float v) as [x | | ]; simpl; try discriminate.
    destruct (Float.math_sqrt x) as [r | | ]; simpl; try discriminate.
    intros H. injection H as <-.
    apply count_plain; [reflexivity | apply float_str_plain]. }
  assert (H2 : out = mid \/ (count Ch.sqrt out < count Ch.sqrt mid)%nat).
  { revert E2. apply re_sub_count; [ | vm_compute; lia].
    intros caps t.
    destruct (Float.math_sqrt _) as [r | | ]; simpl; try discriminate.
    intros H. injection H as <-.
    apply count_plain; [reflexivity | apply float_str_plain]. }
  destruct H1 as [-> | H1]; destruct H2 as [-> | H2]; auto; right; lia.
Qed.

Lemma paren_pass_progress (fuel : nat) (expr out : str) :
  paren_pass float_pow fuel expr = Ok out ->
  out = expr \/ (count Ch.lparen out < count Ch.lparen expr)%nat.
Proof.
  apply re_sub_count; [ | vm_compute; lia].
  intros caps t.
  destruct (evaluate_simple_expression _ _ _) as [v | | ]; simpl; try discriminate.
  intros H. injection H as <-.
  apply count_plain; [reflexivity | apply value_str_plain].
Qed.

Lemma loop_body_progress (fuel : nat) (l : loop) (expr out : str) :
  loop_body float_pow fuel l expr = Ok out ->
  out = expr \/ (count (marker l) out < count (marker l) expr)%nat.
Proof.
  destruct l; simpl.
  - apply power_pass_progress.
  - apply sqrt_pass_progress.
  - apply paren_pass_progress.
Qed.
End Loops.

Lemma while_done (n : nat) (cond : str -> bool) (body : str -> Res str) (s : str) :
  cond s = false -> while n cond body s = Ok s.
Proof. intros H. destruct n; simpl; now rewrite H. Qed.

(** A turn that changes nothing while the condition holds is repeated for
    ever. *)
Lemma while_stall (cond : str -> bool) (body : str -> Res str) (s : str) :
  cond s = true -> body s = Ok s -> forall n, while n cond body s = Timeout.
Proof.
  intros Hc Hb n. induction n as [ | n IH]; simpl; rewrite Hc; [reflexivity | ].
  now rewrite Hb.
Qed.

(** A loop whose turns lower a measure or change nothing: when it has not
    ended after more turns than the measure allows, it has met a text on
    which a turn changes nothing, or a turn was itself cut off. *)
Lemma while_cut_off (cond : str -> bool) (body : str -> Res str) (mu : str -> nat) :
  (forall b b', body b = Ok b' -> b' = b \/ (mu b' < mu b)%nat) ->
  forall (n : nat) (s : str),
    (mu s < n)%nat -> while n cond body s = Timeout ->
    exists b, cond b = true /\ (body b = Ok b \/ body b = Timeout).
Proof.
  intros Hbody n. induction n as [ | n IH]; intros s Hmu; [lia | simpl].
  destruct (cond s) eqn:Hc; [ | discriminate].
  destruct (body s) as [s' | e | ] eqn:Hb; [ | discriminate | ].
  - destruct (Hbody _ _ Hb) as [-> | Hlt].
    + intros _. exists s. auto.
    + apply IH. lia.
  - intros _. exists s. auto.
Qed.

Lemma evaluate_accepted (float_pow : Float.float -> Float.float -> Res Float.float)
      (fuel : nat) (expr : str) :
  accepted expr = true ->
  evaluate float_pow fuel expr
  = match evaluate_body float_pow fuel expr with
    | Ok formatted => Some formatted
    | Raise e => Some (handler e)
    | Timeout => None
    end.
Proof.
  unfold accepted, evaluate, evaluate_expression. intros H.
  apply andb_prop in H. destruct H as [H H3].
  apply andb_prop in H. destruct H as [H1 H2].
  apply negb_true_iff in H1. apply negb_true_iff in H3.
  rewrite H1, H2, H3. simpl.
  destruct (evaluate_body float_pow fuel expr); reflexivity.
Qed.

(** C3, the claim as stated fails: the input "√" has one character and no
    parenthesis, and its evaluation never returns. *)
Lemma bare_root_sign_never_ends :
  (len (u"√") <= 100)%nat
  /\ count Ch.lparen (u"√") = count Ch.rparen (u"√")
  /\ never_ends (u"√").
Proof.
  split; [vm_compute; lia | split; [reflexivity | ]].
  intros float_pow fuel.
  rewrite evaluate_accepted by (vm_compute; reflexivity).
  unfold evaluate_body.
  rewrite (while_stall (contains (u"√")) (sqrt_pass float_pow fuel) (u"√"));
    [reflexivity | vm_compute; reflexivity | vm_compute; reflexivity].
Qed.

(* ================================================================== *)
(** * The exponent pattern on two literals *)

Section Greedy.
Variable A : Type.

(** A run of [p] followed by a text that does not go on with [p]: the
    repetition takes the whole run first. *)
Lemma many_greedy (p : char -> bool) (ds rest : str) (k : str -> option A) (a : A) :
  forallb p ds = true ->
  match rest with [] => True | c :: _ => p c = false end ->
  k rest = Some a ->
  many p (ds ++ rest) k = Some a.
Proof.
  intros Hds Hrest Hk. induction ds as [ | d ds IH]; simpl.
  - destruct rest as [ | c rest]; [exact Hk | ]. simpl. now rewrite Hrest.
  - simpl in Hds. apply andb_prop in Hds. destruct Hds as [-> Hds].
    now rewrite (IH Hds).
Qed.
End Greedy.

Lemma skip_digits_split (s : str) :
  exists ds, s = ds ++ skip_digits s /\ forallb Decimal.is_digit ds = true
             /\ match skip_digits s with
                | [] => True
                | c :: _ => Decimal.is_digit c = false
                end.
Proof.
  induction s as [ | c s (ds & Hs & Hds & Hrest)]; simpl.
  - now exists [].
  - destruct (Decimal.is_digit c) eqn:E.
    + exists (c :: ds). simpl. rewrite E, Hds. repeat split; [ | exact Hrest].
      now rewrite Hs at 1.
    + exists []. simpl. now rewrite E.
Qed.

(** The shape of a literal. *)
Lemma is_literal_shape (t : str) :
  is_literal t = true ->
  exists d ds fr,
    Decimal.is_digit d = true /\ forallb Decimal.is_digit ds = true
    /\ forallb Decimal.is_digit fr = true
    /\ (t = d :: ds \/ t = d :: ds ++ Ch.dot :: fr).
Proof.
  destruct t as [ | d t]; simpl; [discriminate | ].
  intros H. apply andb_prop in H. destruct H as [Hd H].
  destruct (skip_digits_split t) as (ds & Ht & Hds & _).
  destruct (skip_digits t) as [ | c fr].
  - exists d, ds, []. rewrite app_nil_r in Ht. subst t. auto.
  - apply andb_prop in H. destruct H as [Hc Hfr].
    apply N.eqb_eq in Hc. subst c.
    exists d, ds, fr. rewrite Ht. auto.
Qed.

(** The pattern [number] on a literal followed by a text that cannot go
    on a number takes the literal. *)
Lemma number_at (A : Type) (t rest : str) (caps : list str)
      (k : str -> list str -> option A) (a : A) :
  is_literal t = true -> ends_number rest ->
  k rest caps = Some a ->
  rx_match Pat.number (t ++ rest) caps k = Some a.
Proof.
  intros Ht Hrest Hk.
  destruct (is_literal_shape t Ht) as (d & ds & fr & Hd & Hds & Hfr & Hshape).
  assert (Hdot : Decimal.is_digit Ch.dot = false) by reflexivity.
  cbn [rx_match Pat.number Many1 Opt].
  destruct Hshape as [-> | ->].
  - (* no point *)
    cbn [app]. unfold Pat.digit. rewrite Hd.
    apply many_greedy; [exact Hds | | ].
    { destruct rest as [ | c rest]; [exact I | apply Hrest]. }
    destruct rest as [ | c rest].
    + cbn [many]. exact Hk.
    + destruct Hrest as [Hc1 Hc2].
      rewrite Hc2. cbn [many]. rewrite Hc1. exact Hk.
  - (* a point and a fraction *)
    cbn [app]. unfold Pat.digit. rewrite Hd.
    rewrite <- app_assoc. cbn [app].
    apply many_greedy; [exact Hds | exact Hdot | ].
    unfold chr_eqb at 1. rewrite N.eqb_refl.
    assert (Hm : many Decimal.is_digit (fr ++ rest) (fun s' => k s' caps) = Some a).
    { apply many_greedy; [exact Hfr | | exact Hk].
      destruct rest as [ | c rest]; [exact I | apply Hrest]. }
    now rewrite Hm.
Qed.



Lemma literal_not_empty (t : str) : is_literal t = true -> exists d t', t = d :: t' /\ Decimal.is_digit d = true.
Proof.
  destruct t as [ | d t']; simpl; [discriminate | ].
  intros H. apply andb_prop in H. destruct H as [Hd _]. now exists d, t'.
Qed.








(* ================================================================== *)
(** * The display form *)

Section Display.
Import Float Decimal.

Lemma small_is_scientific (x : float) :
  ltb zero (abs x) = true -> ltb (abs x) ten_thousandth = true ->
  exists s m e, x = S754_finite s m e /\ scientific x = true.
Proof.
  intros H1 H2.
  assert (H2' : ltb (abs x) (S754_finite false 7378697629483821 (-66)) = true).
  { replace (S754_finite false 7378697629483821 (-66)) with ten_thousandth
      by (vm_compute; reflexivity).
    exact H2. }
  destruct x as [s | s | | s m e];
    [discriminate H1 | discriminate H2' | discriminate H1 | ].
  exists s, m, e. split; [reflexivity | ].
  unfold scientific. rewrite H1, H2.
  replace (eqb (S754_finite s m e) zero) with false
    by (destruct s; reflexivity).
  apply orb_true_r.
Qed.

Lemma digits_fixed_length (w : nat) : forall n, List.length (digits_fixed w n) = w.
Proof.
  induction w as [ | w IH]; intros n; simpl; [reflexivity | ].
  rewrite length_app, IH. simpl. lia.
Qed.

(** The shape of the scientific form of a finite float: a sign, one
    digit, the point, eight digits, the exponent. *)
Lemma format_e8_shape (s : bool) (m : positive) (e : Z) :
  exists d frac ex,
    format_e8 (S754_finite s m e)
    = sign_str s ++ d :: Ch.dot :: frac ++ exp_suffix ex
    /\ is_digit d = true /\ List.length frac = 8%nat
    /\ forallb is_digit frac = true.
Proof.
  unfold format_e8.
  destruct (scaled (num m e) (den e) (dec_exp (num m e) (den e) - 8)) as [p q].
  destruct (if (div_half_even p q =? 10 ^ 9)%Z
            then ((10 ^ 8)%Z, (dec_exp (num m e) (den e) + 1)%Z)
            else (div_half_even p q, dec_exp (num m e) (den e))) as [d' ex'].
  exists (digit_chr ((d' / 10 ^ 8) mod 10)), (digits_fixed 8 d'), ex'.
  split; [reflexivity | split; [ | split]].
  - apply digit_chr_digit.
  - apply digits_fixed_length.
  - apply digits_fixed_digits.
Qed.
End Display.

(** C7. The scientific form starts at 100000000: a value of exactly
    100000000 is shown as "1.00000000e+08" and 99999999 is the largest
    whole number shown in plain digits; a value x with 0 < |x| < 0.0001
    is shown in scientific form, with eight digits after the point; the
    value 2.5 is shown as "2.5". *)
Theorem display_form_thresholds :
  forall float_pow,
    format_float hundred_million = u"1.00000000e+08"
    /\ returns float_pow (u"100000000") (u"1.00000000e+08")
    /\ returns float_pow (u"99999999") (u"99999999")
    /\ (forall x : Float.float,
           Float.ltb Float.zero (Float.abs x) = true ->
           Float.ltb (Float.abs x) ten_thousandth = true ->
           exists sg d frac ex,
             format_float x = sg ++ d :: Ch.dot :: frac ++ Decimal.exp_suffix ex
             /\ (sg = [] \/ sg = [Ch.minus])
             /\ Decimal.is_digit d = true /\ List.length frac = 8%nat
             /\ forallb Decimal.is_digit frac = true)
    /\ format_float (Decimal.float_of_literal (u"2.5")) = u"2.5"
    /\ returns float_pow (u"2.5") (u"2.5").
Proof.
  intros float_pow.
  split; [vm_compute; reflexivity | ].
  split; [evaluates | ]. split; [evaluates | ].
  split; [ | split; [vm_compute; reflexivity | evaluates]].
  intros x H1 H2.
  destruct (small_is_scientific x H1 H2) as (s & m & e & -> & Hsci).
  unfold format_float. rewrite Hsci.
  destruct (format_e8_shape s m e) as (d & frac & ex & -> & Hd & Hlen & Hfrac).
  exists (Decimal.sign_str s), d, frac, ex.
  split; [reflexivity | split; [ | now repeat split]].
  destruct s; [now right | now left].
Qed.

Lemma display_form_thresholds_witness :
  for_every_pow (fun float_pow =>
    exists sg d frac ex,
      format_float (Decimal.float_of_literal (u"0.00001"))
      = sg ++ d :: Ch.dot :: frac ++ Decimal.exp_suffix ex
      /\ (sg = [] \/ sg = [Ch.minus])
      /\ Decimal.is_digit d = true /\ List.length frac = 8%nat
      /\ forallb Decimal.is_digit frac = true).
Proof.
  intros float_pow.
  destruct (display_form_thresholds float_pow) as (_ & _ & _ & H & _).
  apply H; vm_compute; reflexivity.
Defined.

(** C7, the claim as stated fails: the value 100000000 is not shown as
    "100000000". *)
Lemma hundred_million_is_not_plain :
  Float.same hundred_million (Float.of_N 100000000) = true
  /\ format_float hundred_million <> u"100000000".
Proof.
  split; [vm_compute; reflexivity | ].
  vm_compute. discriminate.
Qed.

(* ================================================================== *)
(** * Division by zero *)

Section DivisionByZero.
Import Float Decimal Tokens.

Lemma op_is_eq (o : option str) (t : str) : op_is o t = true -> o = Some t.
Proof.
  destruct o as [x | ]; simpl; [ | discriminate].
  intros H. apply str_eqb_eq in H. now subst.
Qed.

Lemma step_divides_by_zero (st : state) (t : str) :
  divides_by_zero st t = true -> step st t = Raise ZeroDivisionError.
Proof.
  unfold divides_by_zero, divisor. intros H.
  apply andb_prop in H. destruct H as [H Hz].
  apply andb_prop in H. destruct H as [H Hn].
  apply andb_prop in H. destruct H as [Hcv Hop].
  destruct st as [[x | ] op]; simpl in Hcv, Hop; [ | discriminate].
  unfold is_number in Hn. apply negb_true_iff in Hn. unfold operators in Hn.
  cbv beta iota zeta delta [step current_value last_operator].
  rewrite Hn.
  destruct (contains (u"%") t) eqn:Hp.
  - unfold fraction in Hz.
    apply orb_prop in Hop.
    destruct Hop as [Hop | Hop]; apply op_is_eq in Hop; subst op;
      cbn [op_is]; change (str_eqb _ _) with false at 1 2 3 4;
      cbv beta iota; unfold arith, truediv; now rewrite Hz.
  - apply orb_prop in Hop.
    destruct Hop as [Hop | Hop]; apply op_is_eq in Hop; subst op;
      cbn [op_is]; change (str_eqb _ _) with false at 1 2 3 4;
      cbv beta iota; unfold arith, truediv; now rewrite Hz.
Qed.

Lemma reduce_app (pre post : list str) :
  forall st,
    reduce st (pre ++ post) = (st' <- reduce st pre ;; reduce st' post).
Proof.
  induction pre as [ | t pre IH]; intros st; simpl; [reflexivity | ].
  destruct (step st t) as [st' | e | ]; simpl; [apply IH | reflexivity | reflexivity].
Qed.
End DivisionByZero.

(** C9. A division by zero met by the token loop raises
    [ZeroDivisionError], whether the divisor is a plain number or a
    percent token, and the error ends the loop; a [ZeroDivisionError]
    raised anywhere in the evaluation gives the outcome
    "Cannot divide by 0"; so an accepted expression without roots and
    parentheses whose tokens reach a division by zero has that outcome,
    as have "5÷0", "5÷0%", "2+(5÷0)" and "√(5÷0)". *)
Theorem division_by_zero_is_reported :
  forall float_pow,
    (forall (st : state) (t : str) (rest : list str),
        divides_by_zero st t = true ->
        reduce st (t :: rest) = Raise ZeroDivisionError)
    /\ (forall (fuel : nat) (expr : str),
           accepted expr = true ->
           evaluate_body float_pow fuel expr = Raise ZeroDivisionError ->
           evaluate float_pow fuel expr = Some (u"Cannot divide by 0"))
    /\ (forall (fuel : nat) (expr buffer : str) (pre : list str) (t : str)
               (post : list str) (st : state),
           accepted expr = true ->
           contains (u"√") expr = false ->
           contains (u"(") expr = false ->
           rewrite_simple float_pow fuel expr = Ok buffer ->
           re_findall Pat.token buffer = pre ++ t :: post ->
           reduce initial pre = Ok st ->
           divides_by_zero st t = true ->
           evaluate float_pow fuel expr = Some (u"Cannot divide by 0"))
    /\ returns float_pow (u"5÷0") (u"Cannot divide by 0")
    /\ returns float_pow (u"5÷0%") (u"Cannot divide by 0")
    /\ returns float_pow (u"2+(5÷0)") (u"Cannot divide by 0")
    /\ returns float_pow (u"√(5÷0)") (u"Cannot divide by 0").
Proof.
  intros float_pow.
  assert (Hstep : forall st t rest,
             divides_by_zero st t = true ->
             reduce st (t :: rest) = Raise ZeroDivisionError).
  { intros st t rest H. simpl. now rewrite (step_divides_by_zero st t H). }
  assert (Hbody : forall fuel expr,
             accepted expr = true ->
             evaluate_body float_pow fuel expr = Raise ZeroDivisionError ->
             evaluate float_pow fuel expr = Some (u"Cannot divide by 0")).
  { intros fuel expr Ha Hb. rewrite (evaluate_accepted _ _ _ Ha), Hb. reflexivity. }
  split; [exact Hstep | split; [exact Hbody | split]].
  - intros fuel expr buffer pre t post st Ha Hroot Hparen Hbuf Htok Hpre Hdiv.
    apply (Hbody fuel expr Ha).
    unfold evaluate_body.
    rewrite (while_done _ _ _ _ Hroot). cbn [bind].
    rewrite (while_done _ _ _ _ Hparen). cbn [bind].
    unfold evaluate_simple_expression. rewrite Hbuf. cbn [bind].
    rewrite Htok, reduce_app, Hpre. cbn [bind].
    now rewrite (Hstep st t post Hdiv).
  - repeat split; evaluates.
Qed.

Lemma division_by_zero_is_reported_witness :
  for_every_pow (fun float_pow =>
    evaluate float_pow 1 (u"5÷0") = Some (u"Cannot divide by 0")).
Proof.
  intros float_pow.
  destruct (division_by_zero_is_reported float_pow) as (_ & _ & H & _).
  apply (H 1%nat (u"5÷0") (u"5/0") [u"5"; u"/"] (u"0") []
           {| current_value := Some (Float.of_N 5);
              last_operator := Some (u"/") |});
    vm_compute; reflexivity.
Defined.

(* ================================================================== *)
(** * A bare literal *)

Lemma count_le_suffix (c x : char) (s : str) : (count c s <= count c (x :: s))%nat.
Proof. simpl. destruct (chr_eqb x c); lia. Qed.

Lemma In_count (c : char) (s : str) : In c s -> (1 <= count c s)%nat.
Proof.
  induction s as [ | x s IH]; simpl; [tauto | ].
  intros [-> | H].
  - unfold chr_eqb. rewrite N.eqb_refl. lia.
  - specialize (IH H). destruct (chr_eqb x c); lia.
Qed.

Lemma contains_absent (c : char) (p s : str) :
  count c s = 0%nat -> In c p -> contains p s = false.
Proof.
  intros Hc Hin. destruct (contains p s) eqn:E; [ | reflexivity].
  pose proof (In_count c s (contains_In p s c E Hin)). lia.
Qed.

Lemma replace_absent (c : char) (t s : str) :
  count c s = 0%nat -> replace c t s = s.
Proof.
  induction s as [ | x s IH]; simpl; [reflexivity | ].
  destruct (chr_eqb x c); [discriminate | ].
  intros H. now rewrite IH.
Qed.

Section Absent.
Variable c : char.
Variable r : regex.
Hypothesis match_marked : (1 <= min_count c r)%nat.

Lemma rx_at_absent (s : str) : count c s = 0%nat -> rx_at r s = None.
Proof.
  intros Hc. destruct (rx_at r s) as [[rest caps] | ] eqn:E; [ | reflexivity].
  destruct (rx_at_consumes c r s rest caps E) as (mt & -> & Hm).
  rewrite count_app in Hc. lia.
Qed.

Lemma sub_go_absent (repl : list str -> Res str) (s : str) :
  count c s = 0%nat -> sub_go r repl 0 s = Ok s.
Proof.
  induction s as [ | x s IH]; intros Hc; [reflexivity | ].
  cbn [sub_go]. rewrite (rx_at_absent _ Hc).
  pose proof (count_le_suffix c x s). rewrite IH by lia. reflexivity.
Qed.
End Absent.

(** A match of a search holds the characters every match must hold. *)
Lemma re_search_count (c : char) (r : regex) (s : str) :
  re_search r s = true -> (min_count c r <= count c s)%nat.
Proof.
  induction s as [ | x s IH]; cbn [re_search].
  - destruct (rx_at r []) as [[rest caps] | ] eqn:E; [ | discriminate].
    intros _. destruct (rx_at_consumes c r _ _ _ E) as (mt & Hs & Hm).
    rewrite Hs, count_app. lia.
  - destruct (rx_at r (x :: s)) as [[rest caps] | ] eqn:E.
    + intros _. destruct (rx_at_consumes c r _ _ _ E) as (mt & Hs & Hm).
      rewrite Hs, count_app. lia.
    + intros H. specialize (IH H). pose proof (count_le_suffix c x s). lia.
Qed.

Lemma findall_go_skip_all (r : regex) (s : str) :
  forall skip, (List.length s <= skip)%nat -> findall_go r skip s = [].
Proof.
  induction s as [ | x s IH]; intros skip H; simpl; [reflexivity | ].
  destruct skip as [ | n]; [simpl in H; lia | ].
  apply IH. simpl in H. lia.
Qed.

Lemma count_outside (p : char -> bool) (c : char) (s : str) :
  p c = false -> forallb p s = true -> count c s = 0%nat.
Proof.
  intros Hc. induction s as [ | x s IH]; simpl; [reflexivity | ].
  intros H. apply andb_prop in H. destruct H as [Hx Hs].
  destruct (chr_eqb x c) eqn:E; [ | now apply IH].
  apply N.eqb_eq in E. subst x. congruence.
Qed.

Section Literal.
Import Decimal.

Lemma digits_literal_chars (ds : str) :
  forallb is_digit ds = true -> forallb literal_char ds = true.
Proof.
  induction ds as [ | x ds IH]; simpl; [reflexivity | ].
  intros H. apply andb_prop in H. destruct H as [Hx Hs].
  unfold literal_char at 1. now rewrite Hx, IH.
Qed.

Lemma literal_chars (t : str) :
  is_literal t = true ->
  forallb literal_char t = true /\ (count Ch.dot t <= 1)%nat.
Proof.
  intros Ht.
  destruct (is_literal_shape t Ht) as (d & ds & fr & Hd & Hds & Hfr & Hshape).
  assert (Hnd : forall s, forallb is_digit s = true -> count Ch.dot s = 0%nat).
  { intros s. now apply count_outside. }
  assert (Hd' : count Ch.dot [d] = 0%nat) by (apply Hnd; simpl; now rewrite Hd).
  destruct Hshape as [-> | ->].
  - split.
    + apply (digits_literal_chars (d :: ds)). simpl. now rewrite Hd.
    + change (d :: ds) with ([d] ++ ds). rewrite count_app, Hd', (Hnd ds Hds). lia.
  - split.
    + change (d :: ds ++ Ch.dot :: fr) with ((d :: ds) ++ Ch.dot :: fr).
      rewrite forallb_app. rewrite (digits_literal_chars (d :: ds))
        by (simpl; now rewrite Hd).
      simpl. now apply digits_literal_chars.
    + change (d :: ds ++ Ch.dot :: fr) with ([d] ++ ds ++ [Ch.dot] ++ fr).
      rewrite !count_app, Hd', (Hnd ds Hds), (Hnd fr Hfr). simpl. lia.
Qed.

Lemma literal_count (t : str) (c : char) :
  is_literal t = true -> literal_char c = false -> count c t = 0%nat.
Proof.
  intros Ht Hc. apply (count_outside literal_char); [exact Hc | ].
  now apply literal_chars.
Qed.

Lemma literal_is_plain (t : str) : is_literal t = true -> Tokens.is_plain t = true.
Proof.
  intros Ht. unfold Tokens.is_plain, Tokens.is_number.
  destruct (literal_not_empty t Ht) as (d & t' & -> & Hd).
  rewrite (contains_absent d (d :: t') Tokens.operators), (contains_absent Ch.percent (u"%") (d :: t')).
  - reflexivity.
  - now apply literal_count.
  - now left.
  - apply (count_outside (fun x => negb (is_digit x))); [now rewrite Hd | reflexivity].
  - now left.
Qed.

Lemma token_at_literal (t : str) :
  is_literal t = true -> rx_at Pat.token t = Some ([], [t]).
Proof.
  intros Ht. unfold rx_at, Pat.token.
  cbn [rx_match].
  match goal with
  | |- context [rx_match Pat.number t [] ?k] => set (K := k)
  end.
  assert (HK : K [] [] = Some ([], [t])).
  { unfold K. cbn [rx_match Opt app List.length]. now rewrite Nat.sub_0_r, firstn_all. }
  pose proof (number_at _ t [] [] K _ Ht I HK) as H.
  rewrite app_nil_r in H. now rewrite H.
Qed.

Lemma findall_literal (t : str) :
  is_literal t = true -> re_findall Pat.token t = [t].
Proof.
  intros Ht. unfold re_findall.
  pose proof (token_at_literal t Ht) as Hm.
  destruct (literal_not_empty t Ht) as (d & t' & -> & _).
  cbn [findall_go]. rewrite Hm.
  rewrite findall_go_skip_all by (simpl; lia). reflexivity.
Qed.

Lemma replace_symbols_literal (t : str) :
  is_literal t = true -> replace_symbols t = t.
Proof.
  intros Ht. unfold replace_symbols.
  rewrite (replace_absent Ch.times _ t), (replace_absent Ch.divide _ t),
    (replace_absent Ch.pi _ t), (replace_absent Ch.caret _ t);
    [reflexivity | now apply literal_count ..].
Qed.

Variable float_pow : Float.float -> Float.float -> Res Float.float.

Lemma evaluate_simple_literal (fuel : nat) (t : str) :
  is_literal t = true ->
  evaluate_simple_expression float_pow fuel t = Ok (Some (float_of_literal t)).
Proof.
  intros Ht. unfold evaluate_simple_expression, rewrite_simple.
  rewrite (replace_symbols_literal t Ht).
  unfold re_sub. rewrite (sub_go_absent Ch.sqrt) by
    (try (vm_compute; lia); now apply literal_count).
  cbn [bind].
  rewrite while_done
    by (apply (contains_absent Ch.star); [now apply literal_count | now left]).
  cbn [bind]. rewrite (findall_literal t Ht).
  cbn [reduce]. unfold initial.
  rewrite (step_first_number None t (literal_is_plain t Ht)). reflexivity.
Qed.

Lemma literal_accepted (t : str) :
  is_literal t = true -> (len t <= 100)%nat -> accepted t = true.
Proof.
  intros Ht Hlen. unfold accepted.
  rewrite !(literal_count t) by (exact Ht || reflexivity).
  replace (100 <? len t)%nat with false by (symmetry; apply Nat.ltb_ge; exact Hlen).
  destruct (re_search Pat.two_points t) eqn:E; [ | reflexivity].
  pose proof (re_search_count Ch.dot _ _ E) as H.
  pose proof (proj2 (literal_chars t Ht)) as H'.
  change (min_count Ch.dot Pat.two_points) with 2%nat in H. lia.
Qed.

(** A bare literal evaluates to the display form of its float. *)
Lemma evaluate_literal (fuel : nat) (t : str) :
  is_literal t = true -> (len t <= 100)%nat ->
  evaluate float_pow fuel t = Some (format_float (float_of_literal t)).
Proof.
  intros Ht Hlen.
  rewrite (evaluate_accepted _ _ _ (literal_accepted t Ht Hlen)).
  unfold evaluate_body.
  rewrite while_done
    by (apply (contains_absent Ch.sqrt); [now apply literal_count | now left]).
  cbn [bind].
  rewrite while_done
    by (apply (contains_absent Ch.lparen); [now apply literal_count | now left]).
  cbn [bind].
  rewrite (evaluate_simple_literal fuel t Ht). reflexivity.
Qed.
End Literal.

(* ================================================================== *)
(** * Whole numbers written in digits *)

Section Digits.
Import Decimal.
Local Open Scope Z_scope.

Lemma digit_val_chr (n : Z) : digit_val (digit_chr (n mod 10)) = n mod 10.
Proof.
  unfold digit_val, digit_chr.
  pose proof (Z.mod_pos_bound n 10 ltac:(lia)). lia.
Qed.

Lemma read_decimal_digits (ds : str) :
  forallb is_digit ds = true ->
  forall m k, read_decimal ds false m k = (decimal_value ds m, k).
Proof.
  induction ds as [ | c ds IH]; simpl; [reflexivity | ].
  intros H m k. apply andb_prop in H. destruct H as [-> Hds]. now apply IH.
Qed.

Lemma digits_go_value (fuel : nat) :
  forall (n : Z) (acc : str),
    0 <= n < 2 ^ (Z.of_nat fuel + 1) ->
    exists L, 0 <= L /\ forall m,
        decimal_value (digits_go fuel n acc) m
        = decimal_value acc (m * 10 ^ L + n).
Proof.
  induction fuel as [ | fuel IH]; intros n acc Hn.
  - exists 1. split; [lia | ]. intros m. simpl digits_go.
    unfold decimal_value. cbn [fold_left]. rewrite digit_val_chr.
    change (2 ^ (Z.of_nat 0 + 1)) with 2 in Hn.
    rewrite Z.mod_small by lia. f_equal. change (10 ^ 1) with 10. lia.
  - simpl digits_go. destruct (n <? 10) eqn:E.
    + apply Z.ltb_lt in E. exists 1. split; [lia | ]. intros m.
      unfold decimal_value. cbn [fold_left]. rewrite digit_val_chr.
      rewrite Z.mod_small by lia. f_equal. change (10 ^ 1) with 10. lia.
    + apply Z.ltb_ge in E.
      destruct (IH (n / 10) (digit_chr (n mod 10) :: acc)) as (L & HL & H).
      { split; [apply Z.div_pos; lia | ].
        apply Z.div_lt_upper_bound; [lia | ].
        replace (Z.of_nat (S fuel) + 1) with (Z.succ (Z.of_nat fuel + 1)) in Hn by lia.
        rewrite Z.pow_succ_r in Hn by lia. lia. }
      exists (L + 1). split; [lia | ]. intros m. rewrite H.
      unfold decimal_value. cbn [fold_left]. rewrite digit_val_chr.
      f_equal. rewrite Z.pow_add_r by lia. change (10 ^ 1) with 10.
      pose proof (Z.div_mod n 10 ltac:(lia)). lia.
Qed.

Lemma digits_of_value (n : Z) : 0 <= n -> decimal_value (digits_of n) 0 = n.
Proof.
  intros Hn. unfold digits_of.
  destruct (digits_go_value (Z.to_nat (Z.log2 n)) n []) as (L & _ & H).
  - split; [exact Hn | ].
    rewrite Z2Nat.id by apply Z.log2_nonneg.
    destruct (Z.eq_dec n 0) as [-> | Hz]; [reflexivity | ].
    apply Z.log2_spec. lia.
  - rewrite H. reflexivity.
Qed.

Lemma float_of_digits (n : Z) :
  0 <= n -> float_of_literal (digits_of n) = of_decimal n 0.
Proof.
  intros Hn. unfold float_of_literal.
  rewrite read_decimal_digits by apply digits_of_digits.
  now rewrite digits_of_value.
Qed.

Lemma skip_digits_all (s : str) : forallb is_digit s = true -> skip_digits s = [].
Proof.
  induction s as [ | c s IH]; simpl; [reflexivity | ].
  intros H. apply andb_prop in H. destruct H as [-> Hs]. now apply IH.
Qed.

Lemma digits_literal (ds : str) :
  ds <> [] -> forallb is_digit ds = true -> is_literal ds = true.
Proof.
  destruct ds as [ | d ds]; [congruence | ]. intros _. simpl.
  intros H. apply andb_prop in H. destruct H as [-> Hs].
  now rewrite skip_digits_all.
Qed.

Lemma digits_go_length (fuel : nat) :
  forall n acc,
    (1 <= List.length (digits_go fuel n acc) <= S fuel + List.length acc)%nat.
Proof.
  induction fuel as [ | fuel IH]; intros n acc; simpl.
  - lia.
  - destruct (n <? 10); simpl; [lia | ].
    specialize (IH (n / 10) (digit_chr (n mod 10) :: acc)). simpl in IH. lia.
Qed.

Lemma digits_of_literal (n : Z) : is_literal (digits_of n) = true.
Proof.
  apply digits_literal; [ | apply digits_of_digits].
  intros E. pose proof (digits_go_length (Z.to_nat (Z.log2 n)) n []) as H.
  unfold digits_of in E. rewrite E in H. simpl in H. lia.
Qed.

Lemma digits_of_short (n : Z) :
  0 <= n < 10 ^ 8 -> (len (digits_of n) <= 100)%nat.
Proof.
  intros Hn. unfold len, digits_of.
  pose proof (digits_go_length (Z.to_nat (Z.log2 n)) n []) as H. simpl in H.
  assert (Z.log2 n < 27).
  { destruct (Z.eq_dec n 0) as [-> | Hz]; [reflexivity | ].
    apply Z.log2_lt_pow2; lia. }
  pose proof (Z.log2_nonneg n). lia.
Qed.
End Digits.

(* ================================================================== *)
(** * The float of a whole number *)

Section WholeFloat.
Import Float Decimal.
Local Open Scope Z_scope.

Lemma div_half_even_one (a : Z) : div_half_even a 1 = a.
Proof.
  unfold div_half_even. rewrite Z.div_1_r, Z.mod_1_r. reflexivity.
Qed.

(** A positive integer below [2 ^ 53] is a float: its bits moved up to
    fill the mantissa. *)
Lemma of_ratio_whole (p : positive) :
  Zpos p < 2 ^ 53 ->
  of_ratio p 1
  = S754_finite false (Z.to_pos (Zpos p * 2 ^ (52 - Z.log2 (Zpos p))))
                (Z.log2 (Zpos p) - 52).
Proof.
  intros Hp. unfold of_ratio.
  change (Z.log2 1) with 0. unfold emin, emax, prec.
  set (L := Z.log2 (Zpos p)).
  assert (HL : 0 <= L) by apply Z.log2_nonneg.
  assert (HL' : L < 53) by (apply Z.log2_lt_pow2; lia).
  assert (Hspec : 2 ^ L <= Zpos p < 2 ^ Z.succ L) by (apply Z.log2_spec; lia).
  assert (Hup : Zpos p * 2 ^ (53 - L) < 2 ^ 54).
  { replace 54 with (Z.succ L + (53 - L)) by lia.
    rewrite (Z.pow_add_r 2 (Z.succ L)) by lia.
    apply Z.mul_lt_mono_pos_r; [apply Z.pow_pos_nonneg; lia | lia]. }
  assert (Hlo : 2 ^ 53 <= Zpos p * 2 ^ (53 - L)).
  { replace 53 with (L + (53 - L)) at 1 by lia.
    rewrite (Z.pow_add_r 2 L) by lia.
    apply Z.mul_le_mono_nonneg_r; [apply Z.pow_nonneg; lia | lia]. }
  assert (Hm : 2 ^ 52 <= Zpos p * 2 ^ (52 - L) < 2 ^ 53).
  { replace (53 - L) with (Z.succ (52 - L)) in Hup, Hlo by lia.
    rewrite Z.pow_succ_r in Hup, Hlo by lia.
    change (2 ^ 54) with (2 * 2 ^ 53) in Hup.
    change (2 ^ 53) with (2 * 2 ^ 52) in Hlo at 1. lia. }
  unfold scale2 at 1.
  destruct (L - 0 - 53) as [ | q | q] eqn:E0; try lia.
  cbv beta iota zeta.
  replace (- Z.neg q) with (53 - L) by lia.
  replace (2 ^ 53 * 1 <=? Zpos p * 2 ^ (53 - L)) with true
    by (symmetry; apply Z.leb_le; lia).
  replace (Z.max (Z.neg q + 1) (3 - 1024 - 53)) with (L - 52) by lia.
  assert (Hs : scale2 (Zpos p) 1 (L - 52) = (Zpos p * 2 ^ (52 - L), 1)).
  { unfold scale2. destruct (L - 52) as [ | q' | q'] eqn:E1; try lia.
    - replace (52 - L) with 0 by lia. f_equal; lia.
    - f_equal. f_equal. f_equal. lia. }
  rewrite Hs. cbv beta iota zeta. rewrite div_half_even_one.
  replace (Zpos p * 2 ^ (52 - L) =? 2 ^ 53) with false
    by (symmetry; apply Z.eqb_neq; lia).
  destruct (Zpos p * 2 ^ (52 - L)) as [ | mp | mp] eqn:Em; try lia.
  replace (L - 52 <=? 1024 - 53) with true by (symmetry; apply Z.leb_le; lia).
  reflexivity.
Qed.

(** The display form of the float of a whole number below 100000000 is
    the number in digits. *)
Lemma format_whole (p : positive) :
  Zpos p < 10 ^ 8 -> format_float (of_ratio p 1) = digits_of (Zpos p).
Proof.
  intros Hp. rewrite of_ratio_whole by lia.
  set (L := Z.log2 (Zpos p)).
  assert (HL : 0 <= L) by apply Z.log2_nonneg.
  assert (HL' : L < 27) by (apply Z.log2_lt_pow2; lia).
  assert (Hpos : 0 < Zpos p * 2 ^ (52 - L)).
  { apply Z.mul_pos_pos; [lia | apply Z.pow_pos_nonneg; lia]. }
  destruct (Zpos p * 2 ^ (52 - L)) as [ | mp | mp] eqn:Em; try lia.
  simpl Z.to_pos.
  assert (Hsci : scientific (S754_finite false mp (L - 52)) = false).
  { unfold scientific.
    replace hundred_million with (S754_finite false 6710886400000000 (-26))
      by (vm_compute; reflexivity).
    replace ten_thousandth with (S754_finite false 7378697629483821 (-66))
      by (vm_compute; reflexivity).
    unfold leb, ltb, abs, SFleb, SFltb, SFabs, SFcompare.
    replace (L - 52 ?= -66) with Gt by (symmetry; apply Z.compare_gt_iff; lia).
    rewrite andb_false_r, orb_false_r.
    destruct (Z.compare_spec (-26) (L - 52)) as [E | E | E]; [ | lia | reflexivity].
    replace (Pos.compare_cont Eq 6710886400000000 mp) with Gt; [reflexivity | ].
    symmetry.
    change (Pos.compare_cont Eq 6710886400000000 mp)
      with (Pos.compare 6710886400000000 mp).
    rewrite Pos2Z.inj_compare. apply Z.compare_gt_iff.
    replace (52 - L) with 26 in Em by lia.
    rewrite <- Em.
    replace (Z.pos 6710886400000000) with (10 ^ 8 * 2 ^ 26)
      by (vm_compute; reflexivity).
    apply Z.mul_lt_mono_pos_r; [reflexivity | exact Hp]. }
  unfold format_float. rewrite Hsci.
  unfold is_integer, to_int, num, den.
  destruct (L - 52) as [ | q | q] eqn:E; try lia.
  replace (- Z.neg q) with (52 - L) by lia.
  rewrite <- Em, Z.mod_mul, Z.div_mul by (apply Z.pow_nonzero; lia).
  reflexivity.
Qed.

(** A whole number from 0 to 99999999 written in digits evaluates to
    itself. *)
Lemma evaluate_whole (float_pow : float -> float -> Res float) (fuel : nat) (n : Z) :
  0 <= n < 10 ^ 8 ->
  evaluate float_pow fuel (int_str n) = Some (int_str n)
  /\ format_float (float_of_literal (int_str n)) = int_str n.
Proof.
  intros Hn. unfold int_str.
  replace (n <? 0) with false by (symmetry; apply Z.ltb_ge; lia).
  assert (H : format_float (float_of_literal (digits_of n)) = digits_of n).
  { rewrite float_of_digits by lia.
    destruct n as [ | p | p]; [reflexivity | | lia].
    unfold of_decimal. change (10 ^ 0) with 1. rewrite Z.mul_1_r. simpl Z.to_pos.
    apply format_whole. lia. }
  split; [ | exact H].
  rewrite evaluate_literal; [now rewrite H | apply digits_of_literal | ].
  now apply digits_of_short.
Qed.
End WholeFloat.

(* ================================================================== *)
(** * Rounding a quotient to an integer *)

Section HalfEven.
Import Float.
Local Open Scope Z_scope.

(** [div_half_even a b] is within a half of [a / b], and even when it is
    at a half. *)
Lemma div_half_even_spec (a b : Z) :
  0 < b ->
  let n := div_half_even a b in
  - b <= 2 * a - 2 * n * b <= b
  /\ (Z.abs (2 * a - 2 * n * b) = b -> Z.even n = true).
Proof.
  intros Hb n. unfold n, div_half_even.
  pose proof (Z.div_mod a b ltac:(lia)) as Hdm.
  pose proof (Z.mod_pos_bound a b Hb) as Hr.
  set (q := a / b) in *. set (r := a mod b) in *.
  destruct (Z.compare_spec (2 * r) b) as [E | E | E].
  - destruct (Z.even q) eqn:Hq.
    + split; [nia | auto].
    + split; [nia | ]. intros _.
      rewrite Z.even_add, Hq. reflexivity.
  - split; [nia | ]. intros H. exfalso.
    assert (2 * a - 2 * q * b = 2 * r) by nia. lia.
  - split; [nia | ]. intros H. exfalso.
    assert (2 * a - 2 * (q + 1) * b = 2 * r - 2 * b) by nia. lia.
Qed.

(** An integer within a half of [a / b], even when at a half, is the
    rounded quotient. *)
Lemma div_half_even_unique (a b n : Z) :
  0 < b ->
  Z.abs (2 * a - 2 * n * b) <= b ->
  (Z.abs (2 * a - 2 * n * b) = b -> Z.even n = true) ->
  div_half_even a b = n.
Proof.
  intros Hb Hn Htie.
  destruct (div_half_even_spec a b Hb) as [Hm Hmtie].
  set (m := div_half_even a b) in *.
  assert (Hd : m = n \/ m = n + 1 \/ m = n - 1) by nia.
  destruct Hd as [E | [E | E]]; [exact E | | ]; exfalso.
  - assert (Z.abs (2 * a - 2 * n * b) = b) by nia.
    assert (Z.abs (2 * a - 2 * m * b) = b) by nia.
    specialize (Htie ltac:(assumption)). specialize (Hmtie ltac:(assumption)).
    rewrite E, Z.even_add, Htie in Hmtie. discriminate.
  - assert (Z.abs (2 * a - 2 * n * b) = b) by nia.
    assert (Z.abs (2 * a - 2 * m * b) = b) by nia.
    specialize (Htie ltac:(assumption)). specialize (Hmtie ltac:(assumption)).
    rewrite E, Z.even_sub, Htie in Hmtie. discriminate.
Qed.

(** No integer is nearer to [a / b] than the rounded quotient. *)
Lemma div_half_even_nearest (a b j : Z) :
  0 < b ->
  Z.abs (a - div_half_even a b * b) <= Z.abs (a - j * b).
Proof.
  intros Hb.
  destruct (div_half_even_spec a b Hb) as [Hm _].
  set (m := div_half_even a b) in *.
  destruct (Z.eq_dec j m) as [-> | Hne]; [lia | ].
  assert (Hj : j <= m - 1 \/ m + 1 <= j) by lia.
  destruct Hj as [Hj | Hj]; nia.
Qed.

Lemma div_half_even_nonneg (a b : Z) : 0 <= a -> 0 < b -> 0 <= div_half_even a b.
Proof.
  intros Ha Hb. destruct (div_half_even_spec a b Hb) as [Hm _].
  set (m := div_half_even a b) in *. nia.
Qed.

(** The rounded quotient grows with the dividend. *)
Lemma div_half_even_mono (a a' b : Z) :
  0 < b -> a <= a' -> div_half_even a b <= div_half_even a' b.
Proof.
  intros Hb Ha.
  destruct (div_half_even_spec a b Hb) as [Hm Hmt].
  destruct (div_half_even_spec a' b Hb) as [Hm' Hmt'].
  set (m := div_half_even a b) in *. set (m' := div_half_even a' b) in *.
  destruct (Z_le_gt_dec m m') as [H | H]; [exact H | exfalso].
  assert (Hd : m = m' + 1) by nia.
  assert (E1 : Z.abs (2 * a - 2 * m * b) = b) by nia.
  assert (E2 : Z.abs (2 * a' - 2 * m' * b) = b) by nia.
  specialize (Hmt E1). specialize (Hmt' E2).
  rewrite Hd, Z.even_add, Hmt' in Hmt. discriminate.
Qed.
End HalfEven.

(* ================================================================== *)
(** * The nearest float to a fraction *)

Section Nearest.
Import Float.
Local Open Scope Z_scope.

Lemma pow2_pos (a : Z) : 0 <= a -> 0 < 2 ^ a.
Proof. intros H. apply Z.pow_pos_nonneg; lia. Qed.

Lemma pow2_split (a b : Z) : 0 <= a -> a <= b -> 2 ^ b = 2 ^ a * 2 ^ (b - a).
Proof.
  intros Ha Hb. rewrite <- Z.pow_add_r by lia. f_equal. lia.
Qed.

Lemma pow2_le (a b : Z) : 0 <= a -> a <= b -> 2 ^ a <= 2 ^ b.
Proof. intros Ha Hb. apply Z.pow_le_mono_r; lia. Qed.

Lemma pow2_lt (a b : Z) : 0 <= a -> a < b -> 2 ^ a < 2 ^ b.
Proof. intros Ha Hb. apply Z.pow_lt_mono_r; lia. Qed.

(** [scale2 p q e] is [p / (q * 2 ^ e)]. *)
Lemma scale2_neg (p q e : Z) : e <= 0 -> scale2 p q e = (p * 2 ^ (- e), q).
Proof.
  intros He. unfold scale2. destruct e as [ | e' | e']; try lia; [ | reflexivity].
  simpl. f_equal; lia.
Qed.

Lemma scale2_pos (p q e : Z) : 0 <= e -> scale2 p q e = (p, q * 2 ^ e).
Proof.
  intros He. unfold scale2. destruct e as [ | e' | e']; try lia; reflexivity.
Qed.

(** The rounded mantissa at the exponent [- K], when the fraction over
    that exponent is at least [2 ^ 52], is nearer to the fraction than
    any [m' / 2 ^ k'] with [m'] below [2 ^ 53]. *)
Lemma nearest_scaled (p q K k' m' : Z) :
  0 < p -> 0 < q -> 0 <= K -> 0 <= k' -> 0 < m' < 2 ^ 53 ->
  2 ^ 52 * q <= p * 2 ^ K ->
  2 ^ k' * Z.abs (div_half_even (p * 2 ^ K) q * q - p * 2 ^ K)
  <= 2 ^ K * Z.abs (m' * q - p * 2 ^ k').
Proof.
  intros Hp Hq HK Hk' Hm' Hw.
  set (M := div_half_even (p * 2 ^ K) q).
  destruct (Z_le_gt_dec k' K) as [Hle | Hgt].
  - pose proof (div_half_even_nearest (p * 2 ^ K) q (m' * 2 ^ (K - k')) Hq) as Hn.
    fold M in Hn.
    rewrite (pow2_split k' K Hk' Hle) in *.
    pose proof (pow2_pos k' Hk') as H1. pose proof (pow2_pos (K - k') ltac:(lia)) as H2.
    set (A := 2 ^ k') in *. set (D := 2 ^ (K - k')) in *.
    replace (p * (A * D) - m' * D * q) with (D * (p * A - m' * q)) in Hn by ring.
    rewrite Z.abs_mul, (Z.abs_eq D) in Hn by lia.
    replace (M * q - p * (A * D)) with (- (p * (A * D) - M * q)) by ring.
    rewrite Z.abs_opp.
    replace (m' * q - p * A) with (- (p * A - m' * q)) by ring.
    rewrite Z.abs_opp. nia.
  - pose proof (div_half_even_nearest (p * 2 ^ K) q (2 ^ 52) Hq) as Hn.
    fold M in Hn.
    rewrite (pow2_split K k' HK ltac:(lia)).
    pose proof (pow2_pos K HK) as H1.
    assert (H2 : 2 <= 2 ^ (k' - K)).
    { change 2 with (2 ^ 1) at 1. apply pow2_le; lia. }
    set (B := 2 ^ K) in *. set (D := 2 ^ (k' - K)) in *.
    replace (M * q - p * B) with (- (p * B - M * q)) by ring.
    rewrite Z.abs_opp.
    rewrite (Z.abs_eq (p * B - 2 ^ 52 * q)) in Hn by lia.
    assert (Hm : m' <= D * 2 ^ 52) by lia.
    assert (Hz : B * (p * (B * D) - m' * q) <= B * Z.abs (m' * q - p * (B * D))).
    { apply Z.mul_le_mono_nonneg_l; lia. }
    assert (Hx : B * D * (p * B - 2 ^ 52 * q) <= B * (p * (B * D) - m' * q)).
    { assert (B * (m' * q) <= B * (D * 2 ^ 52 * q)).
      { apply Z.mul_le_mono_nonneg_l; [lia | ].
        apply Z.mul_le_mono_nonneg_r; lia. }
      nia. }
    assert (Hy : B * D * Z.abs (p * B - M * q) <= B * D * (p * B - 2 ^ 52 * q)).
    { apply Z.mul_le_mono_nonneg_l; [nia | lia]. }
    lia.
Qed.
End Nearest.

Section NearestFloat.
Import Float.
Local Open Scope Z_scope.

(** The exponent [of_ratio] settles on for a fraction between [2 ^ -14]
    and [2 ^ 27]: the fraction over it lies in [[2 ^ 52, 2 ^ 53)]. *)
Lemma of_ratio_exponent (P Q : Z) :
  0 < P -> 0 < Q -> Q <= P * 2 ^ 14 -> P < Q * 2 ^ 27 ->
  let e0 := Z.log2 P - Z.log2 Q - 53 in
  let e1 := if 2 ^ 53 * Q <=? P * 2 ^ (- e0) then e0 + 1 else e0 in
  e0 < 0 /\ -66 <= e1 <= -26
  /\ 2 ^ 52 * Q <= P * 2 ^ (- e1) < 2 ^ 53 * Q.
Proof.
  intros HP HQ Hlo Hhi e0 e1.
  pose proof (Z.log2_spec P HP) as HlP. pose proof (Z.log2_spec Q HQ) as HlQ.
  pose proof (Z.log2_nonneg P) as HnP. pose proof (Z.log2_nonneg Q) as HnQ.
  set (lp := Z.log2 P) in *. set (lq := Z.log2 Q) in *.
  rewrite Z.pow_succ_r in HlP, HlQ by lia.
  assert (Hd1 : lp - lq <= 27).
  { destruct (Z_le_gt_dec (lp - lq) 27) as [H | H]; [exact H | exfalso].
    pose proof (pow2_le (lq + 28) lp ltac:(lia) ltac:(lia)) as Hle.
    rewrite Z.pow_add_r in Hle by lia. change (2 ^ 28) with (2 * 2 ^ 27) in Hle.
    pose proof (pow2_pos lq HnQ). nia. }
  assert (Hd2 : -14 <= lp - lq).
  { destruct (Z_le_gt_dec (-14) (lp - lq)) as [H | H]; [exact H | exfalso].
    pose proof (pow2_le (lp + 15) lq ltac:(lia) ltac:(lia)) as Hle.
    rewrite Z.pow_add_r in Hle by lia. change (2 ^ 15) with (2 * 2 ^ 14) in Hle.
    pose proof (pow2_pos lp HnP). nia. }
  assert (He0 : -67 <= e0 <= -26) by (unfold e0; lia).
  (* the fraction over [2 ^ e0] lies strictly between [2 ^ 52] and [2 ^ 54] *)
  assert (Hb : 2 ^ 52 * Q < P * 2 ^ (- e0) < 2 ^ 54 * Q).
  { replace (- e0) with (lq + 53 - lp) by (unfold e0; lia).
    pose proof (Z.pow_add_r 2 lp (lq + 53 - lp) HnP ltac:(lia)) as E.
    replace (lp + (lq + 53 - lp)) with (lq + 53) in E by lia.
    rewrite Z.pow_add_r in E by lia.
    pose proof (pow2_pos (lq + 53 - lp) ltac:(lia)) as Hpos.
    pose proof (pow2_pos lq HnQ) as Hposq.
    set (D := 2 ^ (lq + 53 - lp)) in *.
    change (2 ^ 53) with (2 * 2 ^ 52) in E.
    change (2 ^ 54) with (4 * 2 ^ 52).
    split; nia. }
  split; [lia | ].
  unfold e1. destruct (Z.leb_spec (2 ^ 53 * Q) (P * 2 ^ (- e0))) as [Ht | Ht].
  - (* one more binary digit *)
    assert (E : 2 ^ (- e0) = 2 * 2 ^ (- (e0 + 1))).
    { rewrite <- Z.pow_succ_r by lia. f_equal. lia. }
    rewrite E in Ht, Hb. change (2 ^ 54) with (2 * 2 ^ 53) in Hb.
    change (2 ^ 53) with (2 * 2 ^ 52) in Ht at 1.
    assert (Hv : 2 ^ 52 * Q <= P * 2 ^ (- (e0 + 1)) < 2 ^ 53 * Q) by lia.
    split; [ | exact Hv].
    assert (e0 + 1 <= -26); [ | lia].
    destruct (Z_le_gt_dec (e0 + 1) (-26)) as [H | H]; [exact H | exfalso].
    assert (E25 : e0 + 1 = -25) by lia. rewrite E25 in Hv.
    change (- -25) with 25 in Hv. change (2 ^ 52) with (2 ^ 27 * 2 ^ 25) in Hv.
    nia.
  - split; [ | lia].
    split; [ | lia].
    destruct (Z_le_gt_dec (-66) e0) as [H | H]; [exact H | exfalso].
    assert (E67 : e0 = -67) by lia. rewrite E67 in Ht.
    change (- -67) with 67 in Ht. change (2 ^ 67) with (2 ^ 14 * 2 ^ 53) in Ht.
    nia.
Qed.

(** A fraction between [2 ^ -14] and [2 ^ 27] rounds to a normal float
    [M / 2 ^ K], and no [m' / 2 ^ k'] with [m'] below [2 ^ 53] is nearer
    to the fraction. *)
Lemma of_ratio_normal (p q : positive) :
  Zpos q <= Zpos p * 2 ^ 14 -> Zpos p < Zpos q * 2 ^ 27 ->
  exists M K,
    of_ratio p q = S754_finite false (Z.to_pos M) (- K)
    /\ 2 ^ 52 <= M < 2 ^ 53 /\ 25 <= K <= 66
    /\ forall m' k',
         0 < m' < 2 ^ 53 -> 0 <= k' ->
         2 ^ k' * Z.abs (M * Zpos q - Zpos p * 2 ^ K)
         <= 2 ^ K * Z.abs (m' * Zpos q - Zpos p * 2 ^ k').
Proof.
  intros Hlo Hhi.
  destruct (of_ratio_exponent (Zpos p) (Zpos q) ltac:(lia) ltac:(lia) Hlo Hhi)
    as (He0 & He1 & Hw).
  unfold of_ratio. unfold emin, emax, prec.
  set (e0 := Z.log2 (Zpos p) - Z.log2 (Zpos q) - 53) in *.
  rewrite (scale2_neg _ _ e0) by lia. cbv beta iota zeta.
  set (e1 := if 2 ^ 53 * Zpos q <=? Zpos p * 2 ^ (- e0) then e0 + 1 else e0) in *.
  replace (Z.max e1 (3 - 1024 - 53)) with e1 by lia.
  rewrite (scale2_neg _ _ e1) by lia. cbv beta iota zeta.
  set (K0 := - e1) in *.
  assert (HK0 : 26 <= K0 <= 66) by (unfold K0; lia).
  pose proof (div_half_even_spec (Zpos p * 2 ^ K0) (Zpos q) ltac:(lia)) as [Hm _].
  cbv zeta in Hm.
  pose proof (fun m' k' H1 H2 =>
                nearest_scaled (Zpos p) (Zpos q) K0 k' m'
                               ltac:(lia) ltac:(lia) ltac:(lia) H2 H1 (proj1 Hw))
    as Hnear.
  set (Mr := div_half_even (Zpos p * 2 ^ K0) (Zpos q)) in *.
  assert (HMr : 2 ^ 52 <= Mr <= 2 ^ 53) by nia.
  destruct (Z.eqb_spec Mr (2 ^ 53)) as [Ec | Ec].
  - (* the mantissa is rounded up to the next power of two *)
    exists (2 ^ 52), (K0 - 1).
    change (2 ^ (53 - 1)) with (Z.pos (Z.to_pos (2 ^ 52))). cbv beta iota.
    replace (e1 + 1 <=? 1024 - 53) with true by (symmetry; apply Z.leb_le; lia).
    split; [f_equal; unfold K0; lia | ].
    split; [split; [lia | reflexivity] | ].
    split; [lia | ].
    intros m' k' H1 H2. specialize (Hnear m' k' H1 H2). rewrite Ec in Hnear.
    assert (E : 2 ^ K0 = 2 * 2 ^ (K0 - 1)).
    { rewrite <- Z.pow_succ_r by lia. f_equal. lia. }
    rewrite E in Hnear.
    pose proof (pow2_pos k' H2) as Hk'.
    set (B := 2 ^ (K0 - 1)) in *. set (A := 2 ^ k') in *.
    replace (2 ^ 53 * Z.pos q - Z.pos p * (2 * B))
      with (2 * (2 ^ 52 * Z.pos q - Z.pos p * B)) in Hnear
      by (change (2 ^ 53) with (2 * 2 ^ 52); ring).
    rewrite Z.abs_mul in Hnear. change (Z.abs 2) with 2 in Hnear. lia.
  - exists Mr, K0.
    destruct Mr as [ | mp | mp] eqn:EM; try lia.
    cbv beta iota.
    replace (e1 <=? 1024 - 53) with true by (symmetry; apply Z.leb_le; lia).
    split; [f_equal; unfold K0; lia | ].
    split; [lia | ]. split; [lia | ].
    exact Hnear.
Qed.
End NearestFloat.

(* ================================================================== *)
(** * Floats shown in plain digits *)

Section PlainFloat.
Import Float.
Local Open Scope Z_scope.

Lemma digits2_pos_spec (m : positive) :
  2 ^ (Zpos (digits2_pos m) - 1) <= Zpos m < 2 ^ Zpos (digits2_pos m).
Proof.
  induction m as [m IH | m IH | ]; simpl digits2_pos.
  - rewrite Pos2Z.inj_succ.
    replace (Z.succ (Zpos (digits2_pos m)) - 1) with (Z.succ (Zpos (digits2_pos m) - 1)) by lia.
    rewrite !Z.pow_succ_r by lia. change (Z.pos m~1) with (2 * Z.pos m + 1).
    set (A := 2 ^ (Z.pos (digits2_pos m) - 1)) in *.
    set (B := 2 ^ Z.pos (digits2_pos m)) in *. clearbody A B. lia.
  - rewrite Pos2Z.inj_succ.
    replace (Z.succ (Zpos (digits2_pos m)) - 1) with (Z.succ (Zpos (digits2_pos m) - 1)) by lia.
    rewrite !Z.pow_succ_r by lia. change (Z.pos m~0) with (2 * Z.pos m).
    set (A := 2 ^ (Z.pos (digits2_pos m) - 1)) in *.
    set (B := 2 ^ Z.pos (digits2_pos m)) in *. clearbody A B. lia.
  - simpl. lia.
Qed.

(** The mantissa and exponent of a well-formed binary64 number. *)
Lemma bounded_spec (m : positive) (e : Z) :
  bounded prec emax m e = true ->
  Zpos m < 2 ^ 53 /\ -1074 <= e <= 971 /\ (-1074 < e -> 2 ^ 52 <= Zpos m).
Proof.
  unfold bounded, canonical_mantissa, fexp, SpecFloat.emin, prec, emax.
  intros H. apply andb_prop in H. destruct H as [H1 H2].
  apply Z.eqb_eq in H1. apply Z.leb_le in H2.
  pose proof (digits2_pos_spec m) as Hd.
  set (d := Zpos (digits2_pos m)) in *.
  assert (Hd53 : d <= 53) by lia.
  split; [ | split; [lia | ]].
  - destruct Hd as [_ Hd]. pose proof (pow2_le d 53 ltac:(lia) Hd53). lia.
  - intros He. assert (d = 53) by lia. subst d.
    replace (Z.pos (digits2_pos m)) with 53 in Hd by lia.
    change (53 - 1) with 52 in Hd. lia.
Qed.

(** A positive well-formed float shown in plain digits lies between the
    float of 0.0001 and the last float below 100000000. *)
Lemma plain_range (m : positive) (e : Z) :
  bounded prec emax m e = true ->
  scientific (S754_finite false m e) = false ->
  26 <= - e <= 66
  /\ 2 ^ 52 <= Zpos m < 2 ^ 53
  /\ 7378697629483821 * 2 ^ (- e) <= Zpos m * 2 ^ 66
  /\ Zpos m * 2 ^ 26 <= 6710886399999999 * 2 ^ (- e).
Proof.
  intros Hb Hs. destruct (bounded_spec m e Hb) as (Hm & He & Hn).
  unfold scientific in Hs.
  replace hundred_million with (S754_finite false 6710886400000000 (-26)) in Hs
    by (vm_compute; reflexivity).
  replace ten_thousandth with (S754_finite false 7378697629483821 (-66)) in Hs
    by (vm_compute; reflexivity).
  apply orb_false_elim in Hs. destruct Hs as [Hs1 Hs2].
  unfold leb, ltb, eqb, abs, zero, SFleb, SFltb, SFeqb, SFabs, SFcompare in Hs1, Hs2.
  cbv beta iota in Hs2. rewrite andb_true_r, andb_true_l in Hs2.
  rewrite Pos.compare_cont_spec, Pos2Z.inj_compare in Hs1, Hs2.
  assert (H1 : e < -26 \/ (e = -26 /\ Zpos m < 6710886400000000)).
  { revert Hs1.
    destruct (Z.compare_spec (-26) e) as [E | E | E];
      [ | intros Hs1; discriminate Hs1 | intros _; left; lia].
    destruct (Z.compare_spec 6710886400000000 (Zpos m)) as [E' | E' | E'];
      cbv beta iota delta [Pos.switch_Eq]; intros Hs1;
      [discriminate Hs1 | discriminate Hs1 | right; split; [lia | exact E']]. }
  assert (H2 : -66 < e \/ (e = -66 /\ 7378697629483821 <= Zpos m)).
  { revert Hs2.
    destruct (Z.compare_spec e (-66)) as [E | E | E];
      [ | intros Hs2; discriminate Hs2 | intros _; left; lia].
    destruct (Z.compare_spec (Zpos m) 7378697629483821) as [E' | E' | E'];
      cbv beta iota delta [Pos.switch_Eq]; intros Hs2;
      [right; split; [lia | rewrite E'; apply Z.le_refl]
      | discriminate Hs2
      | right; split; [lia | apply Z.lt_le_incl; exact E']]. }
  assert (Hk : 26 <= - e <= 66) by lia.
  specialize (Hn ltac:(lia)).
  split; [exact Hk | split; [lia | ]].
  set (k := - e) in *.
  split.
  - destruct H2 as [H2 | [H2 H2']].
    + rewrite (pow2_split k 66) by lia.
      pose proof (pow2_pos k ltac:(lia)) as Hpk.
      assert (Hd : 2 <= 2 ^ (66 - k)).
      { change 2 with (2 ^ 1) at 1. apply pow2_le; lia. }
      set (A := 2 ^ k) in *. set (D := 2 ^ (66 - k)) in *.
      change (2 ^ 52) with 4503599627370496 in Hn.
      clearbody A D.
      assert (Hmd : 7378697629483821 <= Zpos m * D) by nia.
      replace (Zpos m * (A * D)) with (Zpos m * D * A) by ring.
      apply Z.mul_le_mono_nonneg_r; lia.
    + replace k with 66 by lia.
      apply Z.mul_le_mono_nonneg_r; [apply Z.pow_nonneg; lia | exact H2'].
  - destruct H1 as [H1 | [H1 H1']].
    + rewrite (pow2_split 26 k) by lia.
      assert (Hd : 2 <= 2 ^ (k - 26)).
      { change 2 with (2 ^ 1) at 1. apply pow2_le; lia. }
      set (A := 2 ^ 26) in *. set (D := 2 ^ (k - 26)) in *.
      change (2 ^ 53) with 9007199254740992 in Hm.
      assert (HA : 0 < A) by reflexivity.
      clearbody A D.
      assert (Hmd : Zpos m <= 6710886399999999 * D) by nia.
      replace (6710886399999999 * (A * D)) with (6710886399999999 * D * A) by ring.
      apply Z.mul_le_mono_nonneg_r; lia.
    + replace k with 26 by lia.
      apply Z.mul_le_mono_nonneg_r; [apply Z.pow_nonneg; lia | ].
      apply Z.lt_succ_r. exact H1'.
Qed.
End PlainFloat.

Section PlainFloatConverse.
Import Float.
Local Open Scope Z_scope.

(** A normal float between the float of 0.0001 and 100000000 is shown in
    plain digits. *)
Lemma range_plain (M : positive) (K : Z) :
  2 ^ 52 <= Zpos M < 2 ^ 53 -> 25 <= K <= 66 ->
  7378697629483821 * 2 ^ K <= Zpos M * 2 ^ 66 ->
  Zpos M < 10 ^ 8 * 2 ^ K ->
  scientific (S754_finite false M (- K)) = false.
Proof.
  intros HM HK Hlo Hhi.
  assert (HK26 : 26 <= K).
  { destruct (Z_le_gt_dec 26 K) as [H | H]; [exact H | exfalso].
    replace K with 25 in Hhi by lia.
    change (10 ^ 8 * 2 ^ 25) with 3355443200000000 in Hhi.
    change (2 ^ 52) with 4503599627370496 in HM. lia. }
  unfold scientific.
  replace hundred_million with (S754_finite false 6710886400000000 (-26))
    by (vm_compute; reflexivity).
  replace ten_thousandth with (S754_finite false 7378697629483821 (-66))
    by (vm_compute; reflexivity).
  unfold leb, ltb, eqb, abs, zero, SFleb, SFltb, SFeqb, SFabs, SFcompare.
  cbv beta iota. rewrite andb_true_r, andb_true_l.
  rewrite !Pos.compare_cont_spec, !Pos2Z.inj_compare.
  apply orb_false_intro.
  - destruct (Z.compare_spec (-26) (- K)) as [E | E | E]; [ | lia | reflexivity].
    destruct (Z.compare_spec 6710886400000000 (Zpos M)) as [E' | E' | E'];
      cbv beta iota delta [Pos.switch_Eq]; [exfalso | exfalso | reflexivity].
    + replace K with 26 in Hhi by lia.
      change (10 ^ 8 * 2 ^ 26) with 6710886400000000 in Hhi. lia.
    + replace K with 26 in Hhi by lia.
      change (10 ^ 8 * 2 ^ 26) with 6710886400000000 in Hhi. lia.
  - destruct (Z.compare_spec (- K) (-66)) as [E | E | E]; [ | lia | reflexivity].
    destruct (Z.compare_spec (Zpos M) 7378697629483821) as [E' | E' | E'];
      cbv beta iota delta [Pos.switch_Eq]; [reflexivity | exfalso | reflexivity].
    replace K with 66 in Hlo by lia.
    assert (H66 : 0 < 2 ^ 66) by reflexivity.
    set (A := 2 ^ 66) in *. clearbody A. nia.
Qed.
End PlainFloatConverse.

Section Reread.
Import Float.
Local Open Scope Z_scope.

(** If [y] is at least as near to a point as [x], and [x] is within a
    half of it, so is [y]; and [y] is at a half only if [x] is. *)
Lemma nearer_is_within (Pk PK A B : Z) :
  0 < Pk -> 0 < PK -> 0 <= A -> 0 <= B ->
  Pk * A <= PK * B -> 2 * B <= Pk ->
  2 * A <= PK /\ (2 * A = PK -> 2 * B = Pk).
Proof.
  intros HPk HPK HA HB Hn Hx.
  assert (H1 : Pk * (2 * A) <= PK * Pk) by nia.
  split; [nia | ]. intros E. nia.
Qed.

(** The eight-decimal rounding of a plain float lies between 10000 and
    9999999999999999. *)
Lemma plain_rounding_range (m Pk D D' N : Z) :
  0 < Pk -> 0 < D -> 0 < D' ->
  Pk * D = 2 ^ 66 -> Pk = 2 ^ 26 * D' ->
  7378697629483821 * Pk <= m * 2 ^ 66 ->
  m * 2 ^ 26 <= 6710886399999999 * Pk ->
  - Pk <= 2 * (m * 10 ^ 8) - 2 * N * Pk <= Pk ->
  10 ^ 4 <= N <= 10 ^ 16 - 1.
Proof.
  intros HPk HD HD' E66 E26 Hlo Hhi HN.
  change (10 ^ 8) with 100000000 in HN.
  change (10 ^ 4) with 10000. change (10 ^ 16 - 1) with 9999999999999999.
  split.
  - rewrite <- E66 in Hlo.
    assert (H1 : 7378697629483821 <= m * D) by nia.
    assert (H2 : 2 * (m * D) * 100000000 - Pk * D <= 2 * N * (Pk * D)) by nia.
    rewrite E66 in H2. change (2 ^ 66) with 73786976294838206464 in H2. lia.
  - assert (E : m * 2 ^ 26 <= 6710886399999999 * D' * 2 ^ 26)
      by (rewrite E26 in Hhi; lia).
    assert (H1 : m <= 6710886399999999 * D').
    { apply (Z.mul_le_mono_pos_r _ _ (2 ^ 26)); [reflexivity | exact E]. }
    rewrite E26 in HN.
    assert (H2 : 2 * N * 2 ^ 26 * D' <= (2 * 6710886399999999 * 100000000 + 2 ^ 26) * D')
      by nia.
    assert (H3 : 2 * N * 2 ^ 26 <= 2 * 6710886399999999 * 100000000 + 2 ^ 26).
    { apply (Z.mul_le_mono_pos_r _ _ D'); [exact HD' | exact H2]. }
    change (2 ^ 26) with 67108864 in H3. lia.
Qed.

(** The nearest float to a decimal of at least 0.0001 is not below the
    float of 0.0001. *)
Lemma reread_lower (M p q PK D N : Z) :
  0 < p -> 0 < q -> 0 < PK -> 0 < D -> PK * D = 2 ^ 66 ->
  p * 10 ^ 8 = N * q -> 10 ^ 4 <= N ->
  2 ^ 66 * Z.abs (M * q - p * PK)
  <= PK * Z.abs (7378697629483821 * q - p * 2 ^ 66) ->
  7378697629483821 * PK <= M * 2 ^ 66.
Proof.
  intros Hp Hq HPK HD E66 Hpq HN Hnear.
  destruct (Z_le_gt_dec (7378697629483821 * PK) (M * 2 ^ 66)) as [H | H];
    [exact H | exfalso].
  rewrite <- E66 in H, Hnear.
  assert (HMD : M * D <= 7378697629483820) by nia.
  assert (Hq' : q <= p * 10000).
  { change (10 ^ 8) with 100000000 in Hpq. change (10 ^ 4) with 10000 in HN. nia. }
  assert (Hn : D * Z.abs (M * q - p * PK)
               <= Z.abs (7378697629483821 * q - p * (PK * D))).
  { apply (Z.mul_le_mono_pos_l _ _ PK HPK).
    replace (PK * (D * Z.abs (M * q - p * PK)))
      with (PK * D * Z.abs (M * q - p * PK)) by ring.
    exact Hnear. }
  rewrite <- (Z.abs_eq D) in Hn at 1 by lia. rewrite <- Z.abs_mul in Hn.
  assert (Ha : M * D * q <= 7378697629483820 * q).
  { apply Z.mul_le_mono_nonneg_r; lia. }
  replace (D * (M * q - p * PK)) with (M * D * q - p * (PK * D)) in Hn by ring.
  rewrite E66 in Hn. change (2 ^ 66) with 73786976294838206464 in Hn.
  set (a := M * D * q) in *. clearbody a. lia.
Qed.

(** The nearest float to a decimal of at most 99999999.99999999 is below
    100000000. *)
Lemma reread_upper (M p q PK N : Z) :
  0 < p -> 0 < q -> 0 < PK ->
  p * 10 ^ 8 = N * q -> N <= 10 ^ 16 - 1 ->
  2 ^ 26 * Z.abs (M * q - p * PK)
  <= PK * Z.abs (6710886399999999 * q - p * 2 ^ 26) ->
  M < 10 ^ 8 * PK.
Proof.
  intros Hp Hq HPK Hpq HN Hnear.
  destruct (Z_lt_ge_dec M (10 ^ 8 * PK)) as [H | H]; [exact H | exfalso].
  change (10 ^ 8) with 100000000 in *.
  change (10 ^ 16 - 1) with 9999999999999999 in HN.
  change (2 ^ 26) with 67108864 in Hnear.
  assert (Hgap : q <= 100000000 * (100000000 * q - p)) by nia.
  assert (Hpos : 0 < 100000000 * q - p) by lia.
  assert (H1 : PK * (100000000 * q - p) <= M * q - p * PK) by nia.
  rewrite (Z.abs_eq (M * q - p * PK)) in Hnear by nia.
  assert (H2 : 67108864 * (PK * (100000000 * q - p))
               <= PK * Z.abs (6710886399999999 * q - p * 67108864)) by lia.
  assert (H3 : 67108864 * (100000000 * q - p)
               <= Z.abs (6710886399999999 * q - p * 67108864)).
  { apply (Z.mul_le_mono_pos_l _ _ PK HPK).
    replace (PK * (67108864 * (100000000 * q - p)))
      with (67108864 * (PK * (100000000 * q - p))) by ring.
    exact H2. }
  lia.
Qed.
End Reread.

Section RereadPlain.
Import Float.
Local Open Scope Z_scope.

Lemma num_den_neg (m : positive) (k : Z) :
  0 < k -> num m (- k) = Zpos m /\ den (- k) = 2 ^ k.
Proof.
  intros Hk. destruct k as [ | k' | k']; try lia. split; reflexivity.
Qed.

(** The float read back from the eight-decimal rounding [N] of a plain
    float, when [N] has a fraction: it is shown in plain digits, it is
    not whole, and its eight-decimal rounding is [N] again. *)
Lemma reread_plain (m p q : positive) (e : Z) :
  bounded prec emax m e = true ->
  scientific (S754_finite false m e) = false ->
  let N := div_half_even (Zpos m * 10 ^ 8) (2 ^ (- e)) in
  Zpos p * 10 ^ 8 = N * Zpos q ->
  N mod 10 ^ 8 <> 0 ->
  exists (M : positive) (K : Z),
    of_ratio p q = S754_finite false M (- K)
    /\ 0 < K
    /\ scientific (S754_finite false M (- K)) = false
    /\ Zpos M mod 2 ^ K <> 0
    /\ div_half_even (Zpos M * 10 ^ 8) (2 ^ K) = N.
Proof.
  intros Hb Hs N Hpq Hfrac.
  destruct (plain_range m e Hb Hs) as (Hk & Hm & Hlo & Hhi).
  set (k := - e) in *.
  pose proof (pow2_pos k ltac:(lia)) as HPk.
  destruct (div_half_even_spec (Zpos m * 10 ^ 8) (2 ^ k) HPk) as [HN HNtie].
  fold N in HN, HNtie.
  assert (HNr : 10 ^ 4 <= N <= 10 ^ 16 - 1).
  { apply (plain_rounding_range (Zpos m) (2 ^ k) (2 ^ (66 - k)) (2 ^ (k - 26)) N);
      try (apply pow2_pos; lia); try assumption.
    - rewrite <- Z.pow_add_r by lia. f_equal. lia.
    - rewrite <- Z.pow_add_r by lia. f_equal. lia. }
  assert (Hq1 : Zpos q <= Zpos p * 2 ^ 14).
  { change (2 ^ 14) with 16384. change (10 ^ 8) with 100000000 in Hpq.
    change (10 ^ 4) with 10000 in HNr. nia. }
  assert (Hq2 : Zpos p < Zpos q * 2 ^ 27).
  { change (2 ^ 27) with 134217728. change (10 ^ 8) with 100000000 in Hpq.
    change (10 ^ 16 - 1) with 9999999999999999 in HNr. nia. }
  destruct (of_ratio_normal p q Hq1 Hq2) as (M & K & Ey & HM & HK & Hnear).
  pose proof (pow2_pos K ltac:(lia)) as HPK.
  (* the bounds of the float read back *)
  assert (Hylo : 7378697629483821 * 2 ^ K <= M * 2 ^ 66).
  { apply (reread_lower M (Zpos p) (Zpos q) (2 ^ K) (2 ^ (66 - K)) N);
      try lia; try (apply pow2_pos; lia).
    - rewrite <- Z.pow_add_r by lia. f_equal. lia.
    - apply (Hnear 7378697629483821 66); [split; reflexivity | lia]. }
  assert (Hyhi : M < 10 ^ 8 * 2 ^ K).
  { apply (reread_upper M (Zpos p) (Zpos q) (2 ^ K) N); try lia.
    apply (Hnear 6710886399999999 26); [split; reflexivity | lia]. }
  (* it is as near to the decimal as the float it comes from *)
  pose proof (Hnear (Zpos m) k ltac:(lia) ltac:(lia)) as Hx.
  assert (Hkey : 2 * Z.abs (M * 10 ^ 8 - N * 2 ^ K) <= 2 ^ K
                 /\ (2 * Z.abs (M * 10 ^ 8 - N * 2 ^ K) = 2 ^ K ->
                     2 * Z.abs (Zpos m * 10 ^ 8 - N * 2 ^ k) = 2 ^ k)).
  { apply nearer_is_within; try lia.
    apply (Z.mul_le_mono_pos_l _ _ (Zpos q)); [lia | ].
    replace (Zpos q * (2 ^ k * Z.abs (M * 10 ^ 8 - N * 2 ^ K)))
      with (2 ^ k * (Z.abs (Zpos q) * Z.abs (M * 10 ^ 8 - N * 2 ^ K)))
      by (rewrite (Z.abs_eq (Zpos q)) by lia; ring).
    replace (Zpos q * (2 ^ K * Z.abs (Zpos m * 10 ^ 8 - N * 2 ^ k)))
      with (2 ^ K * (Z.abs (Zpos q) * Z.abs (Zpos m * 10 ^ 8 - N * 2 ^ k)))
      by (rewrite (Z.abs_eq (Zpos q)) by lia; ring).
    rewrite <- !Z.abs_mul.
    assert (E1 : Zpos q * (M * 10 ^ 8 - N * 2 ^ K)
                 = 10 ^ 8 * (M * Zpos q - Zpos p * 2 ^ K)).
    { transitivity (M * Zpos q * 10 ^ 8 - N * Zpos q * 2 ^ K);
        [ring | rewrite <- Hpq; ring]. }
    assert (E2 : Zpos q * (Zpos m * 10 ^ 8 - N * 2 ^ k)
                 = 10 ^ 8 * (Zpos m * Zpos q - Zpos p * 2 ^ k)).
    { transitivity (Zpos m * Zpos q * 10 ^ 8 - N * Zpos q * 2 ^ k);
        [ring | rewrite <- Hpq; ring]. }
    rewrite E1, E2.
    rewrite !Z.abs_mul. change (Z.abs (10 ^ 8)) with (10 ^ 8).
    replace (2 ^ k * (10 ^ 8 * Z.abs (M * Z.pos q - Z.pos p * 2 ^ K)))
      with (10 ^ 8 * (2 ^ k * Z.abs (M * Z.pos q - Z.pos p * 2 ^ K))) by ring.
    replace (2 ^ K * (10 ^ 8 * Z.abs (Z.pos m * Z.pos q - Z.pos p * 2 ^ k)))
      with (10 ^ 8 * (2 ^ K * Z.abs (Z.pos m * Z.pos q - Z.pos p * 2 ^ k))) by ring.
    apply Z.mul_le_mono_nonneg_l; [discriminate | exact Hx]. }
  destruct Hkey as [Hkey Hkeytie].
  destruct M as [ | M' | M'] eqn:EM; try lia.
  simpl Z.to_pos in Ey.
  exists M', K. split; [exact Ey | ]. split; [lia | ].
  split; [ | split].
  - apply range_plain; assumption.
  - intros Hz.
    apply Z.mod_divide in Hz; [ | lia]. destruct Hz as [c Hc].
    apply Hfrac. apply Z.mod_divide; [discriminate | ].
    exists c.
    rewrite Hc in Hkey.
    replace (c * 2 ^ K * 10 ^ 8 - N * 2 ^ K) with ((c * 10 ^ 8 - N) * 2 ^ K) in Hkey by ring.
    rewrite Z.abs_mul, (Z.abs_eq (2 ^ K)) in Hkey by lia.
    assert (Hd : Z.abs (c * 10 ^ 8 - N) = 0).
    { pose proof (Z.abs_nonneg (c * 10 ^ 8 - N)) as Hd0.
      set (d := Z.abs (c * 10 ^ 8 - N)) in *.
      set (PK := 2 ^ K) in *.
      clear - Hkey HPK Hd0. clearbody d PK. nia. }
    apply Z.abs_0_iff in Hd. lia.
  - apply div_half_even_unique; [exact HPK | | ].
    + replace (2 * (Zpos M' * 10 ^ 8) - 2 * N * 2 ^ K)
        with (2 * (Zpos M' * 10 ^ 8 - N * 2 ^ K)) by ring.
      rewrite Z.abs_mul. exact Hkey.
    + intros Htie. apply HNtie.
      replace (2 * (Zpos M' * 10 ^ 8) - 2 * N * 2 ^ K)
        with (2 * (Zpos M' * 10 ^ 8 - N * 2 ^ K)) in Htie by ring.
      rewrite Z.abs_mul in Htie. specialize (Hkeytie Htie).
      replace (2 * (Zpos m * 10 ^ 8) - 2 * N * 2 ^ k)
        with (2 * (Zpos m * 10 ^ 8 - N * 2 ^ k)) by ring.
      rewrite Z.abs_mul. exact Hkeytie.
Qed.
End RereadPlain.

(* ================================================================== *)
(** * Trailing zeros *)

Lemma rstrip_absent (c : char) (s : str) : count c s = 0%nat -> rstrip c s = s.
Proof.
  induction s as [ | x s IH]; cbn [count rstrip]; [reflexivity | ].
  destruct (chr_eqb x c) eqn:E; [discriminate | ].
  intros H. rewrite (IH H). destruct s; reflexivity.
Qed.

Lemma rstrip_app_kept (c : char) (a b : str) :
  rstrip c b <> [] -> rstrip c (a ++ b) = a ++ rstrip c b.
Proof.
  intros Hb. induction a as [ | x a IH]; cbn [app rstrip]; [reflexivity | ].
  rewrite IH. destruct (a ++ rstrip c b) eqn:E; [ | reflexivity].
  apply app_eq_nil in E. tauto.
Qed.

Lemma rstrip_app_dropped (c : char) (a b : str) :
  rstrip c b = [] -> rstrip c (a ++ b) = rstrip c a.
Proof.
  intros Hb. induction a as [ | x a IH]; cbn [app rstrip]; [exact Hb | ].
  now rewrite IH.
Qed.

Section TrailingZeros.
Import Decimal.
Local Open Scope Z_scope.

Lemma digit_chr_zero (n : Z) :
  chr_eqb (digit_chr (n mod 10)) Ch.zero = true <-> n mod 10 = 0.
Proof.
  unfold chr_eqb, digit_chr, Ch.zero.
  pose proof (Z.mod_pos_bound n 10 ltac:(lia)) as H.
  rewrite N.eqb_eq. split; intros E; lia.
Qed.

Lemma mod_pow10_succ (n : Z) (w : nat) :
  n mod 10 ^ Z.of_nat (S w) = n mod 10 + 10 * ((n / 10) mod 10 ^ Z.of_nat w).
Proof.
  rewrite Nat2Z.inj_succ, Z.pow_succ_r by lia.
  apply Z.rem_mul_r; [lia | ]. apply Z.pow_pos_nonneg; lia.
Qed.

Lemma digits_fixed_mod (w : nat) :
  forall n, digits_fixed w (n mod 10 ^ Z.of_nat w) = digits_fixed w n.
Proof.
  induction w as [ | w IH]; intros n; [reflexivity | ].
  cbn [digits_fixed]. rewrite mod_pow10_succ.
  pose proof (Z.mod_pos_bound n 10 ltac:(lia)) as Hr.
  set (t := (n / 10) mod 10 ^ Z.of_nat w).
  replace ((n mod 10 + 10 * t) / 10) with t.
  2:{ rewrite (Z.add_comm (n mod 10)), (Z.mul_comm 10 t), Z.div_add_l by lia.
      rewrite (Z.div_small (n mod 10)) by lia. lia. }
  replace ((n mod 10 + 10 * t) mod 10) with (n mod 10).
  2:{ rewrite (Z.mul_comm 10 t), Z.mod_add by lia.
      now rewrite Z.mod_mod by lia. }
  unfold t. now rewrite IH.
Qed.

Lemma decimal_value_app (a b : str) (m : Z) :
  decimal_value (a ++ b) m = decimal_value b (decimal_value a m).
Proof. unfold decimal_value. apply fold_left_app. Qed.

Lemma decimal_value_fixed (w : nat) :
  forall n m, decimal_value (digits_fixed w n) m
              = m * 10 ^ Z.of_nat w + n mod 10 ^ Z.of_nat w.
Proof.
  induction w as [ | w IH]; intros n m.
  - simpl. rewrite Z.mod_1_r. lia.
  - cbn [digits_fixed]. rewrite decimal_value_app, IH.
    unfold decimal_value at 1. cbn [fold_left]. rewrite digit_val_chr.
    rewrite mod_pow10_succ, Nat2Z.inj_succ, Z.pow_succ_r by lia.
    set (A := 10 ^ Z.of_nat w). set (t := (n / 10) mod A).
    clearbody A t. lia.
Qed.

(** The digits left of [digits_fixed w n] once its trailing zeros are
    stripped: [j] digits that write [v], with [n mod 10 ^ w] equal to [v]
    followed by [w - j] zeros. *)
Lemma rstrip_zeros_fixed (w : nat) :
  forall n,
  exists (j : nat) (v : Z),
    (j <= w)%nat
    /\ rstrip Ch.zero (digits_fixed w n) = digits_fixed j v
    /\ n mod 10 ^ Z.of_nat w = v * 10 ^ Z.of_nat (w - j)
    /\ 0 <= v < 10 ^ Z.of_nat j
    /\ (j = 0%nat \/ v mod 10 <> 0).
Proof.
  induction w as [ | w IH]; intros n.
  - exists 0%nat, 0. simpl. rewrite Z.mod_1_r. repeat split; auto; lia.
  - cbn [digits_fixed].
    destruct (Z.eq_dec (n mod 10) 0) as [E | E].
    + destruct (IH (n / 10)) as (j & v & Hj & Hs & Hv & Hr & Hl).
      exists j, v. split; [lia | ]. split; [ | split; [ | split; assumption]].
      * rewrite rstrip_app_dropped; [exact Hs | ].
        simpl. now rewrite (proj2 (digit_chr_zero n) E).
      * rewrite mod_pow10_succ, E, Hv.
        replace (S w - j)%nat with (S (w - j)) by lia.
        rewrite Nat2Z.inj_succ, Z.pow_succ_r by lia. ring.
    + exists (S w), (n mod 10 ^ Z.of_nat (S w)).
      split; [lia | ]. split; [ | split; [ | split]].
      * rewrite digits_fixed_mod. cbn [digits_fixed].
        assert (Ed : rstrip Ch.zero [digit_chr (n mod 10)] = [digit_chr (n mod 10)]).
        { cbn [rstrip].
          destruct (chr_eqb (digit_chr (n mod 10)) Ch.zero) eqn:Ez; [ | reflexivity].
          apply digit_chr_zero in Ez. contradiction. }
        rewrite rstrip_app_kept; rewrite Ed; [reflexivity | discriminate].
      * rewrite Nat.sub_diag. simpl (10 ^ Z.of_nat 0). lia.
      * apply Z.mod_pos_bound. apply Z.pow_pos_nonneg; lia.
      * right. rewrite mod_pow10_succ.
        rewrite (Z.mul_comm 10), Z.mod_add by lia.
        now rewrite Z.mod_mod by lia.
Qed.

(** Reading a text of digits, a point, digits. *)
Lemma read_decimal_after_point (ds : str) :
  forallb is_digit ds = true ->
  forall m k,
    read_decimal ds true m k = (decimal_value ds m, k + Z.of_nat (List.length ds)).
Proof.
  induction ds as [ | c ds IH]; intros H m k.
  - simpl. f_equal. lia.
  - simpl in H. apply andb_prop in H. destruct H as [Hc Hds].
    cbn [read_decimal]. rewrite Hc, (IH Hds).
    unfold decimal_value. cbn [fold_left List.length]. f_equal. lia.
Qed.

Lemma read_decimal_point (a b : str) :
  forallb is_digit a = true -> forallb is_digit b = true ->
  read_decimal (a ++ Ch.dot :: b) false 0 0
  = (decimal_value (a ++ b) 0, Z.of_nat (List.length b)).
Proof.
  intros Ha Hb. rewrite decimal_value_app.
  generalize 0 at 1 3 as m.
  induction a as [ | c a IH]; intros m.
  - cbn [app read_decimal]. replace (is_digit Ch.dot) with false by reflexivity.
    rewrite (read_decimal_after_point b Hb). reflexivity.
  - simpl in Ha. apply andb_prop in Ha. destruct Ha as [Hc Ha].
    cbn [app read_decimal]. rewrite Hc. rewrite (IH Ha).
    reflexivity.
Qed.
End TrailingZeros.

(* ================================================================== *)
(** * Results in plain notation *)

Section PlainResult.
Import Float Decimal.
Local Open Scope Z_scope.

Lemma point_literal (a b : str) :
  a <> [] -> forallb is_digit a = true -> forallb is_digit b = true ->
  is_literal (a ++ Ch.dot :: b) = true.
Proof.
  destruct a as [ | d ds]; [congruence | ]. intros _ Ha Hb.
  cbn [forallb] in Ha. apply andb_prop in Ha. destruct Ha as [Hd Hds].
  cbn [app is_literal]. rewrite Hd.
  assert (E : skip_digits (ds ++ Ch.dot :: b) = Ch.dot :: b).
  { clear Hd. induction ds as [ | c ds IH]; [reflexivity | ].
    cbn [forallb] in Hds. apply andb_prop in Hds. destruct Hds as [Hc Hds].
    cbn [app skip_digits]. rewrite Hc. now apply IH. }
  rewrite E, Hb. reflexivity.
Qed.

Lemma digits_of_length (n : Z) :
  0 <= n < 10 ^ 8 -> (1 <= List.length (digits_of n) <= 28)%nat.
Proof.
  intros Hn. unfold digits_of.
  pose proof (digits_go_length (Z.to_nat (Z.log2 n)) n []) as H. simpl in H.
  assert (Z.log2 n < 27).
  { destruct (Z.eq_dec n 0) as [-> | Hz]; [reflexivity | ].
    apply Z.log2_lt_pow2; lia. }
  pose proof (Z.log2_nonneg n). lia.
Qed.

(** The eight-decimal text of a number with a whole part below
    100000000, once its trailing zeros and a trailing point are
    stripped: the whole part alone when the eight decimals are all
    zeros, else the whole part, a point, and the decimals up to the last
    one that is not zero. *)
Lemma strip_fixed (N : Z) :
  0 <= N < 10 ^ 16 ->
  let a := N / 10 ^ 8 in
  let s := rstrip Ch.dot (rstrip Ch.zero (digits_of a ++ [Ch.dot] ++ digits_fixed 8 N)) in
  (N mod 10 ^ 8 = 0 /\ s = digits_of a)
  \/ (N mod 10 ^ 8 <> 0
      /\ exists (j : nat) (v : Z),
           (1 <= j <= 8)%nat /\ 0 < v < 10 ^ Z.of_nat j
           /\ N * 10 ^ Z.of_nat j = (a * 10 ^ Z.of_nat j + v) * 10 ^ 8
           /\ s = digits_of a ++ Ch.dot :: digits_fixed j v).
Proof.
  intros HN a s.
  assert (Ha : 0 <= a < 10 ^ 8).
  { unfold a. split; [apply Z.div_pos; lia | ].
    apply Z.div_lt_upper_bound; [reflexivity | ].
    change (10 ^ 8 * 10 ^ 8) with (10 ^ 16). lia. }
  pose proof (digits_of_length a Ha) as Hlen.
  pose proof (digits_of_digits a) as Hdig.
  assert (Hnodot : forall ds, forallb is_digit ds = true -> count Ch.dot ds = 0%nat).
  { induction ds as [ | c ds IH]; [reflexivity | ].
    cbn [forallb count]. intros H. apply andb_prop in H. destruct H as [Hc Hds].
    replace (chr_eqb c Ch.dot) with false; [now apply IH | ].
    symmetry. apply N.eqb_neq. intros ->. discriminate Hc. }
  destruct (rstrip_zeros_fixed 8 N) as (j & v & Hj & Hs & Hv & Hr & Hl).
  change (Z.of_nat 8) with 8 in Hv.
  destruct j as [ | j'].
  - left.
    assert (v = 0) by (change (10 ^ Z.of_nat 0) with 1 in Hr; lia). subst v.
    split; [lia | ].
    unfold s. rewrite app_assoc.
    rewrite (rstrip_app_dropped Ch.zero _ _ Hs).
    assert (E1 : rstrip Ch.zero [Ch.dot] = [Ch.dot]) by reflexivity.
    rewrite rstrip_app_kept; rewrite E1; [ | discriminate].
    rewrite rstrip_app_dropped by reflexivity.
    apply rstrip_absent. now apply Hnodot.
  - right.
    assert (Hv0 : v <> 0).
    { destruct Hl as [Hl | Hl]; [discriminate | ]. intros ->. now apply Hl. }
    assert (HP : 0 < 10 ^ Z.of_nat (8 - S j')) by (apply Z.pow_pos_nonneg; lia).
    split; [rewrite Hv; nia | ].
    exists (S j'), v. split; [lia | ]. split; [lia | ]. split.
    + pose proof (Z.div_mod N (10 ^ 8) ltac:(discriminate)) as Hdm.
      fold a in Hdm. rewrite Hv in Hdm.
      assert (E8 : 10 ^ Z.of_nat (8 - S j') * 10 ^ Z.of_nat (S j') = 10 ^ 8).
      { rewrite <- Z.pow_add_r by lia. f_equal. lia. }
      set (P := 10 ^ Z.of_nat (S j')) in *.
      set (Q := 10 ^ Z.of_nat (8 - S j')) in *.
      set (T := 10 ^ 8) in *.
      clearbody P Q T a. clear - Hdm E8.
      rewrite Hdm.
      transitivity (T * a * P + v * (Q * P)); [ring | rewrite E8; ring].
    + assert (Hne : digits_fixed (S j') v <> []).
      { intros E. pose proof (digits_fixed_length (S j') v) as H.
        rewrite E in H. discriminate H. }
      unfold s. rewrite app_assoc.
      rewrite rstrip_app_kept; rewrite Hs; [ | exact Hne].
      rewrite rstrip_app_kept;
        rewrite (rstrip_absent Ch.dot _ (Hnodot _ (digits_fixed_digits (S j') v)));
        [ | exact Hne].
      rewrite <- app_assoc. reflexivity.
Qed.

Lemma shown_or_zero (s : str) :
  s <> [] -> match s with [] => u"0" | _ :: _ => s end = s.
Proof. destruct s; [congruence | reflexivity]. Qed.

Lemma is_integer_fraction (m : positive) (k : Z) :
  0 < k -> is_integer (S754_finite false m (- k)) = (Zpos m mod 2 ^ k =? 0).
Proof. intros Hk. destruct k; try lia. reflexivity. Qed.

Lemma to_int_fraction (m : positive) (k : Z) :
  0 < k -> to_int (S754_finite false m (- k)) = Zpos m / 2 ^ k.
Proof. intros Hk. destruct k; try lia. reflexivity. Qed.

Lemma format_f8_fraction (m : positive) (k : Z) :
  0 < k ->
  format_f8 (S754_finite false m (- k))
  = digits_of (div_half_even (Zpos m * 10 ^ 8) (2 ^ k) / 10 ^ 8)
    ++ [Ch.dot] ++ digits_fixed 8 (div_half_even (Zpos m * 10 ^ 8) (2 ^ k)).
Proof. intros Hk. destruct k; try lia. reflexivity. Qed.

Variable float_pow : float -> float -> Res float.

(** The display form of a positive float shown in plain notation
    evaluates to itself, and is the display form of the float it
    writes. *)
Lemma evaluate_plain (fuel : nat) (m : positive) (e : Z) :
  bounded prec emax m e = true ->
  scientific (S754_finite false m e) = false ->
  let r := format_float (S754_finite false m e) in
  evaluate float_pow fuel r = Some r
  /\ format_float (float_of_literal r) = r.
Proof.
  intros Hb Hs r.
  destruct (plain_range m e Hb Hs) as (Hk & Hm & Hlo & Hhi).
  pose proof (reread_plain m) as HR.
  set (k := - e) in *. assert (Ee : e = - k) by lia.
  clearbody k. subst e.
  specialize (fun p q => HR p q (- k) Hb Hs). cbv zeta in HR.
  rewrite Z.opp_involutive in HR.
  pose proof (pow2_pos k ltac:(lia)) as HPk.
  destruct (div_half_even_spec (Zpos m * 10 ^ 8) (2 ^ k) HPk) as [HN _].
  assert (HNr : 10 ^ 4 <= div_half_even (Zpos m * 10 ^ 8) (2 ^ k) <= 10 ^ 16 - 1).
  { apply (plain_rounding_range (Zpos m) (2 ^ k) (2 ^ (66 - k)) (2 ^ (k - 26)));
      try (apply pow2_pos; lia); try assumption.
    - rewrite <- Z.pow_add_r by lia. f_equal. lia.
    - rewrite <- Z.pow_add_r by lia. f_equal. lia. }
  clear HN.
  unfold r, format_float. rewrite Hs.
  rewrite is_integer_fraction, to_int_fraction, format_f8_fraction by lia.
  set (N := div_half_even (Zpos m * 10 ^ 8) (2 ^ k)) in *.
  destruct (Zpos m mod 2 ^ k =? 0) eqn:Ei.
  { apply evaluate_whole. split; [apply Z.div_pos; lia | ].
    apply Z.div_lt_upper_bound; [exact HPk | ].
    change (2 ^ 26) with 67108864 in Hhi. change (10 ^ 8) with 100000000.
    set (PK := 2 ^ k) in *. clearbody PK. clear - Hhi HPk. lia. }
  assert (HN16 : 0 <= N < 10 ^ 16).
  { change (10 ^ 4) with 10000 in HNr.
    change (10 ^ 16 - 1) with 9999999999999999 in HNr.
    change (10 ^ 16) with 10000000000000000. clearbody N. clear - HNr. lia. }
  assert (Ha : 0 <= N / 10 ^ 8 < 10 ^ 8).
  { split; [apply Z.div_pos; [lia | reflexivity] | ].
    apply Z.div_lt_upper_bound; [reflexivity | ].
    change (10 ^ 8 * 10 ^ 8) with (10 ^ 16). lia. }
  pose proof (digits_of_length _ Ha) as Hlen.
  destruct (strip_fixed N HN16) as [[Hz Es] | (Hnz & j & v & Hj & Hv & HNV & Es)];
    cbv zeta in Es; rewrite Es.
  { rewrite shown_or_zero
      by (intros E; rewrite E in Hlen; cbn [List.length] in Hlen; lia).
    replace (digits_of (N / 10 ^ 8)) with (int_str (N / 10 ^ 8)).
    - now apply evaluate_whole.
    - unfold int_str.
      now replace (N / 10 ^ 8 <? 0) with false by (symmetry; apply Z.ltb_ge; lia). }
  rewrite shown_or_zero by (intros E; apply app_eq_nil in E; destruct E; discriminate).
  set (a := N / 10 ^ 8) in *.
  set (t := digits_of a ++ Ch.dot :: digits_fixed j v).
  assert (Hlit : is_literal t = true).
  { apply point_literal; [ | apply digits_of_digits | apply digits_fixed_digits].
    intros E. rewrite E in Hlen. cbn [List.length] in Hlen. lia. }
  assert (Hshort : (len t <= 100)%nat).
  { unfold t, len. rewrite length_app. cbn [List.length].
    rewrite digits_fixed_length. lia. }
  assert (Hfl : format_float (float_of_literal t) = t).
  { unfold float_of_literal, t.
    rewrite read_decimal_point by (apply digits_of_digits || apply digits_fixed_digits).
    rewrite decimal_value_app, digits_of_value, decimal_value_fixed by lia.
    rewrite digits_fixed_length, (Z.mod_small v) by lia.
    assert (HP : 0 < 10 ^ Z.of_nat j) by (apply Z.pow_pos_nonneg; lia).
    assert (HV : 0 < a * 10 ^ Z.of_nat j + v).
    { pose proof (Z.mul_nonneg_nonneg a (10 ^ Z.of_nat j)). lia. }
    destruct (a * 10 ^ Z.of_nat j + v) as [ | p | p] eqn:EV; try lia.
    unfold of_decimal.
    destruct (- Z.of_nat j) as [ | nj | nj] eqn:Ej; try lia.
    rewrite <- Ej, Z.opp_involutive.
    destruct (HR p (Z.to_pos (10 ^ Z.of_nat j))) as (M & K & Ey & HK & Hsy & Hfy & HNy).
    - rewrite Z2Pos.id by exact HP. rewrite HNV. reflexivity.
    - exact Hnz.
    - rewrite Ey. unfold format_float. rewrite Hsy.
      rewrite is_integer_fraction, format_f8_fraction by lia.
      rewrite (proj2 (Z.eqb_neq _ _) Hfy), HNy.
      fold a. rewrite Es.
      apply shown_or_zero.
      intros E; apply app_eq_nil in E; destruct E; discriminate. }
  split; [ | exact Hfl].
  rewrite evaluate_literal by assumption. now rewrite Hfl.
Qed.

(** The same for every float that is not negative and is shown in plain
    notation. *)
Lemma evaluate_shown (fuel : nat) (x : float) :
  valid_binary prec emax x = true ->
  leb zero x = true ->
  scientific x = false ->
  evaluate float_pow fuel (format_float x) = Some (format_float x)
  /\ format_float (float_of_literal (format_float x)) = format_float x.
Proof.
  intros Hv Hx Hs.
  destruct x as [s | s | | s m e].
  - replace (format_float (S754_zero s)) with (int_str 0)
      by (destruct s; reflexivity).
    apply evaluate_whole. split; [lia | reflexivity].
  - destruct s; [discriminate Hx | discriminate Hs].
  - discriminate Hx.
  - destruct s; [discriminate Hx | ].
    now apply evaluate_plain.
Qed.
End PlainResult.

(** C8. A result that is the display form of a float that is not
    negative and is shown in plain notation (zero, or from 0.0001 up to
    but not 100000000) evaluates to itself, and the display form of the
    float it writes is the same text. *)
Theorem plain_result_evaluates_to_itself :
  forall float_pow (x : Float.float) (r : str),
    valid_binary Float.prec Float.emax x = true ->
    Float.leb Float.zero x = true ->
    scientific x = false ->
    r = format_float x ->
    returns float_pow r r
    /\ format_float (Decimal.float_of_literal r) = r.
Proof.
  intros float_pow x r Hv Hx Hs ->.
  destruct (evaluate_shown float_pow 1 x Hv Hx Hs) as [H1 H2].
  split; [now exists 1%nat | exact H2].
Qed.

Lemma plain_result_evaluates_to_itself_witness :
  for_every_pow (fun float_pow =>
    returns float_pow (u"0.33333333") (u"0.33333333")
    /\ format_float (Decimal.float_of_literal (u"0.33333333")) = u"0.33333333").
Proof.
  intros float_pow.
  apply (plain_result_evaluates_to_itself float_pow (Float.of_ratio 1 3)
           (u"0.33333333")); vm_compute; reflexivity.
Defined.

(** C8, the claim as stated fails: "3-5" evaluates to "-2", and "-2"
    evaluates to "2"; "100000000" evaluates to "1.00000000e+08", and that
    text evaluates to "9". *)
Lemma signed_result_does_not_evaluate_to_itself :
  for_every_pow (fun float_pow =>
    returns float_pow (u"3-5") (u"-2")
    /\ returns float_pow (u"-2") (u"2")
    /\ ~ returns float_pow (u"-2") (u"-2")
    /\ returns float_pow (u"100000000") (u"1.00000000e+08")
    /\ returns float_pow (u"1.00000000e+08") (u"9")).
Proof.
  intros float_pow.
  assert (H : returns float_pow (u"-2") (u"2")) by evaluates.
  split; [evaluates | split; [exact H | split; [other_outcome H | ]]].
  split; evaluates.
Qed.

(* ================================================================== *)
(** * The checks before the evaluation *)

Section Invalid.
Import Decimal.

Lemma many_inv {A : Type} (p : char -> bool) (s : str) (k : str -> option A) (a : A) :
  many p s k = Some a ->
  exists mt rest, s = mt ++ rest /\ forallb p mt = true /\ k rest = Some a.
Proof.
  revert a. induction s as [ | x s IH]; intros a; cbn [many].
  - intros H. now exists [], [].
  - destruct (p x) eqn:Hx.
    + destruct (many p s k) as [a' | ] eqn:E.
      * intros H. injection H as <-.
        destruct (IH a' eq_refl) as (mt & rest & -> & Hmt & Hk).
        exists (x :: mt), rest. cbn [forallb app]. now rewrite Hx, Hmt.
      * intros H. now exists [], (x :: s).
    + intros H. now exists [], (x :: s).
Qed.

(** The pattern of line 126 matches at the start of a text exactly when
    the text starts with digits, a point, digits and a point. *)
Lemma two_points_at (s : str) :
  (exists rest caps, rx_at Pat.two_points s = Some (rest, caps))
  <-> exists d1 d2 post,
        s = d1 ++ Ch.dot :: d2 ++ Ch.dot :: post
        /\ d1 <> [] /\ d2 <> []
        /\ forallb is_digit d1 = true /\ forallb is_digit d2 = true.
Proof.
  unfold rx_at, Pat.two_points, Many1, Pat.digit. split.
  - intros (rest & caps & H). cbn [rx_match] in H.
    destruct s as [ | c s]; [discriminate | ].
    destruct (is_digit c) eqn:Hc; [ | discriminate].
    apply many_inv in H. destruct H as (m1 & r1 & -> & Hm1 & H).
    destruct r1 as [ | x r1]; [discriminate | ].
    destruct (chr_eqb x Ch.dot) eqn:Hx; [ | discriminate].
    apply N.eqb_eq in Hx. subst x.
    destruct r1 as [ | c2 r1]; [discriminate | ].
    destruct (is_digit c2) eqn:Hc2; [ | discriminate].
    apply many_inv in H. destruct H as (m2 & r2 & -> & Hm2 & H).
    destruct r2 as [ | y r2]; [discriminate | ].
    destruct (chr_eqb y Ch.dot) eqn:Hy; [ | discriminate].
    apply N.eqb_eq in Hy. subst y.
    exists (c :: m1), (c2 :: m2), r2. cbn [forallb app].
    rewrite Hc, Hm1, Hc2, Hm2. repeat split; discriminate.
  - intros (d1 & d2 & post & -> & H1 & H2 & Hd1 & Hd2).
    destruct d1 as [ | c d1]; [congruence | ].
    destruct d2 as [ | c2 d2]; [congruence | ].
    cbn [forallb] in Hd1, Hd2.
    apply andb_prop in Hd1. destruct Hd1 as [Hc Hd1].
    apply andb_prop in Hd2. destruct Hd2 as [Hc2 Hd2].
    exists post, []. cbn [rx_match app]. rewrite Hc.
    apply many_greedy; [exact Hd1 | reflexivity | ].
    replace (chr_eqb Ch.dot Ch.dot) with true by reflexivity.
    cbn [app]. rewrite Hc2.
    apply many_greedy; [exact Hd2 | reflexivity | ].
    reflexivity.
Qed.

Lemma two_points_search (expr : str) :
  re_search Pat.two_points expr = true <-> two_points_in expr.
Proof.
  unfold two_points_in. induction expr as [ | c expr IH]; cbn [re_search].
  - destruct (rx_at Pat.two_points []) as [[rest caps] | ] eqn:E.
    + discriminate E.
    + split; [discriminate | ].
      intros (pre & d1 & d2 & post & H & _).
      apply (f_equal (@List.length char)) in H.
      rewrite !length_app in H. cbn [List.length] in H.
      rewrite length_app in H. cbn [List.length] in H. lia.
  - destruct (rx_at Pat.two_points (c :: expr)) as [[rest caps] | ] eqn:E.
    + split; [intros _ | reflexivity].
      destruct (proj1 (two_points_at (c :: expr))) as (d1 & d2 & post & H);
        [now exists rest, caps | ].
      now exists [], d1, d2, post.
    + rewrite IH. split.
      * intros (pre & d1 & d2 & post & -> & H). now exists (c :: pre), d1, d2, post.
      * intros (pre & d1 & d2 & post & Hs & H).
        destruct pre as [ | x pre].
        -- exfalso.
           destruct (proj2 (two_points_at (c :: expr))) as (rest & caps & E');
             [now exists d1, d2, post | ].
           congruence.
        -- injection Hs as -> ->. now exists pre, d1, d2, post.
Qed.
End Invalid.

Lemma input_checks_accepted (expr : str) :
  (len expr <= 100)%nat
  /\ count Ch.lparen expr = count Ch.rparen expr
  /\ ~ two_points_in expr ->
  accepted expr = true.
Proof.
  intros (Hl & Hp & Hn). unfold accepted.
  replace (100 <? len expr)%nat with false by (symmetry; apply Nat.ltb_ge; exact Hl).
  rewrite Hp, Nat.eqb_refl.
  destruct (re_search Pat.two_points expr) eqn:E; [ | reflexivity].
  exfalso. apply Hn. now apply two_points_search.
Qed.

(** X1. The three checks of [evaluate_expression] come before any
    evaluation, in this order, and leave the history as it is: a text of
    more than 100 characters gives "Input too long"; else a text with as
    many "(" as ")" missing gives "Unbalanced parentheses"; else a text
    that holds digits of "0123456789", a point, such digits and a point
    in a row gives "Invalid number"; every other text of characters of
    the buttons and of an ASCII keyboard is accepted. *)
Theorem input_checks :
  forall float_pow (fuel : nat) (history : list HistoryItem) (expr : str),
    ((100 < len expr)%nat ->
     evaluate_expression float_pow fuel history expr
     = Some (u"Input too long", history))
    /\ ((len expr <= 100)%nat ->
        count Ch.lparen expr <> count Ch.rparen expr ->
        evaluate_expression float_pow fuel history expr
        = Some (u"Unbalanced parentheses", history))
    /\ ((len expr <= 100)%nat ->
        count Ch.lparen expr = count Ch.rparen expr ->
        two_points_in expr ->
        evaluate_expression float_pow fuel history expr
        = Some (u"Invalid number", history))
    /\ (forallb typed expr = true ->
        (accepted expr = true
         <-> (len expr <= 100)%nat
             /\ count Ch.lparen expr = count Ch.rparen expr
             /\ ~ two_points_in expr)).
Proof.
  intros float_pow fuel history expr. unfold evaluate_expression, accepted.
  destruct (Nat.ltb_spec 100 (len expr)) as [Hl | Hl].
  - split; [reflexivity | ].
    split; [lia | ]. split; [lia | ]. intros _.
    split; [discriminate | lia].
  - split; [lia | ].
    destruct (Nat.eqb_spec (count Ch.lparen expr) (count Ch.rparen expr)) as [Hp | Hp].
    + split; [congruence | ].
      pose proof (two_points_search expr) as Hs.
      destruct (re_search Pat.two_points expr).
      * split; [reflexivity | ]. intros _.
        split; [discriminate | ]. intros (_ & _ & H). exfalso. apply H, Hs. reflexivity.
      * split.
        -- intros _ _ H. apply Hs in H. discriminate.
        -- intros _. split; [intros _ | reflexivity].
           split; [exact Hl | split; [exact Hp | ]].
           intros H. apply Hs in H. discriminate.
    + split; [reflexivity | ].
      split; [congruence | ]. intros _.
      split; [discriminate | tauto].
Qed.

Lemma input_checks_witness :
  for_every_pow (fun float_pow =>
    evaluate_expression float_pow 0 [] (u"1.2.3") = Some (u"Invalid number", [])
    /\ (accepted (u"2×(3+4)") = true
        <-> (len (u"2×(3+4)") <= 100)%nat
            /\ count Ch.lparen (u"2×(3+4)") = count Ch.rparen (u"2×(3+4)")
            /\ ~ two_points_in (u"2×(3+4)"))).
Proof.
  intros float_pow. split.
  - destruct (input_checks float_pow 0 [] (u"1.2.3")) as (_ & _ & H & _).
    apply H; [vm_compute; lia | reflexivity | ].
    exists [], (u"1"), (u"2"), (u"3"). repeat split; discriminate.
  - destruct (input_checks float_pow 0 [] (u"2×(3+4)")) as (_ & _ & _ & H).
    apply H. reflexivity.
Defined.

(* ================================================================== *)
(** * The outcomes *)

Lemma bind_ok {A B : Type} (m : Res A) (k : A -> Res B) (b : B) :
  (x <- m ;; k x) = Ok b -> exists a, m = Ok a /\ k a = Ok b.
Proof. destruct m as [a | e | ]; simpl; intros H; try discriminate. now exists a. Qed.

Section Outcomes.
Import Float Decimal.

Lemma digits_no_dot (ds : str) : forallb is_digit ds = true -> count Ch.dot ds = 0%nat.
Proof. apply count_outside. reflexivity. Qed.

Lemma rstrip_forallb (p : char -> bool) (c : char) (s : str) :
  forallb p s = true -> forallb p (rstrip c s) = true.
Proof.
  induction s as [ | x s IH]; [reflexivity | ].
  cbn [forallb rstrip]. intros H. apply andb_prop in H. destruct H as [Hx Hs].
  specialize (IH Hs).
  destruct (rstrip c s) as [ | y t].
  - destruct (chr_eqb x c); [reflexivity | ]. cbn [forallb]. now rewrite Hx.
  - cbn [forallb] in IH |- *. now rewrite Hx, IH.
Qed.

(** What is left of an eight-decimal text once its trailing zeros and a
    trailing point are stripped starts with the sign and the whole
    part. *)
Lemma stripped_keeps_whole (pre whole frac : str) :
  whole <> [] -> forallb is_digit whole = true -> forallb is_digit frac = true ->
  exists rest,
    rstrip Ch.dot (rstrip Ch.zero (pre ++ whole ++ [Ch.dot] ++ frac))
    = pre ++ whole ++ rest.
Proof.
  intros Hw Hdw Hdf.
  assert (Ew : rstrip Ch.dot whole = whole)
    by (apply rstrip_absent; now apply digits_no_dot).
  replace (pre ++ whole ++ [Ch.dot] ++ frac) with (((pre ++ whole) ++ [Ch.dot]) ++ frac)
    by (now rewrite <- !app_assoc).
  destruct (rstrip Ch.zero frac) as [ | y t] eqn:Ef.
  - exists []. rewrite (rstrip_app_dropped Ch.zero _ _ Ef).
    assert (E1 : rstrip Ch.zero [Ch.dot] = [Ch.dot]) by reflexivity.
    rewrite rstrip_app_kept; rewrite E1; [ | discriminate].
    rewrite rstrip_app_dropped by reflexivity.
    rewrite rstrip_app_kept; rewrite Ew; [ | exact Hw].
    now rewrite app_nil_r.
  - exists (Ch.dot :: y :: t).
    pose proof (rstrip_forallb is_digit Ch.zero frac Hdf) as Hd. rewrite Ef in Hd.
    rewrite rstrip_app_kept; rewrite Ef; [ | discriminate].
    rewrite rstrip_app_kept;
      rewrite (rstrip_absent Ch.dot _ (digits_no_dot _ Hd)); [ | discriminate].
    now rewrite <- !app_assoc.
Qed.

Lemma digits_of_head (n : Z) :
  exists d ds, digits_of n = d :: ds /\ is_digit d = true.
Proof.
  pose proof (digits_of_digits n) as Hd.
  pose proof (digits_go_length (Z.to_nat (Z.log2 n)) n []) as Hl.
  unfold digits_of in *.
  destruct (digits_go (Z.to_nat (Z.log2 n)) n []) as [ | d ds]; [simpl in Hl; lia | ].
  exists d, ds. cbn [forallb] in Hd. apply andb_prop in Hd. tauto.
Qed.

Lemma signed_head (s : bool) (d : char) (rest : str) :
  is_digit d = true ->
  exists c t, sign_str s ++ d :: rest = c :: t /\ heads c = true.
Proof.
  intros Hd. destruct s.
  - exists Ch.minus, (d :: rest). split; reflexivity.
  - exists d, rest. split; [reflexivity | ]. unfold heads. now rewrite Hd.
Qed.

Lemma stripped_f8 (x : float) :
  exists c t,
    rstrip Ch.dot (rstrip Ch.zero (format_f8 x)) = c :: t /\ heads c = true.
Proof.
  destruct x as [s | s | | s m e].
  - destruct s; [exists Ch.minus, (u"0") | exists Ch.zero, []]; split; reflexivity.
  - destruct s; [exists Ch.minus, (u"inf") | exists 105%N, (u"nf")]; split; reflexivity.
  - exists 110%N, (u"an"). split; reflexivity.
  - cbv beta iota zeta delta [format_f8].
    set (n := div_half_even (num m e * 10 ^ 8) (den e)).
    destruct (digits_of_head (n / 10 ^ 8)) as (d & ds & Ed & Hd).
    destruct (stripped_keeps_whole (sign_str s) (digits_of (n / 10 ^ 8))
                (digits_fixed 8 n)) as (rest & ->).
    + rewrite Ed. discriminate.
    + apply digits_of_digits.
    + apply digits_fixed_digits.
    + rewrite Ed. cbn [app]. now apply signed_head.
Qed.

Lemma format_float_head (x : float) :
  exists c t, format_float x = c :: t /\ heads c = true.
Proof.
  unfold format_float.
  destruct (scientific x) eqn:Hs.
  - destruct x as [s | s | | s m e].
    + destruct s; discriminate Hs.
    + destruct s; [exists Ch.minus, (u"inf") | exists 105%N, (u"nf")]; split; reflexivity.
    + discriminate Hs.
    + destruct (format_e8_shape s m e) as (d & frac & ex & -> & Hd & _).
      now apply signed_head.
  - destruct (is_integer x).
    + unfold int_str. destruct (to_int x <? 0)%Z.
      * exists Ch.minus, (digits_of (- to_int x)). split; reflexivity.
      * destruct (digits_of_head (to_int x)) as (d & ds & -> & Hd).
        exists d, ds. split; [reflexivity | ]. unfold heads. now rewrite Hd.
    + destruct (stripped_f8 x) as (c & t & -> & Hc). now exists c, t.
Qed.
End Outcomes.

(** X2. An outcome of [evaluate_expression] is either one of the six
    messages, and then the history is left as it is, or the display form
    of a float, and then the expression and this result are put in front
    of the history.  A display form is never empty and never one of the
    messages, so the two cases are told apart by the outcome. *)
Theorem outcome_and_history :
  forall float_pow (fuel : nat) (history history' : list HistoryItem) (expr r : str),
    evaluate_expression float_pow fuel history expr = Some (r, history') ->
    (In r messages /\ history' = history
     /\ forall x, r <> format_float x)
    \/ (~ In r messages /\ r <> []
        /\ (exists x, r = format_float x)
        /\ history' = {| expression := expr; result := r |} :: history).
Proof.
  intros float_pow fuel history history' expr r.
  assert (Hmsg : forall x, ~ In (format_float x) messages).
  { intros x H. destruct (format_float_head x) as (c & t & E & Hc).
    rewrite E in H. unfold messages in H. cbn [In] in H.
    repeat (destruct H as [H | H];
            [injection H as <- _; discriminate Hc | ]).
    exact H. }
  assert (Hleft : forall m h, In m messages -> h = history ->
             In m messages /\ h = history /\ forall x, m <> format_float x).
  { intros m h Hm ->. split; [exact Hm | split; [reflexivity | ]].
    intros x ->. now apply (Hmsg x). }
  unfold evaluate_expression.
  destruct (100 <? len expr)%nat.
  { intros H. injection H as <- <-. left. apply Hleft; [ | reflexivity].
    unfold messages. cbn [In]. tauto. }
  destruct (negb (count Ch.lparen expr =? count Ch.rparen expr)%nat).
  { intros H. injection H as <- <-. left. apply Hleft; [ | reflexivity].
    unfold messages. cbn [In]. tauto. }
  destruct (re_search Pat.two_points expr).
  { intros H. injection H as <- <-. left. apply Hleft; [ | reflexivity].
    unfold messages. cbn [In]. tauto. }
  destruct (evaluate_body float_pow fuel expr) as [formatted | e | ] eqn:E;
    [ | | discriminate].
  - intros H. injection H as <- <-. right.
    unfold evaluate_body in E.
    apply bind_ok in E. destruct E as (e1 & _ & E).
    apply bind_ok in E. destruct E as (e2 & _ & E).
    apply bind_ok in E. destruct E as (v & _ & E).
    destruct v as [x | ]; [ | discriminate E].
    injection E as <-.
    split; [apply Hmsg | ].
    split; [ | split; [now exists x | reflexivity]].
    destruct (format_float_head x) as (c & t & -> & _). discriminate.
  - intros H. injection H as <- <-. left. apply Hleft; [ | reflexivity].
    unfold messages. destruct e as [msg | | | ]; cbn [handler In]; try tauto.
    destruct (contains (u"math domain error") msg); tauto.
Qed.

Lemma outcome_and_history_witness :
  for_every_pow (fun float_pow =>
    (In (u"20") messages /\ [ {| expression := u"2+3×4"; result := u"20" |} ] = []
     /\ forall x, u"20" <> format_float x)
    \/ (~ In (u"20") messages /\ u"20" <> []
        /\ (exists x, u"20" = format_float x)
        /\ [ {| expression := u"2+3×4"; result := u"20" |} ]
           = [ {| expression := u"2+3×4"; result := u"20" |} ])).
Proof.
  intros float_pow.
  apply (outcome_and_history float_pow 1 [] _ (u"2+3×4") (u"20")).
  vm_compute. reflexivity.
Defined.

(** X3. The text of a float with eight decimals, once its trailing zeros
    and a trailing point are stripped, is never empty: the fallback "0"
    of lines 159-160 is never used, and the display form of a float that
    is neither scientific nor whole is the stripped text itself. *)
Theorem stripped_text_is_never_empty :
  forall x : Float.float,
    rstrip Ch.dot (rstrip Ch.zero (Decimal.format_f8 x)) <> []
    /\ (scientific x = false -> Float.is_integer x = false ->
        format_float x = rstrip Ch.dot (rstrip Ch.zero (Decimal.format_f8 x))).
Proof.
  intros x. destruct (stripped_f8 x) as (c & t & E & _).
  split; [rewrite E; discriminate | ].
  intros Hs Hi. unfold format_float. rewrite Hs, Hi, E. reflexivity.
Qed.

(* ================================================================== *)
(** * Expressions without a number *)

Section Numberless.
Import Decimal Tokens.

Lemma numberless_count (c : char) (s : str) :
  numberless c = false -> forallb numberless s = true -> count c s = 0%nat.
Proof. apply count_outside. Qed.

Lemma operator_token (c : char) : Pat.operator c = true -> is_operator [c] = true.
Proof.
  unfold Pat.operator. intros H.
  repeat (apply orb_prop in H; destruct H as [H | H];
          [ | apply N.eqb_eq in H; subst c; reflexivity]).
  apply N.eqb_eq in H. subst c. reflexivity.
Qed.

(** The tokens of a text without digits are operators. *)
Lemma tokens_without_digits (s : str) :
  forallb (fun c => negb (is_digit c)) s = true ->
  Forall (fun t => is_operator t = true) (findall_go Pat.token 0 s).
Proof.
  induction s as [ | c s IH]; [constructor | ].
  cbn [forallb]. intros H. apply andb_prop in H. destruct H as [Hc Hs].
  apply negb_true_iff in Hc. specialize (IH Hs).
  cbn [findall_go].
  assert (E : rx_at Pat.token (c :: s)
              = if Pat.operator c then Some (s, [[c]]) else None).
  { unfold rx_at, Pat.token, Pat.number, Many1, Pat.digit. cbn [rx_match].
    rewrite Hc. destruct (Pat.operator c); [ | reflexivity].
    cbn [app List.length]. rewrite Nat.sub_succ_l, Nat.sub_diag by lia.
    reflexivity. }
  rewrite E. destruct (Pat.operator c) eqn:Ho; [ | exact IH].
  rewrite Nat.sub_diag. constructor; [ | exact IH].
  now apply operator_token.
Qed.

Variable float_pow : Float.float -> Float.float -> Res Float.float.

Lemma reduce_operators (ts : list str) :
  Forall (fun t => is_operator t = true) ts ->
  forall st, exists o,
    reduce st ts
    = Ok {| current_value := current_value st; last_operator := o |}.
Proof.
  induction 1 as [ | t ts Ht _ IH]; intros st.
  - exists (last_operator st). destruct st; reflexivity.
  - cbn [reduce]. rewrite (step_operator _ _ Ht). cbn [bind].
    destruct (IH {| current_value := current_value st; last_operator := Some t |})
      as (o & ->).
    now exists o.
Qed.

Lemma replace_forallb (p : char -> bool) (c : char) (t s : str) :
  forallb p t = true -> forallb p s = true -> forallb p (replace c t s) = true.
Proof.
  intros Ht. induction s as [ | x s IH]; [reflexivity | ].
  cbn [forallb replace]. intros H. apply andb_prop in H. destruct H as [Hx Hs].
  destruct (chr_eqb x c).
  - rewrite forallb_app, Ht. now apply IH.
  - cbn [forallb]. rewrite Hx. now apply IH.
Qed.

Lemma forallb_weaken (p q : char -> bool) (s : str) :
  (forall c, p c = true -> q c = true) -> forallb p s = true -> forallb q s = true.
Proof.
  intros Hpq. induction s as [ | x s IH]; [reflexivity | ].
  cbn [forallb]. intros H. apply andb_prop in H. destruct H as [Hx Hs].
  now rewrite (Hpq x Hx), IH.
Qed.

(** The simple evaluator returns [None] for a text without a number. *)
Lemma evaluate_simple_numberless (fuel : nat) (expr : str) :
  forallb numberless expr = true ->
  evaluate_simple_expression float_pow fuel expr = Ok None.
Proof.
  intros H. unfold evaluate_simple_expression, rewrite_simple, replace_symbols.
  rewrite (replace_absent Ch.times) by (now apply numberless_count).
  set (s := replace Ch.divide (u"/") expr).
  assert (Hs : forallb numberless s = true).
  { apply replace_forallb; [reflexivity | exact H]. }
  rewrite (replace_absent Ch.pi) by (now apply numberless_count).
  rewrite (replace_absent Ch.caret) by (now apply numberless_count).
  unfold re_sub.
  rewrite (sub_go_absent Ch.sqrt)
    by (try (vm_compute; lia); now apply numberless_count).
  cbn [bind].
  rewrite while_done
    by (apply (contains_absent Ch.star); [now apply numberless_count | now left]).
  cbn [bind]. unfold re_findall.
  destruct (reduce_operators (findall_go Pat.token 0 s)) with (st := initial)
    as (o & ->).
  - apply tokens_without_digits.
    apply (forallb_weaken numberless); [ | exact Hs].
    intros c Hc. unfold numberless in Hc. apply andb_prop in Hc. tauto.
  - reflexivity.
Qed.
End Numberless.

Lemma evaluate_expression_accepted
      (float_pow : Float.float -> Float.float -> Res Float.float)
      (fuel : nat) (history : list HistoryItem) (expr : str) :
  accepted expr = true ->
  evaluate_expression float_pow fuel history expr
  = match evaluate_body float_pow fuel expr with
    | Ok formatted =>
        Some (formatted, {| expression := expr; result := formatted |} :: history)
    | Raise e => Some (handler e, history)
    | Timeout => None
    end.
Proof.
  unfold accepted, evaluate_expression. intros H.
  apply andb_prop in H. destruct H as [H H3].
  apply andb_prop in H. destruct H as [H1 H2].
  apply negb_true_iff in H1. apply negb_true_iff in H3.
  now rewrite H1, H2, H3.
Qed.

(** X4. An expression of at most 100 characters of the buttons and of an
    ASCII keyboard that holds no digit and none of the characters of
    "π√()^*×" (the empty text, a text of operators, points, percent
    signs or letters) has no number to evaluate: with any bound on the
    loops [evaluate_simple_expression] returns [None], the evaluation
    raises a [TypeError] at the [abs] of line 152, which the last
    handler catches, and the outcome that [evaluate_expression] returns
    is "Error", with the history left as it is. *)
Theorem expression_without_number_is_error :
  forall float_pow (fuel : nat) (history : list HistoryItem) (expr : str),
    (len expr <= 100)%nat ->
    forallb typed expr = true -> forallb numberless expr = true ->
    evaluate_simple_expression float_pow fuel expr = Ok None
    /\ evaluate_body float_pow fuel expr = Raise TypeError
    /\ forall (outcome : str) (history' : list HistoryItem),
         evaluate_expression float_pow fuel history expr = Some (outcome, history') ->
         outcome = u"Error" /\ history' = history.
Proof.
  intros float_pow fuel history expr Hlen _ H.
  assert (Hb : evaluate_body float_pow fuel expr = Raise TypeError).
  { unfold evaluate_body.
    rewrite while_done
      by (apply (contains_absent Ch.sqrt); [now apply numberless_count | now left]).
    cbn [bind].
    rewrite while_done
      by (apply (contains_absent Ch.lparen); [now apply numberless_count | now left]).
    cbn [bind].
    rewrite (evaluate_simple_numberless float_pow fuel expr H). reflexivity. }
  split; [exact (evaluate_simple_numberless float_pow fuel expr H) | ].
  split; [exact Hb | ].
  assert (Hacc : accepted expr = true).
  { apply (input_checks_accepted expr). split; [exact Hlen | split].
    - now rewrite !(numberless_count _ expr) by (reflexivity || exact H).
    - intros (pre & d1 & d2 & post & -> & H1 & _ & Hd1 & _).
      destruct d1 as [ | d d1]; [congruence | ].
      cbn [forallb] in Hd1. apply andb_prop in Hd1. destruct Hd1 as [Hd _].
      assert (Hc : count d (pre ++ (d :: d1) ++ Ch.dot :: d2 ++ Ch.dot :: post) = 0%nat).
      { apply numberless_count; [ | exact H]. unfold numberless. now rewrite Hd. }
      rewrite !count_app in Hc.
      pose proof (In_count d (d :: d1) (or_introl eq_refl)). lia. }
  rewrite (evaluate_expression_accepted _ _ _ _ Hacc), Hb.
  intros outcome history' E. injection E as <- <-. split; reflexivity.
Qed.

Lemma expression_without_number_is_error_witness :
  for_every_pow (fun float_pow =>
    evaluate_body float_pow 0 (u"÷-") = Raise TypeError
    /\ forall (outcome : str) (history' : list HistoryItem),
         evaluate_expression float_pow 0 [] (u"÷-") = Some (outcome, history') ->
         outcome = u"Error" /\ history' = []).
Proof.
  intros float_pow.
  destruct (expression_without_number_is_error float_pow 0 [] (u"÷-"))
    as (_ & Hb & H); [vm_compute; lia | reflexivity | reflexivity | ].
  split; [exact Hb | exact H].
Defined.

(** X5. A bare unsigned number of at most 100 characters (digits, or
    digits, a point and digits) is evaluated without a turn of any loop:
    the outcome is the display form of the float the number reads as,
    and the number and this outcome are put in front of the history. *)
Theorem bare_number_is_displayed :
  forall float_pow (fuel : nat) (history : list HistoryItem) (t : str),
    is_literal t = true -> (len t <= 100)%nat ->
    evaluate_expression float_pow fuel history t
    = Some (format_float (Decimal.float_of_literal t),
            {| expression := t;
               result := format_float (Decimal.float_of_literal t) |} :: history).
Proof.
  intros float_pow fuel history t Ht Hlen.
  rewrite (evaluate_expression_accepted _ _ _ _ (literal_accepted t Ht Hlen)).
  unfold evaluate_body.
  rewrite while_done
    by (apply (contains_absent Ch.sqrt); [now apply literal_count | now left]).
  cbn [bind].
  rewrite while_done
    by (apply (contains_absent Ch.lparen); [now apply literal_count | now left]).
  cbn [bind].
  rewrite (evaluate_simple_literal float_pow fuel t Ht). reflexivity.
Qed.

Lemma bare_number_is_displayed_witness :
  for_every_pow (fun float_pow =>
    evaluate_expression float_pow 0 [] (u"12.50")
    = Some (u"12.5", [ {| expression := u"12.50"; result := u"12.5" |} ])).
Proof.
  intros float_pow.
  apply (bare_number_is_displayed float_pow 0 [] (u"12.50"));
    [reflexivity | vm_compute; lia].
Defined.

(* ================================================================== *)
(** * Operators in a row *)

Section OperatorRuns.
Import Decimal Tokens.

Lemma reduce_operator_run (ops : list str) (o : str) (rest : list str) :
  Forall (fun t => is_operator t = true) ops -> is_operator o = true ->
  forall st,
    reduce st (ops ++ o :: rest)
    = reduce {| current_value := current_value st; last_operator := Some o |} rest.
Proof.
  intros Hops Ho. induction Hops as [ | t ops Ht _ IH]; intros st.
  - cbn [app reduce]. now rewrite (step_operator _ _ Ho).
  - cbn [app reduce]. rewrite (step_operator _ _ Ht). cbn [bind].
    now rewrite IH.
Qed.
End OperatorRuns.

(** X6. In the token loop only the last operator of a run of operators
    counts, and operators after the last number change nothing: "2+-3"
    gives "-1" and "2+" gives "2".  An operator stays pending after it is
    applied, so a number that follows a number with no operator between
    them is combined by the operator before: "1+2..3" reads as 1+2.+3
    and gives "6". *)
Theorem operator_runs :
  forall float_pow,
    (forall (st : state) (ops : list str) (o : str) (rest : list str),
        Forall (fun t => Tokens.is_operator t = true) ops ->
        Tokens.is_operator o = true ->
        reduce st (ops ++ o :: rest)
        = reduce {| current_value := current_value st; last_operator := Some o |} rest)
    /\ (forall (st : state) (ts ops : list str),
           Forall (fun t => Tokens.is_operator t = true) ops ->
           (st' <- reduce st (ts ++ ops) ;; Ok (current_value st'))
           = (st' <- reduce st ts ;; Ok (current_value st')))
    /\ (forall (x : Float.float) (o t1 t2 : str),
           Tokens.is_operator o = true ->
           Tokens.is_plain t1 = true -> Tokens.is_plain t2 = true ->
           reduce {| current_value := Some x; last_operator := Some o |} [t1; t2]
           = (v1 <- Tokens.binop o x (Decimal.float_of_literal t1) ;;
              v2 <- Tokens.binop o v1 (Decimal.float_of_literal t2) ;;
              Ok {| current_value := Some v2; last_operator := Some o |}))
    /\ returns float_pow (u"2+-3") (u"-1")
    /\ returns float_pow (u"2+") (u"2")
    /\ returns float_pow (u"1+2..3") (u"6").
Proof.
  intros float_pow.
  split; [intros st ops o rest Hops Ho; now apply reduce_operator_run | ].
  split; [ | split; [ | repeat split; evaluates]].
  - intros st ts ops Hops. rewrite reduce_app.
    destruct (reduce st ts) as [st' | e | ]; cbn [bind]; try reflexivity.
    destruct (reduce_operators ops Hops st') as (o & ->). reflexivity.
  - intros x o t1 t2 Ho H1 H2. cbn [reduce].
    rewrite (step_number x o t1 Ho H1).
    destruct (Tokens.binop o x (Decimal.float_of_literal t1)) as [v1 | e | ];
      cbn [bind]; try reflexivity.
    rewrite (step_number v1 o t2 Ho H2).
    destruct (Tokens.binop o v1 (Decimal.float_of_literal t2)) as [v2 | e | ];
      reflexivity.
Qed.

Lemma operator_runs_witness :
  for_every_pow (fun float_pow =>
    reduce {| current_value := Some (Float.of_N 2); last_operator := None |}
           [u"+"; u"×"; u"-"; u"3"]
    = reduce {| current_value := Some (Float.of_N 2); last_operator := Some (u"-") |}
             [u"3"]).
Proof.
  intros float_pow.
  destruct (operator_runs float_pow) as (H & _).
  refine (H {| current_value := Some (Float.of_N 2); last_operator := None |}
            [u"+"; u"×"] (u"-") [u"3"] _ _).
  - repeat constructor.
  - reflexivity.
Defined.

(* ================================================================== *)
(** * Slices and lines *)

Section Slices.
Local Open Scope Z_scope.

Lemma slice_index_in (s : str) (i : Z) :
  0 <= i <= Z.of_nat (len s) -> slice_index s i = Z.to_nat i.
Proof.
  intros H. unfold slice_index.
  replace (i <? 0) with false by (symmetry; apply Z.ltb_ge; lia). lia.
Qed.

Lemma slice_index_le (s : str) (i : Z) : (slice_index s i <= len s)%nat.
Proof. unfold slice_index. destruct (Z.ltb_spec i 0); lia. Qed.

(** A bound at or past the end stands for the end. *)
Lemma slice_index_past (s : str) (i : Z) :
  Z.of_nat (len s) <= i -> slice_index s i = len s.
Proof.
  intros H. unfold slice_index.
  replace (i <? 0) with false by (symmetry; apply Z.ltb_ge; lia). lia.
Qed.

Lemma firstn_min_length {A : Type} (a : nat) (l : list A) :
  firstn (Nat.min a (List.length l)) l = firstn a l.
Proof.
  destruct (Nat.le_ge_cases a (List.length l)) as [H | H].
  - now rewrite Nat.min_l.
  - rewrite Nat.min_r by exact H. now rewrite !firstn_all2 by lia.
Qed.

Lemma firstn_add {A : Type} (a b : nat) (l : list A) :
  firstn (a + b) l = firstn a l ++ firstn b (skipn a l).
Proof.
  revert l. induction a as [ | a IH]; intros l; [reflexivity | ].
  destruct l as [ | x l]; cbn [Nat.add firstn skipn app].
  - now rewrite firstn_nil.
  - now rewrite IH.
Qed.

(** The three parts a text is cut into by two positions. *)
Lemma cut_in_three (s : str) (a b : nat) :
  (a <= b)%nat -> firstn a s ++ firstn (b - a) (skipn a s) ++ skipn b s = s.
Proof.
  intros H. rewrite app_assoc, <- firstn_add.
  replace (a + (b - a))%nat with b by lia. apply firstn_skipn.
Qed.

Lemma length_pieces (s t : str) (a b : nat) :
  (a <= List.length s)%nat -> (b <= List.length s)%nat ->
  List.length (firstn a s ++ t ++ skipn b s)
  = (a + List.length t + (List.length s - b))%nat.
Proof.
  intros Ha Hb. rewrite !length_app, length_firstn, length_skipn. lia.
Qed.
End Slices.

Section Lines.
Local Open Scope Z_scope.

Variable text : str.
Variable max_chars : Z.
Hypothesis positive_width : 0 < max_chars.

Let m : nat := Z.to_nat max_chars.
Let n : nat := Z.to_nat ((Z.of_nat (len text) + max_chars - 1) / max_chars).
Let chunk (k : nat) : str := firstn m (skipn (k * m) text).

Lemma lines_cover : (len text <= n * m)%nat /\ (n * m < len text + m)%nat.
Proof.
  unfold n, m.
  set (L := Z.of_nat (len text)).
  assert (HL : 0 <= L) by (unfold L; lia).
  pose proof (Z.div_mod (L + max_chars - 1) max_chars ltac:(lia)) as Hdm.
  pose proof (Z.mod_pos_bound (L + max_chars - 1) max_chars positive_width) as Hr.
  assert (Hq : 0 <= (L + max_chars - 1) / max_chars) by (apply Z.div_pos; lia).
  set (q := (L + max_chars - 1) / max_chars) in *.
  set (r := (L + max_chars - 1) mod max_chars) in *.
  clearbody q r.
  assert (E : Z.of_nat (Z.to_nat q * Z.to_nat max_chars) = max_chars * q)
    by (rewrite Nat2Z.inj_mul, !Z2Nat.id by lia; ring).
  unfold len in *. split; lia.
Qed.

Lemma line_is_chunk (k : nat) :
  (k < n)%nat ->
  slice text (0 + Z.of_nat k * max_chars) (0 + Z.of_nat k * max_chars + max_chars)
  = chunk k.
Proof.
  intros Hk. destruct lines_cover as [_ Hn].
  assert (Hkm : (k * m + m <= n * m)%nat) by nia.
  assert (Hm : Z.of_nat m = max_chars) by (unfold m; lia).
  unfold slice, chunk, slice_index.
  replace (0 + Z.of_nat k * max_chars <? 0) with false
    by (symmetry; apply Z.ltb_ge; nia).
  replace (0 + Z.of_nat k * max_chars + max_chars <? 0) with false
    by (symmetry; apply Z.ltb_ge; nia).
  replace (Z.to_nat (0 + Z.of_nat k * max_chars)) with (k * m)%nat by nia.
  replace (Z.to_nat (0 + Z.of_nat k * max_chars + max_chars)) with (k * m + m)%nat by nia.
  rewrite (Nat.min_l (k * m)) by lia.
  replace (Nat.min (k * m + m) (len text) - k * m)%nat
    with (Nat.min m (List.length (skipn (k * m) text)))
    by (rewrite length_skipn; unfold len; lia).
  apply firstn_min_length.
Qed.

Lemma wrap_text_chunks :
  wrap_text text max_chars
  = Ok (match map chunk (seq 0 n) with
        | [] => [ [] ]
        | _ :: _ => map chunk (seq 0 n)
        end).
Proof.
  unfold wrap_text, range.
  replace (max_chars =? 0) with false by (symmetry; apply Z.eqb_neq; lia).
  replace (0 <? max_chars) with true by (symmetry; apply Z.ltb_lt; lia).
  cbn [bind]. rewrite Z.sub_0_r, map_map. fold n.
  rewrite (map_ext_in _ chunk); [reflexivity | ].
  intros k Hk. apply in_seq in Hk. apply line_is_chunk. lia.
Qed.

Lemma chunks_concat (j : nat) :
  List.concat (map chunk (seq 0 j)) = firstn (j * m) text.
Proof.
  induction j as [ | j IH]; [reflexivity | ].
  rewrite seq_S, map_app, concat_app, IH. cbn [map List.concat Nat.add].
  rewrite app_nil_r. unfold chunk.
  replace (S j * m)%nat with (j * m + m)%nat by lia.
  now rewrite firstn_add.
Qed.

Lemma chunk_length (k : nat) :
  (k < n)%nat ->
  (1 <= len (chunk k) <= m)%nat /\ (S k < n -> len (chunk k) = m)%nat.
Proof.
  intros Hk. destruct lines_cover as [Hc Hn].
  unfold chunk, len in *. rewrite length_firstn, length_skipn.
  assert (Hm : (0 < m)%nat) by (unfold m; lia).
  assert (Hkm : (k * m + m <= n * m)%nat) by nia.
  split; [lia | ]. intros Hk'.
  assert (S k * m + m <= n * m)%nat by nia. lia.
Qed.
(** X7. For a positive width, [wrap_text] cuts the text into lines that
    together are the text again: there are as many lines as the width
    goes into the length, rounded up, and at least one; no line is
    longer than the width, every line but the last has exactly the
    width, and a text that is not empty gives no empty line. *)
Theorem wrap_text_lines :
  exists lines,
    wrap_text text max_chars = Ok lines
    /\ List.concat lines = text
    /\ Z.of_nat (List.length lines)
       = Z.max 1 ((Z.of_nat (len text) + max_chars - 1) / max_chars)
    /\ forall (i : nat) (line : str),
         nth_error lines i = Some line ->
         Z.of_nat (len line) <= max_chars
         /\ ((S i < List.length lines)%nat -> Z.of_nat (len line) = max_chars)
         /\ (text <> [] -> line <> []).
Proof.
  rewrite wrap_text_chunks.
  destruct lines_cover as [Hc Hn].
  assert (Hq : 0 <= (Z.of_nat (len text) + max_chars - 1) / max_chars)
    by (apply Z.div_pos; unfold len; lia).
  assert (Hm : Z.of_nat m = max_chars) by (unfold m; lia).
  destruct n as [ | n'] eqn:En.
  - exists [ [] ]. cbn [seq map].
    assert (Et : text = []) by (destruct text; [reflexivity | simpl in Hc; lia]).
    split; [reflexivity | ]. split; [now rewrite Et | ].
    split; [cbn [List.length]; unfold n in En; lia | ].
    intros [ | i] line H; cbn [nth_error] in H.
    + injection H as <-. cbn [len List.length]. split; [lia | ].
      split; [lia | congruence].
    + destruct i; discriminate H.
  - exists (map chunk (seq 0 (S n'))).
    split; [reflexivity | ].
    split; [rewrite chunks_concat; apply firstn_all2; exact Hc | ].
    split; [rewrite length_map, length_seq; unfold n in En; lia | ].
    intros i line H. rewrite nth_error_map, nth_error_seq in H.
    rewrite length_map, length_seq.
    destruct (Nat.ltb_spec i (S n')) as [Hi | Hi]; [ | discriminate H].
    cbn [option_map Nat.add] in H. injection H as <-.
    destruct (chunk_length i) as [Hl Hfull]; [lia | ].
    split; [lia | split].
    + intros Hi'. rewrite Hfull by lia. exact Hm.
    + intros _ E. rewrite E in Hl. cbn [len List.length] in Hl. lia.
Qed.
End Lines.

Lemma wrap_text_lines_witness :
  exists lines,
    wrap_text (u"12345678901234567890123+4") MAX_CHARS_PER_LINE = Ok lines
    /\ List.concat lines = u"12345678901234567890123+4"
    /\ Z.of_nat (List.length lines)
       = Z.max 1 ((Z.of_nat (len (u"12345678901234567890123+4"))
                  + MAX_CHARS_PER_LINE - 1) / MAX_CHARS_PER_LINE)%Z
    /\ forall (i : nat) (line : str),
         nth_error lines i = Some line ->
         (Z.of_nat (len line) <= MAX_CHARS_PER_LINE)%Z
         /\ ((S i < List.length lines)%nat -> Z.of_nat (len line) = MAX_CHARS_PER_LINE)
         /\ (u"12345678901234567890123+4" <> [] -> line <> []).
Proof.
  apply (wrap_text_lines (u"12345678901234567890123+4") MAX_CHARS_PER_LINE).
  reflexivity.
Defined.

(* ================================================================== *)
(** * The scroll position and the history panel *)

Section Scroll.
Local Open Scope Z_scope.

(** X8. After [update_scroll_to_cursor] the line of the cursor is one of
    the two lines the display shows, when the cursor is not before the
    start of the text; the scroll position moves only if the line was not
    shown, and nothing else changes. *)
Theorem cursor_line_is_shown :
  forall (c : calculator) (lines : list str),
    0 <= cursor_pos c ->
    let c' := update_scroll_to_cursor c lines in
    let line_idx := cursor_pos c / MAX_CHARS_PER_LINE in
    scroll_offset c' <= line_idx < scroll_offset c' + 2
    /\ (scroll_offset c <= line_idx < scroll_offset c + 2 -> c' = c)
    /\ c' = set_scroll_offset (scroll_offset c') c.
Proof.
  intros c lines Hc c' line_idx.
  assert (Hl : 0 <= line_idx) by (apply Z.div_pos; [exact Hc | reflexivity]).
  unfold c', update_scroll_to_cursor. fold line_idx.
  change (display_rect_height / LINE_HEIGHT) with 2.
  destruct (Z.ltb_spec line_idx (scroll_offset c)) as [H1 | H1].
  - cbn [scroll_offset set_scroll_offset]. split; [lia | split; [lia | reflexivity]].
  - destruct (Z.leb_spec (scroll_offset c + 2) line_idx) as [H2 | H2].
    + cbn [scroll_offset set_scroll_offset]. split; [lia | split; [lia | reflexivity]].
    + split; [lia | split; [reflexivity | now destruct c]].
Qed.

Lemma cursor_line_is_shown_witness :
  let c := set_scroll_offset 5 (set_cursor_pos 50 init) in
  let c' := update_scroll_to_cursor c [] in
  scroll_offset c' <= 50 / MAX_CHARS_PER_LINE < scroll_offset c' + 2
  /\ (scroll_offset c <= 50 / MAX_CHARS_PER_LINE < scroll_offset c + 2 -> c' = c)
  /\ c' = set_scroll_offset (scroll_offset c') c.
Proof.
  apply (cursor_line_is_shown (set_scroll_offset 5 (set_cursor_pos 50 init)) []).
  cbn. lia.
Defined.

Lemma frames_still (k : nat) (c : calculator) :
  history_animation c = 0 -> frames k c = c.
Proof.
  intros H. induction k as [ | k IH]; [reflexivity | ].
  cbn [frames]. unfold update_history_animation. rewrite H. exact IH.
Qed.

Lemma frames_open (k : nat) :
  forall c,
    history_animation c = 1 ->
    0 <= history_view_offset c <= ANIMATION_SPEED * Z.of_nat (S k) ->
    frames (S k) c
    = set_showing_history true
        (set_history_animation 0 (set_history_view_offset 0 c)).
Proof.
  unfold ANIMATION_SPEED.
  induction k as [ | k IH]; intros c Ha Ho.
  - cbn [frames]. unfold update_history_animation, ANIMATION_SPEED. rewrite Ha.
    cbn [Z.eqb Pos.eqb history_view_offset set_history_view_offset].
    replace (Z.max 0 (history_view_offset c - 15)) with 0 by lia. reflexivity.
  - change (frames (S (S k)) c) with (frames (S k) (update_history_animation c)).
    unfold update_history_animation, ANIMATION_SPEED. rewrite Ha.
    cbn [Z.eqb Pos.eqb history_view_offset set_history_view_offset].
    destruct (Z.eqb_spec (Z.max 0 (history_view_offset c - 15)) 0) as [E | E].
    + rewrite frames_still by reflexivity. now rewrite E.
    + rewrite IH; [reflexivity | exact Ha | ].
      cbn [history_view_offset set_history_view_offset]. lia.
Qed.

Lemma frames_close (k : nat) :
  forall c,
    history_animation c = -1 ->
    WIDTH - ANIMATION_SPEED * Z.of_nat (S k) <= history_view_offset c <= WIDTH ->
    frames (S k) c
    = set_showing_history false
        (set_history_animation 0 (set_history_view_offset WIDTH c)).
Proof.
  unfold ANIMATION_SPEED, WIDTH.
  induction k as [ | k IH]; intros c Ha Ho.
  - cbn [frames]. unfold update_history_animation, ANIMATION_SPEED, WIDTH. rewrite Ha.
    cbn [Z.eqb Pos.eqb history_view_offset set_history_view_offset].
    replace (Z.min 400 (history_view_offset c + 15)) with 400 by lia. reflexivity.
  - change (frames (S (S k)) c) with (frames (S k) (update_history_animation c)).
    unfold update_history_animation, ANIMATION_SPEED, WIDTH. rewrite Ha.
    cbn [Z.eqb Pos.eqb history_view_offset set_history_view_offset].
    destruct (Z.eqb_spec (Z.min 400 (history_view_offset c + 15)) 400) as [E | E].
    + rewrite frames_still by reflexivity. now rewrite E.
    + rewrite IH; [reflexivity | exact Ha | ].
      cbn [history_view_offset set_history_view_offset]. lia.
Qed.

(** X9. The history panel slides in and out in at most 27 frames: from
    any position of the panel on the screen, 27 frames after
    [show_history] the panel is fully shown (offset 0, [showing_history]
    set, the animation over), and 27 frames after [hide_history] it is
    fully hidden (offset [WIDTH], [showing_history] unset, the animation
    over); from the hidden position 26 frames are not enough.  A frame
    never moves the panel off the screen, and changes nothing once the
    animation is over. *)
Theorem history_panel_slides :
  forall c : calculator,
    0 <= history_view_offset c <= WIDTH ->
    frames 27 (show_history c)
    = set_showing_history true
        (set_history_animation 0 (set_history_view_offset 0 c))
    /\ frames 27 (hide_history c)
       = set_showing_history false
           (set_history_animation 0 (set_history_view_offset WIDTH c))
    /\ 0 <= history_view_offset (update_history_animation c) <= WIDTH
    /\ (history_animation c = 0 -> update_history_animation c = c)
    /\ (history_view_offset c = WIDTH ->
        history_animation (frames 26 (show_history c)) = 1).
Proof.
  intros c Ho. split; [ | split; [ | split; [ | split]]].
  - rewrite (frames_open 26 (show_history c)); [now destruct c | reflexivity | ].
    unfold WIDTH, ANIMATION_SPEED, show_history in *.
    cbn [history_view_offset set_history_animation]. lia.
  - rewrite (frames_close 26 (hide_history c)); [now destruct c | reflexivity | ].
    unfold WIDTH, ANIMATION_SPEED, hide_history in *.
    cbn [history_view_offset set_history_animation]. lia.
  - unfold update_history_animation, ANIMATION_SPEED, WIDTH in *.
    destruct (history_animation c =? 1).
    + cbn [history_view_offset set_history_view_offset].
      destruct (Z.max 0 (history_view_offset c - 15) =? 0); cbn; lia.
    + destruct (history_animation c =? -1); [ | exact Ho].
      cbn [history_view_offset set_history_view_offset].
      destruct (Z.min 400 (history_view_offset c + 15) =? 400); cbn; lia.
  - intros H. unfold update_history_animation. now rewrite H.
  - intros H. destruct c as [ci rp cp ss se so ms hl hvo sh ha].
    cbn [history_view_offset] in H. subst hvo. reflexivity.
Qed.

Lemma history_panel_slides_witness :
  frames 27 (show_history init)
  = set_showing_history true
      (set_history_animation 0 (set_history_view_offset 0 init))
  /\ frames 27 (hide_history init)
     = set_showing_history false
         (set_history_animation 0 (set_history_view_offset WIDTH init))
  /\ 0 <= history_view_offset (update_history_animation init) <= WIDTH
  /\ (history_animation init = 0 -> update_history_animation init = init)
  /\ (history_view_offset init = WIDTH ->
      history_animation (frames 26 (show_history init)) = 1).
Proof.
  apply (history_panel_slides init).
  unfold init, WIDTH. cbn [history_view_offset]. lia.
Defined.
End Scroll.

(* ================================================================== *)
(** * The buttons *)

Ltac fields :=
  cbn [current_input result_preview cursor_pos select_start select_end
       scroll_offset mouse_selecting history_list history_view_offset
       showing_history history_animation set_current_input set_result_preview
       set_cursor_pos set_select_start set_select_end set_scroll_offset
       set_mouse_selecting set_history_list set_history_view_offset
       set_showing_history set_history_animation clear_selection] in *.

Lemma ok_inj {A : Type} (a b : A) : Ok a = Ok b -> a = b.
Proof. intros H. now injection H. Qed.

Lemma str_eqb_neq (a b : str) : a <> b -> str_eqb a b = false.
Proof.
  intros H. destruct (str_eqb a b) eqn:E; [ | reflexivity].
  apply str_eqb_eq in E. contradiction.
Qed.

Lemma str_eqb_refl (a : str) : str_eqb a a = true.
Proof.
  induction a as [ | x a IH]; [reflexivity | ].
  cbn [str_eqb]. unfold chr_eqb. now rewrite N.eqb_refl, IH.
Qed.

Section Editing.
Local Open Scope Z_scope.

(** The length of a text with [t] put in place of the characters from
    [a] to [b]. *)
Lemma len_replaced (s t : str) (a b : Z) :
  0 <= a <= Z.of_nat (len s) -> 0 <= b <= Z.of_nat (len s) ->
  Z.of_nat (len (slice_to s a ++ t ++ slice_from s b))
  = a + Z.of_nat (len t) + (Z.of_nat (len s) - b).
Proof.
  intros Ha Hb. unfold slice_to, slice_from.
  rewrite !slice_index_in by assumption.
  unfold len in *. rewrite length_pieces by lia. lia.
Qed.

Lemma len_app (a b : str) :
  Z.of_nat (len (a ++ b)) = Z.of_nat (len a) + Z.of_nat (len b).
Proof. unfold len. rewrite length_app. lia. Qed.

Lemma len_slice (s : str) (a b : Z) :
  0 <= a <= b -> b <= Z.of_nat (len s) ->
  Z.of_nat (len (slice s a b)) = b - a.
Proof.
  intros Ha Hb. unfold slice.
  rewrite !slice_index_in by lia.
  unfold len in *. rewrite length_firstn, length_skipn. lia.
Qed.

(** The range of a selection whose bounds are in the text. *)
Lemma selected_range_in_text (c : calculator) :
  selection_in_text c ->
  get_selected_range c = (None, None)
  \/ exists lo hi,
       get_selected_range c = (Some lo, Some hi)
       /\ 0 <= lo <= hi /\ hi <= Z.of_nat (len (current_input c)).
Proof.
  unfold selection_in_text, get_selected_range. intros [Ha Hb].
  destruct (select_start c) as [a | ]; [ | now left].
  destruct (select_end c) as [b | ]; [ | now left].
  right. exists (Z.min a b), (Z.max a b). split; [reflexivity | lia].
Qed.

Lemma selection_cleared (c : calculator) : selection_in_text (clear_selection c).
Proof. unfold selection_in_text. fields. tauto. Qed.

Variable float_pow : Float.float -> Float.float -> Res Float.float.

Lemma evaluate_input_ok (fuel : nat) (c c' : calculator) (r : str) :
  evaluate_input float_pow fuel c = Ok (r, c') ->
  exists h, c' = set_history_list h c.
Proof.
  unfold evaluate_input.
  destruct (evaluate_expression float_pow fuel (history_list c) (current_input c))
    as [[result h] | ]; [ | discriminate].
  intros H. injection H as <- <-. now exists h.
Qed.

(** X10. A button press leaves the cursor in the text, when the cursor
    and the bounds of the selection were in the text before; every
    button but AC and CE leaves the bounds of the selection in the text
    too (AC and CE shorten the text and keep the selection as it is). *)
Theorem buttons_keep_cursor_in_text :
  forall (fuel : nat) (c c' : calculator) (label : str),
    cursor_in_text c -> selection_in_text c ->
    handle_button_click float_pow fuel c label = Ok c' ->
    cursor_in_text c'
    /\ (label <> u"AC" -> label <> u"CE" -> selection_in_text c').
Proof.
  intros fuel c c' label Hc Hs. unfold handle_button_click, cursor_in_text in *.
  destruct (str_eqb label (u"AC")) eqn:E1.
  { intros H. apply ok_inj in H. subst c'. fields. apply str_eqb_eq in E1.
    split; [cbn; lia | congruence]. }
  destruct (str_eqb label (u"CE")) eqn:E2.
  { apply str_eqb_eq in E2. destruct (Z.ltb_spec 0 (cursor_pos c)) as [Hp | Hp].
    - intros H. apply ok_inj in H. subst c'. fields. split; [ | congruence].
      change (slice_to (current_input c) (cursor_pos c - 1)
              ++ slice_from (current_input c) (cursor_pos c))
        with (slice_to (current_input c) (cursor_pos c - 1) ++ []
              ++ slice_from (current_input c) (cursor_pos c)).
      rewrite len_replaced by lia. cbn [len List.length]. lia.
    - intros H. apply ok_inj in H. subst c'. split; [exact Hc | congruence]. }
  destruct (str_eqb label (u"=")) eqn:E3.
  { destruct (current_input c) as [ | x s] eqn:Es.
    - intros H. apply ok_inj in H. subst c'. rewrite Es.
      split; [exact Hc | intros _ _; exact Hs].
    - intros H. apply bind_ok in H. destruct H as ([r c1] & He & H).
      destruct (evaluate_input_ok _ _ _ _ He) as (h & ->).
      apply ok_inj in H. subst c'. unfold selection_in_text in *. fields.
      split; [lia | intros _ _; exact Hs]. }
  destruct (str_eqb label (u"√")) eqn:E4.
  { destruct (selected_range_in_text c Hs) as [-> | (lo & hi & -> & Hlo & Hhi)].
    - intros H. apply ok_inj in H. subst c'. split; [ | intros _ _; apply selection_cleared].
      fields. rewrite len_replaced by lia. cbn [len List.length]. cbn. lia.
    - intros H. apply ok_inj in H. subst c'. split; [ | intros _ _; apply selection_cleared].
      fields.
      replace (slice_to (current_input c) lo ++ u"√("
               ++ slice (current_input c) lo hi ++ u")"
               ++ slice_from (current_input c) hi)
        with (slice_to (current_input c) lo
              ++ (u"√(" ++ slice (current_input c) lo hi ++ u")")
              ++ slice_from (current_input c) hi)
        by (now rewrite <- !app_assoc).
      rewrite len_replaced, !len_app, len_slice by lia.
      change (Z.of_nat (len (u"√("))) with 2.
      change (Z.of_nat (len (u")"))) with 1. lia. }
  destruct (selected_range_in_text c Hs) as [-> | (lo & hi & -> & Hlo & Hhi)].
  - intros H. apply ok_inj in H. subst c'. split; [ | intros _ _; apply selection_cleared].
    fields. rewrite len_replaced by lia. lia.
  - intros H. apply ok_inj in H. subst c'. split; [ | intros _ _; apply selection_cleared].
    fields. rewrite len_replaced by lia. lia.
Qed.
(** X11. AC empties the text and keeps the selection: if a selection
    that starts after the first character is set when AC is pressed,
    the next press of a button that inserts its label gives the label as
    text and puts the cursor after the stale start of the selection,
    which is past the end of the text. *)
Theorem stale_selection_after_AC :
  forall (fuel : nat) (c : calculator) (a b : Z) (label : str),
    select_start c = Some a -> select_end c = Some b ->
    0 < a -> 0 < b ->
    label <> u"AC" -> label <> u"CE" -> label <> u"=" -> label <> u"√" ->
    exists c1 c2,
      handle_button_click float_pow fuel c (u"AC") = Ok c1
      /\ handle_button_click float_pow fuel c1 label = Ok c2
      /\ current_input c2 = label
      /\ cursor_pos c2 = Z.min a b + Z.of_nat (len label)
      /\ ~ cursor_in_text c2.
Proof.
  intros fuel c a b label Ha Hb Hpa Hpb H1 H2 H3 H4.
  eexists. eexists. split; [reflexivity | ].
  unfold handle_button_click.
  rewrite !str_eqb_neq by assumption.
  unfold get_selected_range. fields. rewrite Ha, Hb.
  split; [reflexivity | ]. fields.
  match goal with
  | |- context [set_current_input ?t _] => assert (E : t = label)
  end.
  { unfold slice_to, slice_from. now rewrite firstn_nil, skipn_nil, app_nil_r. }
  split; [exact E | split; [reflexivity | ]].
  unfold cursor_in_text. fields. rewrite E. lia.
Qed.

Lemma count_pieces (ch : char) (s t : str) (i : nat) :
  count ch (firstn i s ++ t ++ skipn i s) = (count ch s + count ch t)%nat.
Proof.
  rewrite !count_app. rewrite <- (firstn_skipn i s) at 3.
  rewrite count_app. lia.
Qed.

(** X12. The root button adds the three characters of "√()" to the text
    and nothing else: with a selection (whose bounds are not negative)
    the selected text goes between the parentheses, without one the
    parentheses are empty; so the button keeps balanced parentheses
    balanced. *)
Theorem root_button_adds_a_pair :
  forall (fuel : nat) (c c' : calculator),
    (forall a, select_start c = Some a -> 0 <= a) ->
    (forall b, select_end c = Some b -> 0 <= b) ->
    handle_button_click float_pow fuel c (u"√") = Ok c' ->
    (forall ch,
        count ch (current_input c')
        = (count ch (current_input c) + count ch (u"√()"))%nat)
    /\ (count Ch.lparen (current_input c) = count Ch.rparen (current_input c) ->
        count Ch.lparen (current_input c') = count Ch.rparen (current_input c')).
Proof.
  intros fuel c c' Ha Hb H.
  assert (Hcount : forall ch,
             count ch (current_input c')
             = (count ch (current_input c) + count ch (u"√()"))%nat).
  { change (handle_button_click float_pow fuel c (u"√"))
      with (match get_selected_range c with
            | (Some sel_start, Some sel_end) =>
                Ok (clear_selection
                      (set_cursor_pos
                         (sel_start + Z.of_nat (len (u"√(")) + (sel_end - sel_start) + 1)
                         (set_current_input
                            (slice_to (current_input c) sel_start ++ u"√("
                             ++ slice (current_input c) sel_start sel_end ++ u")"
                             ++ slice_from (current_input c) sel_end) c)))
            | _ =>
                Ok (clear_selection
                      (set_cursor_pos (cursor_pos c + 2)
                         (set_current_input
                            (slice_to (current_input c) (cursor_pos c) ++ u"√()"
                             ++ slice_from (current_input c) (cursor_pos c)) c)))
            end) in H.
    unfold get_selected_range in H.
    destruct (select_start c) as [a | ] eqn:Ea.
    - destruct (select_end c) as [b | ] eqn:Eb.
      + apply ok_inj in H. subst c'. fields. intros ch.
        specialize (Ha a eq_refl). specialize (Hb b eq_refl).
        unfold slice_to, slice_from, slice.
        set (i := slice_index (current_input c) (Z.min a b)).
        set (j := slice_index (current_input c) (Z.max a b)).
        assert (Hij : (i <= j)%nat).
        { unfold i, j, slice_index.
          replace (Z.min a b <? 0) with false by (symmetry; apply Z.ltb_ge; lia).
          replace (Z.max a b <? 0) with false by (symmetry; apply Z.ltb_ge; lia).
          lia. }
        pose proof (f_equal (count ch) (cut_in_three (current_input c) i j Hij)) as E.
        change (u"√()") with (u"√(" ++ u")").
        rewrite !count_app in E. repeat rewrite count_app. lia.
      + apply ok_inj in H. subst c'. fields. intros ch. apply count_pieces.
    - apply ok_inj in H. subst c'. fields. intros ch.
      destruct (select_end c); apply count_pieces. }
  split; [exact Hcount | ].
  intros Hbal. rewrite !Hcount, Hbal. reflexivity.
Qed.

Lemma firstn_head {A : Type} (a b : list A) (i : nat) :
  List.length a = i -> firstn i (a ++ b) = a.
Proof.
  intros <-. rewrite firstn_app, Nat.sub_diag, firstn_all. cbn [firstn].
  apply app_nil_r.
Qed.

Lemma skipn_tail {A : Type} (a b : list A) (i : nat) :
  List.length a = i -> skipn i (a ++ b) = b.
Proof.
  intros <-. rewrite skipn_app, Nat.sub_diag, skipn_all. reflexivity.
Qed.

(** X13. CE undoes the press of a one-character button: with the cursor
    in the text and no selection, the button puts its character at the
    cursor, and CE pressed next gives back the text and the cursor as
    they were. *)
Theorem CE_undoes_a_character :
  forall (fuel : nat) (c : calculator) (ch : char),
    cursor_in_text c -> no_selection c ->
    [ch] <> u"=" -> [ch] <> u"√" ->
    exists c1 c2,
      handle_button_click float_pow fuel c [ch] = Ok c1
      /\ current_input c1
         = slice_to (current_input c) (cursor_pos c) ++ ch
           :: slice_from (current_input c) (cursor_pos c)
      /\ handle_button_click float_pow fuel c1 (u"CE") = Ok c2
      /\ current_input c2 = current_input c
      /\ cursor_pos c2 = cursor_pos c.
Proof.
  intros fuel c ch Hc Hs H3 H4. unfold cursor_in_text in Hc.
  assert (Hr : get_selected_range c = (None, None)).
  { unfold get_selected_range. destruct Hs as [-> | E]; [reflexivity | ].
    rewrite E. now destruct (select_start c). }
  eexists. eexists.
  unfold handle_button_click at 1.
  rewrite (str_eqb_neq [ch] (u"AC")), (str_eqb_neq [ch] (u"CE")) by discriminate.
  rewrite (str_eqb_neq _ _ H3), (str_eqb_neq _ _ H4), Hr.
  split; [reflexivity | ]. fields. split; [reflexivity | ].
  unfold handle_button_click.
  replace (str_eqb (u"CE") (u"AC")) with false by reflexivity.
  replace (str_eqb (u"CE") (u"CE")) with true by reflexivity.
  fields. change (Z.of_nat (len [ch])) with 1.
  replace (0 <? cursor_pos c + 1) with true by (symmetry; apply Z.ltb_lt; lia).
  split; [reflexivity | ]. fields.
  split; [ | lia].
  set (s := current_input c) in *.
  set (i := Z.to_nat (cursor_pos c)).
  assert (Hi : (i <= List.length s)%nat) by (unfold i, len in *; lia).
  assert (E1 : slice_to s (cursor_pos c) = firstn i s)
    by (unfold slice_to; now rewrite slice_index_in by lia).
  assert (E2 : slice_from s (cursor_pos c) = skipn i s)
    by (unfold slice_from; now rewrite slice_index_in by lia).
  rewrite E1, E2.
  set (t := firstn i s ++ [ch] ++ skipn i s).
  assert (Ht : len t = S (len s)).
  { unfold t, len. rewrite length_pieces by lia. cbn [List.length]. lia. }
  unfold slice_to, slice_from.
  rewrite !slice_index_in by (rewrite Ht; unfold len in *; lia).
  replace (Z.to_nat (cursor_pos c + 1 - 1)) with i by lia.
  replace (Z.to_nat (cursor_pos c + 1)) with (S i) by lia.
  unfold t. rewrite firstn_head by (rewrite length_firstn; lia).
  replace (firstn i s ++ [ch] ++ skipn i s) with ((firstn i s ++ [ch]) ++ skipn i s)
    by (now rewrite <- app_assoc).
  rewrite skipn_tail
    by (rewrite length_app, length_firstn; cbn [List.length]; lia).
  apply firstn_skipn.
Qed.
End Editing.

Lemma buttons_keep_cursor_in_text_witness :
  for_every_pow (fun float_pow =>
    let c' := clear_selection (set_cursor_pos 1 (set_current_input (u"7") init)) in
    cursor_in_text c'
    /\ (u"7" <> u"AC" -> u"7" <> u"CE" -> selection_in_text c')).
Proof.
  intros float_pow.
  apply (buttons_keep_cursor_in_text float_pow 0 init _ (u"7")).
  - unfold cursor_in_text. cbn. lia.
  - unfold selection_in_text. cbn. tauto.
  - reflexivity.
Defined.

Lemma stale_selection_after_AC_witness :
  for_every_pow (fun float_pow =>
    let c := set_select_end (Some 3%Z) (set_select_start (Some 1%Z)
               (set_cursor_pos 3 (set_current_input (u"123") init))) in
    exists c1 c2,
      handle_button_click float_pow 0 c (u"AC") = Ok c1
      /\ handle_button_click float_pow 0 c1 (u"7") = Ok c2
      /\ current_input c2 = u"7"
      /\ cursor_pos c2 = (Z.min 1 3 + Z.of_nat (len (u"7")))%Z
      /\ ~ cursor_in_text c2).
Proof.
  intros float_pow.
  apply (stale_selection_after_AC float_pow 0 _ 1 3 (u"7"));
    try reflexivity; discriminate.
Defined.

Lemma root_button_adds_a_pair_witness :
  for_every_pow (fun float_pow =>
    let c := set_select_end (Some 3%Z) (set_select_start (Some 1%Z)
               (set_cursor_pos 3 (set_current_input (u"123") init))) in
    let c' := clear_selection (set_cursor_pos 6 (set_current_input (u"1√(23)") c)) in
    (forall ch,
        count ch (current_input c')
        = (count ch (current_input c) + count ch (u"√()"))%nat)
    /\ (count Ch.lparen (current_input c) = count Ch.rparen (current_input c) ->
        count Ch.lparen (current_input c') = count Ch.rparen (current_input c'))).
Proof.
  intros float_pow.
  apply (root_button_adds_a_pair float_pow 0).
  - intros a H. injection H as <-. discriminate.
  - intros b H. injection H as <-. discriminate.
  - reflexivity.
Defined.

Lemma CE_undoes_a_character_witness :
  for_every_pow (fun float_pow =>
    let c := set_cursor_pos 1 (set_current_input (u"12") init) in
    exists c1 c2,
      handle_button_click float_pow 0 c (u"+") = Ok c1
      /\ current_input c1
         = slice_to (current_input c) (cursor_pos c) ++ Ch.plus
           :: slice_from (current_input c) (cursor_pos c)
      /\ handle_button_click float_pow 0 c1 (u"CE") = Ok c2
      /\ current_input c2 = current_input c
      /\ cursor_pos c2 = cursor_pos c).
Proof.
  intros float_pow.
  apply (CE_undoes_a_character float_pow 0 _ Ch.plus).
  - unfold cursor_in_text. cbn. lia.
  - now left.
  - discriminate.
  - discriminate.
Defined.

(* ================================================================== *)
(** * The keys *)

Lemma wrap_text_ok (text : str) :
  exists lines, wrap_text text MAX_CHARS_PER_LINE = Ok lines.
Proof.
  destruct (wrap_text_lines text MAX_CHARS_PER_LINE eq_refl) as (lines & H & _).
  now exists lines.
Qed.

Lemma scroll_keeps_text (c : calculator) (lines : list str) :
  update_scroll_to_cursor c lines
  = set_scroll_offset (scroll_offset (update_scroll_to_cursor c lines)) c.
Proof.
  unfold update_scroll_to_cursor.
  destruct (_ <? _)%Z; [reflexivity | ].
  destruct (_ <=? _)%Z; [reflexivity | now destruct c].
Qed.

Section Keys.
Local Open Scope Z_scope.

Variable float_pow : Float.float -> Float.float -> Res Float.float.
Variable printable : char -> bool.

(** The lines [handle_input_event] computes first. *)
Lemma keydown_lines (c : calculator) :
  exists lines,
    (lines <- wrap_text (current_input c) MAX_CHARS_PER_LINE ;;
     match result_preview c with
     | [] => Ok lines
     | _ :: _ =>
         more <- wrap_text (u"= " ++ result_preview c) MAX_CHARS_PER_LINE ;;
         Ok (lines ++ more)
     end) = Ok lines.
Proof.
  destruct (wrap_text_ok (current_input c)) as (l1 & ->). cbn [bind].
  destruct (result_preview c) as [ | x r]; [now exists l1 | ].
  destruct (wrap_text_ok (u"= " ++ x :: r)) as (l2 & ->). now exists (l1 ++ l2).
Qed.

Lemma len_removed (s : str) (a b : Z) :
  0 <= a <= Z.of_nat (len s) -> 0 <= b <= Z.of_nat (len s) ->
  Z.of_nat (len (slice_to s a ++ slice_from s b)) = a + (Z.of_nat (len s) - b).
Proof.
  intros Ha Hb.
  change (slice_to s a ++ slice_from s b) with (slice_to s a ++ [] ++ slice_from s b).
  rewrite len_replaced by assumption. cbn [len List.length]. lia.
Qed.

Ltac key_cases E :=
  repeat (cbv beta iota zeta in E; cbn [key_eqb andb orb negb] in E;
          match type of E with
          | (if ?b then _ else _) = _ => destruct b eqn:?
          | (match ?x with _ => _ end) = _ => destruct x eqn:?
          | context [if ?b then _ else _] => destruct b eqn:?
          | context [match ?x with _ => _ end] => destruct x eqn:?
          end).

Ltac key_leaf E :=
  apply ok_inj in E; injection E as <- <-; fields;
  try match goal with
      | H : current_input ?c = _ |- _ => rewrite H in *
      end;
  first [rewrite len_replaced by lia | rewrite len_removed by lia | idtac];
  lia.

(** X14. A key leaves the cursor in the text, when the cursor and the
    bounds of the selection were in the text before and the event does
    not carry an empty [unicode] text. *)
Theorem keys_keep_cursor_in_text :
  forall (fuel : nat) (m : mods) (clipboard clipboard' : str)
         (c c' : calculator) (event : keydown),
    cursor_in_text c -> selection_in_text c ->
    event_unicode event <> Some [] ->
    handle_keydown float_pow printable fuel m clipboard c event
    = Ok (c', clipboard') ->
    cursor_in_text c'.
Proof.
  intros fuel m clipboard clipboard' c c' event Hc Hs Hu.
  unfold handle_keydown.
  destruct (keydown_lines c) as (lines & El).
  destruct (wrap_text (current_input c) MAX_CHARS_PER_LINE) as [l1 | e | ];
    try discriminate El.
  cbn [bind] in El |- *. rewrite El. cbn [bind]. clear El l1.
  destruct ((showing_history c || negb (history_animation c =? 0))
            && key_eqb (event_key event) K_b).
  { intros H. apply ok_inj in H. injection H as <- <-. exact Hc. }
  intros H. apply bind_ok in H. destruct H as ([c1 clip1] & E & H).
  apply ok_inj in H. injection H as <- <-.
  rewrite scroll_keeps_text. unfold cursor_in_text in *. fields.
  assert (Ht : forall t, event_unicode event = Some t -> 1 <= Z.of_nat (len t)).
  { intros [ | x t] Et; [exfalso; apply Hu; exact Et | cbn [len List.length]; lia]. }
  destruct (event_unicode event) as [t | ] eqn:Eu;
    [specialize (Ht t eq_refl) | clear Ht];
    destruct (event_key event);
    (destruct (selected_range_in_text c Hs) as [Hr | (lo & hi & Hr & Hlo & Hhi)];
     rewrite Hr in E; key_cases E;
     try (apply bind_ok in E; destruct E as ([r c2] & He & E);
          destruct (evaluate_input_ok float_pow _ _ _ _ He) as (h & ->);
          cbv beta iota zeta in E);
     key_leaf E).
Qed.
Lemma no_selection_range (c : calculator) :
  no_selection c -> get_selected_range c = (None, None).
Proof.
  unfold get_selected_range. intros [-> | E]; [reflexivity | ].
  rewrite E. now destruct (select_start c).
Qed.

Lemma insert_at_cursor (s t : str) (i : Z) :
  slice_to s i ++ t ++ slice_from s i
  = firstn (slice_index s i) s ++ t ++ skipn (slice_index s i) s.
Proof. reflexivity. Qed.

(** X15. A key event whose [unicode] text is empty counts as printable
    and is handled before the arrow keys: without Ctrl and Meta, and
    with no selection, such an event (of an arrow key or any key other
    than b, Backspace and Return) leaves the text as it is and moves the
    cursor one place to the right, out of the text when the cursor was at
    its end.  The left arrow key of an event with no [unicode] attribute,
    Shift not held, moves the cursor one place to the left, not before
    the start of the text. *)
Theorem empty_unicode_moves_cursor :
  forall (fuel : nat) (m : mods) (clipboard : str) (c : calculator) (k : key),
    KMOD_CTRL m = false -> KMOD_META m = false ->
    k <> K_b -> k <> K_BACKSPACE -> k <> K_RETURN ->
    no_selection c ->
    (exists c',
        handle_keydown float_pow printable fuel m clipboard c
          {| event_key := k; event_unicode := Some [] |} = Ok (c', clipboard)
        /\ current_input c' = current_input c
        /\ cursor_pos c' = cursor_pos c + 1
        /\ (cursor_pos c = Z.of_nat (len (current_input c)) -> ~ cursor_in_text c'))
    /\ (KMOD_SHIFT m = false ->
        exists c',
          handle_keydown float_pow printable fuel m clipboard c
            {| event_key := K_LEFT; event_unicode := None |} = Ok (c', clipboard)
          /\ current_input c' = current_input c
          /\ cursor_pos c' = Z.max 0 (cursor_pos c - 1)).
Proof.
  intros fuel m clipboard c k Hctrl Hmeta Hb Hback Hret Hsel.
  pose proof (no_selection_range c Hsel) as Hr.
  destruct (keydown_lines c) as (lines & El).
  split.
  - unfold handle_keydown.
    destruct (wrap_text (current_input c) MAX_CHARS_PER_LINE) as [l1 | e | ];
      try discriminate El.
    cbn [bind] in El |- *. rewrite El. cbn [bind event_key event_unicode].
    replace (str_eqb [] (u"=")) with false by reflexivity.
    replace (isprintable printable []) with true by reflexivity.
    rewrite Hctrl, Hmeta, Hr. cbn [orb negb].
    destruct k; try congruence;
      cbn [key_eqb andb orb]; rewrite ?andb_false_r; cbn [bind];
      (eexists; split; [reflexivity | ]);
      rewrite scroll_keeps_text; unfold cursor_in_text; fields;
      rewrite insert_at_cursor; cbn [app]; rewrite firstn_skipn;
      (split; [reflexivity | split; [reflexivity | lia]]).
  - intros Hshift. unfold handle_keydown.
    destruct (wrap_text (current_input c) MAX_CHARS_PER_LINE) as [l1 | e | ];
      try discriminate El.
    cbn [bind] in El |- *. rewrite El. cbn [bind event_key event_unicode].
    rewrite Hshift. cbn [key_eqb andb orb]. rewrite ?andb_false_r. cbn [bind].
    eexists. split; [reflexivity | ].
    rewrite scroll_keeps_text. fields. split; reflexivity.
Qed.

(** X16. The Return key does what the button "=" does: when the button
    gives a calculator, the key gives one with the same text, shown
    result, history and cursor (and with the clipboard as it was). *)
Theorem return_key_is_the_equals_button :
  forall (fuel : nat) (m : mods) (clipboard : str) (c c1 : calculator)
         (unicode : option str),
    handle_button_click float_pow fuel c (u"=") = Ok c1 ->
    exists c2,
      handle_keydown float_pow printable fuel m clipboard c
        {| event_key := K_RETURN; event_unicode := unicode |} = Ok (c2, clipboard)
      /\ current_input c2 = current_input c1
      /\ result_preview c2 = result_preview c1
      /\ history_list c2 = history_list c1
      /\ cursor_pos c2 = cursor_pos c1.
Proof.
  intros fuel m clipboard c c1 unicode.
  unfold handle_button_click.
  replace (str_eqb (u"=") (u"AC")) with false by reflexivity.
  replace (str_eqb (u"=") (u"CE")) with false by reflexivity.
  replace (str_eqb (u"=") (u"=")) with true by reflexivity.
  destruct (keydown_lines c) as (lines & El).
  unfold handle_keydown.
  destruct (wrap_text (current_input c) MAX_CHARS_PER_LINE) as [l1 | e | ];
    try discriminate El.
  cbn [bind] in El |- *. rewrite El. cbn [bind event_key event_unicode].
  cbn [key_eqb andb orb]. rewrite ?andb_false_r.
  destruct (current_input c) as [ | x s] eqn:Es.
  - intros H. apply ok_inj in H. subst c1. cbn [bind].
    eexists. split; [reflexivity | ].
    rewrite scroll_keeps_text. fields. now rewrite Es.
  - intros H. apply bind_ok in H. destruct H as ([r c'] & He & H).
    apply ok_inj in H. subst c1. rewrite He. cbn [bind].
    eexists. split; [reflexivity | ].
    rewrite scroll_keeps_text. fields. repeat split; reflexivity.
Qed.

Lemma delete_inserted (s : str) (ch : char) (i : Z) :
  0 <= i <= Z.of_nat (len s) ->
  let t := slice_to s i ++ [ch] ++ slice_from s i in
  slice_to t (i + 1 - 1) ++ slice_from t (i + 1) = s.
Proof.
  intros Hi t.
  set (n := Z.to_nat i).
  assert (Hn : (n <= List.length s)%nat) by (unfold n, len in *; lia).
  assert (Et : t = firstn n s ++ [ch] ++ skipn n s).
  { unfold t, slice_to, slice_from. now rewrite slice_index_in by lia. }
  assert (Ht : len t = S (len s)).
  { rewrite Et. unfold len. rewrite length_pieces by lia. cbn [List.length]. lia. }
  unfold slice_to, slice_from.
  rewrite !slice_index_in by (rewrite Ht; unfold len in *; lia).
  replace (Z.to_nat (i + 1 - 1)) with n by lia.
  replace (Z.to_nat (i + 1)) with (S n) by lia.
  rewrite Et. rewrite firstn_head by (rewrite length_firstn; lia).
  replace (firstn n s ++ [ch] ++ skipn n s) with ((firstn n s ++ [ch]) ++ skipn n s)
    by (now rewrite <- app_assoc).
  rewrite skipn_tail
    by (rewrite length_app, length_firstn; cbn [List.length]; lia).
  apply firstn_skipn.
Qed.

(** X18. Backspace undoes a typed character: with the cursor in the
    text, no selection, and neither Ctrl nor Meta held, a key event with
    a printable character other than "=" puts the character at the
    cursor, and Backspace pressed next gives back the text and the cursor
    as they were. *)
Theorem backspace_undoes_a_character :
  forall (fuel : nat) (m m' : mods) (clipboard : str) (c : calculator)
         (k : key) (ch : char) (unicode' : option str),
    cursor_in_text c -> no_selection c ->
    printable ch = true -> [ch] <> u"=" ->
    KMOD_CTRL m = false -> KMOD_META m = false ->
    k <> K_b -> k <> K_BACKSPACE -> k <> K_RETURN ->
    exists c1 c2,
      handle_keydown float_pow printable fuel m clipboard c
        {| event_key := k; event_unicode := Some [ch] |} = Ok (c1, clipboard)
      /\ current_input c1
         = slice_to (current_input c) (cursor_pos c) ++ ch
           :: slice_from (current_input c) (cursor_pos c)
      /\ handle_keydown float_pow printable fuel m' clipboard c1
           {| event_key := K_BACKSPACE; event_unicode := unicode' |}
         = Ok (c2, clipboard)
      /\ current_input c2 = current_input c
      /\ cursor_pos c2 = cursor_pos c.
Proof.
  intros fuel m m' clipboard c k ch unicode' Hc Hsel Hp Heq Hctrl Hmeta Hb Hback Hret.
  pose proof (no_selection_range c Hsel) as Hr.
  unfold cursor_in_text in Hc.
  assert (E1 : exists c1,
             handle_keydown float_pow printable fuel m clipboard c
               {| event_key := k; event_unicode := Some [ch] |} = Ok (c1, clipboard)
             /\ current_input c1
                = slice_to (current_input c) (cursor_pos c) ++ [ch]
                  ++ slice_from (current_input c) (cursor_pos c)
             /\ cursor_pos c1 = cursor_pos c + 1
             /\ select_start c1 = None).
  { destruct (keydown_lines c) as (lines & El).
    unfold handle_keydown.
    destruct (wrap_text (current_input c) MAX_CHARS_PER_LINE) as [l1 | e | ];
      try discriminate El.
    cbn [bind] in El |- *. rewrite El. cbn [bind event_key event_unicode].
    rewrite (str_eqb_neq _ _ Heq).
    replace (isprintable printable [ch]) with true
      by (cbn [isprintable forallb]; now rewrite Hp).
    rewrite Hctrl, Hmeta, Hr. cbn [orb negb].
    destruct k; try congruence;
      cbn [key_eqb andb orb]; rewrite ?andb_false_r; cbn [bind];
      (eexists; split; [reflexivity | ]);
      rewrite scroll_keeps_text; fields; repeat split; reflexivity. }
  destruct E1 as (c1 & H1 & Et & Ecur & Esel).
  exists c1.
  assert (Hr1 : get_selected_range c1 = (None, None))
    by (apply no_selection_range; now left).
  destruct (keydown_lines c1) as (lines & El).
  unfold handle_keydown at 2.
  destruct (wrap_text (current_input c1) MAX_CHARS_PER_LINE) as [l1 | e | ];
    try discriminate El.
  cbn [bind] in El |- *. rewrite El. cbn [bind event_key event_unicode].
  cbn [key_eqb andb orb]. rewrite ?andb_false_r, Hr1.
  replace (0 <? cursor_pos c1) with true by (symmetry; apply Z.ltb_lt; lia).
  cbn [bind].
  eexists. split; [exact H1 | ]. split; [exact Et | ].
  split; [reflexivity | ].
  rewrite scroll_keeps_text. fields. rewrite Et, Ecur.
  split; [ | lia].
  now apply (delete_inserted (current_input c) ch (cursor_pos c)).
Qed.
End Keys.

Lemma keys_keep_cursor_in_text_witness :
  for_every_pow (fun float_pow =>
    cursor_in_text
      (clear_selection (set_cursor_pos 1 (set_current_input (u"7") init)))).
Proof.
  intros float_pow.
  apply (keys_keep_cursor_in_text float_pow (fun _ => true) 0
           {| KMOD_CTRL := false; KMOD_SHIFT := false; KMOD_META := false |}
           [] [] init _ {| event_key := K_other; event_unicode := Some (u"7") |}).
  - unfold cursor_in_text. cbn. lia.
  - unfold selection_in_text. cbn. tauto.
  - discriminate.
  - reflexivity.
Defined.

Lemma empty_unicode_moves_cursor_witness :
  for_every_pow (fun float_pow =>
    exists c',
      handle_keydown float_pow (fun _ => true) 0
        {| KMOD_CTRL := false; KMOD_SHIFT := false; KMOD_META := false |} []
        (set_cursor_pos 2 (set_current_input (u"12") init))
        {| event_key := K_LEFT; event_unicode := Some [] |} = Ok (c', [])
      /\ current_input c' = u"12"
      /\ cursor_pos c' = 3%Z
      /\ ~ cursor_in_text c').
Proof.
  intros float_pow.
  destruct (empty_unicode_moves_cursor float_pow (fun _ => true) 0
              {| KMOD_CTRL := false; KMOD_SHIFT := false; KMOD_META := false |} []
              (set_cursor_pos 2 (set_current_input (u"12") init)) K_LEFT)
    as ((c' & H1 & H2 & H3 & H4) & _);
    try reflexivity; try discriminate; [now left | ].
  exists c'. split; [exact H1 | split; [exact H2 | split; [exact H3 | ]]].
  apply H4. reflexivity.
Defined.

Lemma return_key_is_the_equals_button_witness :
  for_every_pow (fun float_pow =>
    exists c2,
      handle_keydown float_pow (fun _ => true) 1
        {| KMOD_CTRL := false; KMOD_SHIFT := false; KMOD_META := false |} []
        (set_cursor_pos 3 (set_current_input (u"2+3") init))
        {| event_key := K_RETURN; event_unicode := None |} = Ok (c2, [])
      /\ current_input c2 = u"2+3"
      /\ result_preview c2 = u"5"
      /\ history_list c2 = [ {| expression := u"2+3"; result := u"5" |} ]
      /\ cursor_pos c2 = 3%Z).
Proof.
  intros float_pow.
  apply (return_key_is_the_equals_button float_pow (fun _ => true) 1
           {| KMOD_CTRL := false; KMOD_SHIFT := false; KMOD_META := false |} []
           (set_cursor_pos 3 (set_current_input (u"2+3") init))
           (set_cursor_pos 3
              (set_result_preview (u"5")
                 (set_history_list [ {| expression := u"2+3"; result := u"5" |} ]
                    (set_cursor_pos 3 (set_current_input (u"2+3") init)))))
           None).
  vm_compute. reflexivity.
Defined.

Lemma backspace_undoes_a_character_witness :
  for_every_pow (fun float_pow =>
    let c := set_cursor_pos 1 (set_current_input (u"12") init) in
    let m := {| KMOD_CTRL := false; KMOD_SHIFT := false; KMOD_META := false |} in
    exists c1 c2,
      handle_keydown float_pow (fun _ => true) 0 m [] c
        {| event_key := K_other; event_unicode := Some [Ch.plus] |} = Ok (c1, [])
      /\ current_input c1
         = slice_to (current_input c) (cursor_pos c) ++ Ch.plus
           :: slice_from (current_input c) (cursor_pos c)
      /\ handle_keydown float_pow (fun _ => true) 0 m [] c1
           {| event_key := K_BACKSPACE; event_unicode := None |} = Ok (c2, [])
      /\ current_input c2 = current_input c
      /\ cursor_pos c2 = cursor_pos c).
Proof.
  intros float_pow.
  apply (backspace_undoes_a_character float_pow (fun _ => true) 0);
    try reflexivity; try discriminate.
  - unfold cursor_in_text. cbn. lia.
  - now left.
Defined.

(* ================================================================== *)
(** * The mouse *)

Section Pointing.
Local Open Scope Z_scope.

Variable text_width : str -> Z.

Lemma char_index_range (text_line : str) (rel_x : Z) (todo : nat) :
  forall (i : nat) (char_idx : Z),
    0 <= char_idx <= Z.of_nat i ->
    0 <= char_index text_width text_line rel_x i todo char_idx <= Z.of_nat (i + todo).
Proof.
  induction todo as [ | todo IH]; intros i char_idx H; cbn [char_index].
  - lia.
  - destruct (_ <? _); [lia | ].
    specialize (IH (S i) (Z.of_nat i + 1)). lia.
Qed.

Lemma item_in_range {A : Type} (l : list A) (i : Z) :
  0 <= i < Z.of_nat (List.length l) -> exists x, item l i = Some x.
Proof.
  intros H. unfold item.
  replace (i <? 0) with false by (symmetry; apply Z.ltb_ge; lia).
  destruct (nth_error l (Z.to_nat i)) as [x | ] eqn:E; [now exists x | ].
  apply nth_error_None in E. lia.
Qed.

(** The position of a point at or below the first line of the display
    is in the text. *)
Lemma pointed_in_text (c : calculator) (x y : Z) :
  0 <= scroll_offset c -> display_rect_y + 5 <= y ->
  exists p,
    pointed text_width c (x, y) = Ok (Some p)
    /\ 0 <= p <= Z.of_nat (len (current_input c)).
Proof.
  intros Hs Hy. unfold pointed. cbn [fst snd].
  destruct (wrap_text_ok (current_input c)) as (lines & ->). cbn [bind].
  set (rel_x := x - display_rect_x - 10).
  set (line_idx := scroll_offset c + (y - display_rect_y - 5) / LINE_HEIGHT).
  assert (Hl : 0 <= line_idx).
  { unfold line_idx. pose proof (Z.div_pos (y - display_rect_y - 5) LINE_HEIGHT).
    unfold LINE_HEIGHT in *. lia. }
  assert (Hm : 0 <= line_idx * MAX_CHARS_PER_LINE) by (unfold MAX_CHARS_PER_LINE; lia).
  destruct (Z.ltb_spec line_idx (Z.of_nat (List.length lines))) as [Hlt | Hge].
  - destruct (item_in_range lines line_idx) as (text_line & ->); [lia | ].
    pose proof (char_index_range text_line rel_x (List.length text_line) 0 0
                  ltac:(lia)) as Hc.
    eexists. split; [reflexivity | ]. lia.
  - eexists. split; [reflexivity | ]. lia.
Qed.

(** X19. A click on the display at or below its first line, with a
    scroll position that is not negative, leaves the text as it is, puts
    the cursor in the text and sets both bounds of the selection to the
    cursor; a move of the pointer there during a selection puts the
    cursor and the end of the selection at one position in the text. *)
Theorem mouse_puts_cursor_in_text :
  forall (c : calculator) (x y : Z),
    0 <= scroll_offset c -> display_rect_y + 5 <= y ->
    (exists c',
        handle_mouse_click text_width c (x, y) = Ok (Some c')
        /\ current_input c' = current_input c
        /\ cursor_in_text c'
        /\ select_start c' = Some (cursor_pos c')
        /\ select_end c' = Some (cursor_pos c')
        /\ mouse_selecting c' = true)
    /\ (exists c',
           handle_mouse_selection text_width c (x, y) = Ok (Some c')
           /\ current_input c' = current_input c
           /\ cursor_in_text c'
           /\ select_start c' = select_start c
           /\ select_end c' = Some (cursor_pos c')).
Proof.
  intros c x y Hs Hy.
  destruct (pointed_in_text c x y Hs Hy) as (p & Hp & Hr).
  unfold handle_mouse_click, handle_mouse_selection, cursor_in_text.
  rewrite Hp. cbn [bind].
  split; eexists; (split; [reflexivity | ]); fields; repeat split; lia.
Qed.

(** X20. A click on the five rows of pixels above the first line of the
    display, with the display not scrolled and a text of less than 22
    characters, puts the cursor and both bounds of the selection at a
    negative position, 22 or less before the character found on the
    line: the cursor is not in the text any more. *)
Theorem click_above_first_line :
  forall (c : calculator) (x y : Z),
    scroll_offset c = 0 ->
    display_rect_y <= y < display_rect_y + 5 ->
    Z.of_nat (len (current_input c)) < MAX_CHARS_PER_LINE ->
    exists c',
      handle_mouse_click text_width c (x, y) = Ok (Some c')
      /\ current_input c' = current_input c
      /\ - MAX_CHARS_PER_LINE <= cursor_pos c' < 0
      /\ select_start c' = Some (cursor_pos c')
      /\ select_end c' = Some (cursor_pos c')
      /\ ~ cursor_in_text c'.
Proof.
  intros c x y Hs Hy Hlen.
  unfold handle_mouse_click, pointed. cbn [fst snd].
  destruct (wrap_text_lines (current_input c) MAX_CHARS_PER_LINE eq_refl)
    as (lines & -> & Hcat & Hn & _).
  cbn [bind]. rewrite Hs.
  unfold display_rect_x, display_rect_y, LINE_HEIGHT, MAX_CHARS_PER_LINE in *.
  assert (Ey : (y - 60 - 5) / 40 = -1)
    by (symmetry; apply (Z.div_unique _ _ _ (y - 25)); lia).
  rewrite Ey.
  assert (Hone : Z.of_nat (List.length lines) = 1).
  { rewrite Hn.
    assert ((Z.of_nat (len (current_input c)) + 22 - 1) / 22 < 2).
    { apply Z.div_lt_upper_bound; lia. }
    lia. }
  destruct lines as [ | l0 [ | l1 lines]]; cbn [List.length] in Hone; try lia.
  cbn [List.concat] in Hcat. rewrite app_nil_r in Hcat. subst l0.
  cbn [Z.add Z.ltb Z.compare List.length item Z.opp Z.leb Z.of_nat
       Pos.of_succ_nat Pos.compare Pos.compare_cont Z.to_nat nth_error Z.pos_sub].
  set (char_idx := char_index text_width (current_input c) (x - 10 - 10) 0
                     (List.length (current_input c)) 0).
  pose proof (char_index_range (current_input c) (x - 10 - 10)
                (List.length (current_input c)) 0 0 ltac:(lia)) as Hc.
  fold char_idx in Hc. unfold len in *. cbn [Nat.add] in Hc.
  eexists. split; [reflexivity | ]. unfold cursor_in_text. fields.
  unfold len. repeat split; lia.
Qed.
End Pointing.

Lemma mouse_puts_cursor_in_text_witness :
  let c := set_cursor_pos 3 (set_current_input (u"2+3") init) in
  (exists c',
      handle_mouse_click (fun t => 10 * Z.of_nat (len t))%Z c (45, 70)%Z = Ok (Some c')
      /\ current_input c' = current_input c
      /\ cursor_in_text c'
      /\ select_start c' = Some (cursor_pos c')
      /\ select_end c' = Some (cursor_pos c')
      /\ mouse_selecting c' = true)
  /\ (exists c',
         handle_mouse_selection (fun t => 10 * Z.of_nat (len t))%Z c (45, 70)%Z
         = Ok (Some c')
         /\ current_input c' = current_input c
         /\ cursor_in_text c'
         /\ select_start c' = select_start c
         /\ select_end c' = Some (cursor_pos c')).
Proof.
  apply (mouse_puts_cursor_in_text (fun t => 10 * Z.of_nat (len t))%Z
           (set_cursor_pos 3 (set_current_input (u"2+3") init)) 45 70).
  - cbn. lia.
  - unfold display_rect_y. lia.
Defined.

Lemma click_above_first_line_witness :
  let c := set_cursor_pos 3 (set_current_input (u"2+3") init) in
  exists c',
    handle_mouse_click (fun t => 10 * Z.of_nat (len t))%Z c (45, 62)%Z = Ok (Some c')
    /\ current_input c' = current_input c
    /\ (- MAX_CHARS_PER_LINE <= cursor_pos c' < 0)%Z
    /\ select_start c' = Some (cursor_pos c')
    /\ select_end c' = Some (cursor_pos c')
    /\ ~ cursor_in_text c'.
Proof.
  apply (click_above_first_line (fun t => 10 * Z.of_nat (len t))%Z
           (set_cursor_pos 3 (set_current_input (u"2+3") init)) 45 62).
  - reflexivity.
  - unfold display_rect_y. lia.
  - vm_compute. reflexivity.
Defined.
(* ================================================================== *)
(** * The rewrite loops and the outcome of an evaluation *)

(** The turns of a loop that met a buffer on which a turn changes
    nothing go on for ever. *)
Lemma turns_stall (cond : str -> bool) (body : str -> Res str) (k : nat) :
  forall s b,
    turns cond body k s b -> cond b = true -> body b = Ok b ->
    forall n, while n cond body s = Timeout.
Proof.
  induction k as [ | k IH]; intros s b Ht Hc Hb n; cbn [turns] in Ht.
  - subst b. now apply while_stall.
  - destruct Ht as (Hs & s' & Hs' & Ht).
    destruct n as [ | n]; cbn [while]; rewrite Hs; [reflexivity | ].
    rewrite Hs'. now apply (IH s' b).
Qed.

(** The same when a turn on the buffer met is itself cut off. *)
Lemma turns_cut_off (cond : str -> bool) (body : str -> Res str) (k : nat) :
  forall s b,
    turns cond body k s b -> cond b = true -> body b = Timeout ->
    forall n, while n cond body s = Timeout.
Proof.
  induction k as [ | k IH]; intros s b Ht Hc Hb n; cbn [turns] in Ht.
  - subst b. destruct n as [ | n]; cbn [while]; rewrite Hc; [reflexivity | ].
    now rewrite Hb.
  - destruct Ht as (Hs & s' & Hs' & Ht).
    destruct n as [ | n]; cbn [while]; rewrite Hs; [reflexivity | ].
    rewrite Hs'. now apply (IH s' b).
Qed.

(** A loop whose turns lower a measure or change nothing, and that has
    not ended after more turns than the measure of its first buffer: within
    that many turns it came to a buffer on which a turn changes nothing,
    or on which a turn was itself cut off. *)
Lemma while_cut_off_turns (cond : str -> bool) (body : str -> Res str)
      (mu : str -> nat) :
  (forall b b', body b = Ok b' -> b' = b \/ (mu b' < mu b)%nat) ->
  forall (n : nat) (s : str),
    (mu s < n)%nat -> while n cond body s = Timeout ->
    exists k b, (k <= mu s)%nat /\ turns cond body k s b
                /\ cond b = true /\ (body b = Ok b \/ body b = Timeout).
Proof.
  intros Hbody n. induction n as [ | n IH]; intros s Hmu; [lia | cbn [while]].
  destruct (cond s) eqn:Hc; [ | discriminate].
  destruct (body s) as [s' | e | ] eqn:Hb; [ | discriminate | ].
  - destruct (Hbody _ _ Hb) as [-> | Hlt].
    + intros _. exists 0%nat, s. cbn [turns]. repeat split; auto. lia.
    + intros H. destruct (IH s' ltac:(lia) H) as (k & b & Hk & Ht & Hcb & Hbb).
      exists (S k), b. cbn [turns]. repeat split; auto; [lia | ].
      now exists s'.
  - intros _. exists 0%nat, s. cbn [turns]. repeat split; auto. lia.
Qed.

Section LoopsAndFuel.
Variable float_pow : Float.float -> Float.float -> Res Float.float.

(** What a turn returns does not depend on the bound of the loops inside
    it, once the bound is large enough for the turn to return. *)
Lemma loop_body_more_fuel (n1 n2 : nat) (l : loop) (x y : str) :
  (n1 <= n2)%nat ->
  loop_body float_pow n1 l x = Ok y -> loop_body float_pow n2 l x = Ok y.
Proof.
  intros Hle. destruct l; cbn [loop_body].
  - trivial.
  - destruct (sqrt_pass_upto float_pow n1 n2 x Hle) as [-> | ->];
      [discriminate | trivial].
  - destruct (paren_pass_upto float_pow n1 n2 x Hle) as [-> | ->];
      [discriminate | trivial].
Qed.

Lemma after_turns_more_fuel (n1 n2 : nat) (l : loop) (k : nat) :
  (n1 <= n2)%nat ->
  forall s b, after_turns float_pow n1 l k s b -> after_turns float_pow n2 l k s b.
Proof.
  intros Hle. unfold after_turns.
  induction k as [ | k IH]; intros s b; cbn [turns]; [trivial | ].
  intros (Hc & s' & Hs' & Ht). split; [exact Hc | ].
  exists s'. split; [ | now apply IH].
  now apply (loop_body_more_fuel n1 n2).
Qed.

Lemma loop_start_more_fuel (n1 n2 : nat) (l : loop) (expr s : str) :
  (n1 <= n2)%nat ->
  loop_start float_pow n1 l expr = Ok s -> loop_start float_pow n2 l expr = Ok s.
Proof.
  intros Hle.
  assert (Hroot : forall x,
             upto (while n1 (contains (u"√")) (sqrt_pass float_pow n1) x)
                  (while n2 (contains (u"√")) (sqrt_pass float_pow n2) x)).
  { intros x. apply while_upto; [intros; now apply sqrt_pass_upto | exact Hle]. }
  assert (Hparen : forall x,
             upto (while n1 (contains (u"(")) (paren_pass float_pow n1) x)
                  (while n2 (contains (u"(")) (paren_pass float_pow n2) x)).
  { intros x. apply while_upto; [intros; now apply paren_pass_upto | exact Hle]. }
  destruct l; cbn [loop_start].
  - assert (H : upto (loop_start float_pow n1 Exponent expr)
                     (loop_start float_pow n2 Exponent expr)).
    { cbn [loop_start]. apply upto_bind; [apply Hroot | intros e1].
      apply upto_bind; [apply Hparen | intros e2; apply upto_refl]. }
    cbn [loop_start] in H. destruct H as [-> | ->]; [discriminate | trivial].
  - trivial.
  - destruct (Hroot expr) as [-> | ->]; [discriminate | trivial].
Qed.

(** A loop that does not end, entered on the buffer [s]: the evaluation
    is cut off. *)
Lemma evaluate_body_cut_off (fuel : nat) (l : loop) (expr s : str) :
  loop_start float_pow fuel l expr = Ok s ->
  run_loop float_pow fuel l fuel s = Timeout ->
  evaluate_body float_pow fuel expr = Timeout.
Proof.
  unfold run_loop, evaluate_body. destruct l; cbn [loop_start loop_cond loop_body].
  - intros Hs Hw.
    apply bind_ok in Hs. destruct Hs as (e1 & -> & Hs). cbn [bind].
    apply bind_ok in Hs. destruct Hs as (e2 & -> & Hs). cbn [bind].
    unfold evaluate_simple_expression, rewrite_simple.
    rewrite Hs. cbn [bind]. rewrite Hw. reflexivity.
  - intros Hs Hw. injection Hs as <-. rewrite Hw. reflexivity.
  - intros -> Hw. cbn [bind]. rewrite Hw. reflexivity.
Qed.

(** An accepted input whose evaluation comes to a buffer on which a turn
    of a loop changes nothing has no outcome. *)
Lemma stalled_input_diverges (fuel : nat) (l : loop) (k : nat) (expr s b : str) :
  accepted expr = true ->
  loop_start float_pow fuel l expr = Ok s ->
  after_turns float_pow fuel l k s b ->
  stalls float_pow fuel l b ->
  diverges float_pow expr.
Proof.
  intros Hacc Hs Ht (Hc & Hb) fuel'.
  set (F := Nat.max fuel fuel').
  assert (HF : evaluate_body float_pow F expr = Timeout).
  { apply (evaluate_body_cut_off F l expr s).
    - apply (loop_start_more_fuel fuel F); [lia | exact Hs].
    - unfold run_loop.
      apply (turns_stall _ _ k s b).
      + apply (after_turns_more_fuel fuel F); [lia | exact Ht].
      + exact Hc.
      + apply (loop_body_more_fuel fuel F); [lia | exact Hb]. }
  rewrite (evaluate_accepted _ _ _ Hacc).
  destruct (evaluate_body_upto float_pow fuel' F expr ltac:(lia)) as [-> | ->];
    [reflexivity | now rewrite HF].
Qed.
(** The same for a buffer on which a turn does not end: a loop inside the
    turn is cut off at every bound. *)
Lemma endless_turn_diverges (fuel : nat) (l : loop) (k : nat) (expr s b : str) :
  accepted expr = true ->
  loop_start float_pow fuel l expr = Ok s ->
  after_turns float_pow fuel l k s b ->
  loop_cond l b = true ->
  (forall fuel', loop_body float_pow fuel' l b = Timeout) ->
  diverges float_pow expr.
Proof.
  intros Hacc Hs Ht Hc Hb fuel'.
  set (F := Nat.max fuel fuel').
  assert (HF : evaluate_body float_pow F expr = Timeout).
  { apply (evaluate_body_cut_off F l expr s).
    - apply (loop_start_more_fuel fuel F); [lia | exact Hs].
    - unfold run_loop.
      apply (turns_cut_off _ _ k s b).
      + apply (after_turns_more_fuel fuel F); [lia | exact Ht].
      + exact Hc.
      + apply Hb. }
  rewrite (evaluate_accepted _ _ _ Hacc).
  destruct (evaluate_body_upto float_pow fuel' F expr ltac:(lia)) as [-> | ->];
    [reflexivity | now rewrite HF].
Qed.
End LoopsAndFuel.

(** C3. The loops of the exponents, the roots and the parentheses have no
    bound and no check of progress.  For a text of characters of the
    buttons and of an ASCII keyboard: a turn of a loop either lowers the
    number of the loop's marker characters in the buffer (the stars, the
    root signs, the opening parentheses) or leaves the buffer as it was;
    a loop that comes, after any number of turns, to a buffer that a turn
    leaves as it was with the marker still there is cut off at every
    bound; a loop on the buffer [expr] that is cut off at a bound above
    the number of markers of [expr] has come, within that number of turns
    from [expr], to a buffer on which a turn changes nothing or does not
    end; and an accepted input [expr] whose evaluation enters a loop that
    comes to a buffer that a turn leaves as it was, or on which a turn
    does not end at any bound, has no outcome, whatever the bound. *)
Theorem rewrite_loops_progress_or_stall :
  forall float_pow (fuel : nat) (l : loop) (expr : str),
    forallb typed expr = true ->
    (forall expr',
        loop_body float_pow fuel l expr = Ok expr' ->
        expr' = expr \/ (count (marker l) expr' < count (marker l) expr)%nat)
    /\ (forall (k : nat) (b : str),
           after_turns float_pow fuel l k expr b ->
           stalls float_pow fuel l b ->
           forall n, run_loop float_pow fuel l n expr = Timeout)
    /\ (forall n,
           (count (marker l) expr < n)%nat ->
           run_loop float_pow fuel l n expr = Timeout ->
           exists (k : nat) (b : str),
             (k <= count (marker l) expr)%nat
             /\ after_turns float_pow fuel l k expr b
             /\ loop_cond l b = true
             /\ (loop_body float_pow fuel l b = Ok b
                 \/ loop_body float_pow fuel l b = Timeout))
    /\ (forall (s : str) (k : nat) (b : str),
           accepted expr = true ->
           loop_start float_pow fuel l expr = Ok s ->
           after_turns float_pow fuel l k s b ->
           stalls float_pow fuel l b
           \/ (loop_cond l b = true
               /\ forall fuel', loop_body float_pow fuel' l b = Timeout) ->
           diverges float_pow expr
           /\ forall r, ~ returns float_pow expr r).
Proof.
  intros float_pow fuel l expr _. split; [ | split; [ | split]].
  - intros expr'. apply loop_body_progress.
  - intros k b Ht (Hc & Hb). unfold run_loop. now apply (turns_stall _ _ k expr b).
  - intros n. unfold run_loop, after_turns.
    apply while_cut_off_turns. intros b b'. apply loop_body_progress.
  - intros s k b Hacc Hs Ht Hst.
    assert (Hd : diverges float_pow expr).
    { destruct Hst as [Hst | (Hc & Hb)].
      - exact (stalled_input_diverges float_pow fuel l k expr s b Hacc Hs Ht Hst).
      - exact (endless_turn_diverges float_pow fuel l k expr s b Hacc Hs Ht Hc Hb). }
    split; [exact Hd | ].
    intros r. now apply diverges_no_outcome.
Qed.

Lemma rewrite_loops_progress_or_stall_witness :
  for_every_pow (fun float_pow =>
    (u"2.0" = u"√(4)"
     \/ (count (marker Root) (u"2.0") < count (marker Root) (u"√(4)"))%nat)
    /\ (forall n, run_loop float_pow 1 Paren n (u"(2)+()") = Timeout)
    /\ diverges float_pow (u"√(4)+2^")
    /\ diverges float_pow (u"(2^)")).
Proof.
  intros float_pow. split; [ | split; [ | split]].
  - destruct (rewrite_loops_progress_or_stall float_pow 1 Root (u"√(4)") eq_refl)
      as (H & _).
    apply H. vm_compute. reflexivity.
  - destruct (rewrite_loops_progress_or_stall float_pow 1 Paren (u"(2)+()") eq_refl)
      as (_ & H & _).
    apply (H 1%nat (u"2.0+()")).
    + split; [reflexivity | ]. exists (u"2.0+()"). split; reflexivity.
    + split; reflexivity.
  - destruct (rewrite_loops_progress_or_stall float_pow 1 Exponent (u"√(4)+2^") eq_refl)
      as (_ & _ & _ & H).
    apply (H (u"2.0+2**") 0%nat (u"2.0+2**")).
    + reflexivity.
    + vm_compute. reflexivity.
    + reflexivity.
    + left. split; reflexivity.
  - destruct (rewrite_loops_progress_or_stall float_pow 1 Paren (u"(2^)") eq_refl)
      as (_ & _ & _ & H).
    apply (H (u"(2^)") 0%nat (u"(2^)")).
    + reflexivity.
    + vm_compute. reflexivity.
    + reflexivity.
    + right. split; [reflexivity | ]. intros fuel'.
      cbn [loop_body]. unfold paren_pass, re_sub.
      assert (E : evaluate_simple_expression float_pow fuel' (u"2^") = Timeout).
      { unfold evaluate_simple_expression, rewrite_simple.
        replace (re_sub Pat.sqrt_call _ (replace_symbols (u"2^"))) with (Ok (u"2**"))
          by (vm_compute; reflexivity).
        cbn [bind].
        rewrite (while_stall (contains (u"**")) (power_pass float_pow) (u"2**"));
          [reflexivity | vm_compute; reflexivity | vm_compute; reflexivity]. }
      change (u"(2^)") with (Ch.lparen :: u"2^" ++ [Ch.rparen]).
      cbn [sub_go app].
      replace (rx_at Pat.paren (Ch.lparen :: u"2^" ++ [Ch.rparen]))
        with (Some ([] : str, [u"2^"])) by (vm_compute; reflexivity).
      change (group [u"2^"] 1) with (u"2^"). rewrite E. reflexivity.
Defined.

(* ================================================================== *)
(** * An exponent between two literals *)






Section PowerPattern.
Import Decimal.




End PowerPattern.

Section TwoPoints.
Import Decimal.




End TwoPoints.

Section PowerOfLiterals.
Import Decimal.
Variable float_pow : Float.float -> Float.float -> Res Float.float.








End PowerOfLiterals.



